(** * Offline update core of aktualizr-lite: registry client and offline client

    A shallow embedding of [src/docker/docker.cc] and [src/offline/client.cc]
    together with the properties of the pinned-reference model, the streaming
    download pipeline, the registry client, the offline target selector, the
    image registrar and the run driver.

    Conventions.  A [std::string] is a [string] (a sequence of bytes), a
    position returned by [find]/[rfind] is an [option nat] where [None] is
    [std::string::npos], a [std::size_t] that takes part in wrapping
    arithmetic is a [Z] reduced modulo [2^64], a C++ exception is the [Err]
    branch of [result], maps ([std::unordered_map], the members of a JSON
    object) are [gmap]s. *)

From Stdlib Require Import ZArith List String Ascii Bool Lia Sorted.
From stdpp Require Import gmap strings.

Open Scope string_scope.
Open Scope nat_scope.

#[global] Arguments String.append !s1 s2 : simpl nomatch.

(** ** Exceptions *)

Inductive exn : Type :=
| invalid_argument (what : string)
| runtime_error (what : string).

Inductive result (A : Type) : Type :=
| Ok (a : A)
| Err (e : exn).
Arguments Ok {A} a.
Arguments Err {A} e.

Definition is_ok {A} (r : result A) : bool :=
  match r with Ok _ => true | Err _ => false end.

(** ** [std::string] operations used by the sources *)

Module Str.

Fixpoint take (n : nat) (s : string) : string :=
  match n, s with
  | S n', String c r => String c (take n' r)
  | _, _ => EmptyString
  end.

Fixpoint drop (n : nat) (s : string) : string :=
  match n, s with
  | S n', String _ r => drop n' r
  | _, _ => s
  end.

(** [s.substr(pos, len)] for [pos <= s.size()], which is how the sources call
    it; the count is clipped to the end of the string as in C++. *)
Definition substr (s : string) (pos len : nat) : string := take len (drop pos s).

(** [s.substr(pos)]. *)
Definition substr_from (s : string) (pos : nat) : string := drop pos s.

(** [s.find(c)]: position of the first occurrence. *)
Fixpoint find (c : ascii) (s : string) : option nat :=
  match s with
  | EmptyString => None
  | String a r => if Ascii.eqb a c then Some 0 else option_map S (find c r)
  end.

(** [s.find(c, pos)]; [pos = None] is a search started at [npos]. *)
Definition find_from (c : ascii) (s : string) (pos : option nat) : option nat :=
  match pos with
  | None => None
  | Some p =>
      if String.length s <? p then None
      else option_map (Nat.add p) (find c (drop p s))
  end.

(** [s.rfind(c)]: position of the last occurrence. *)
Fixpoint rfind (c : ascii) (s : string) : option nat :=
  match s with
  | EmptyString => None
  | String a r =>
      match rfind c r with
      | Some i => Some (S i)
      | None => if Ascii.eqb a c then Some 0 else None
      end
  end.

(** [boost::starts_with(s, p)]. *)
Fixpoint starts_with (s p : string) : bool :=
  match p, s with
  | EmptyString, _ => true
  | String a p', String b s' => Ascii.eqb a b && starts_with s' p'
  | String _ _, EmptyString => false
  end.

(** [s.rfind(p)] for a string [p]: the last position where [p] occurs. *)
Fixpoint rfind_str (p s : string) : option nat :=
  match s with
  | EmptyString => if starts_with s p then Some 0 else None
  | String _ r =>
      match rfind_str p r with
      | Some i => Some (S i)
      | None => if starts_with s p then Some 0 else None
      end
  end.

(** [s.find(p)] for a string [p]: the first position where [p] occurs. *)
Fixpoint find_str (p s : string) : option nat :=
  if starts_with s p then Some 0
  else match s with
       | EmptyString => None
       | String _ r => option_map S (find_str p r)
       end.

(** [std::tolower] in the "C" locale. *)
Definition lower_char (c : ascii) : ascii :=
  let n := nat_of_ascii c in
  if (65 <=? n) && (n <=? 90) then ascii_of_nat (n + 32) else c.

(** [boost::algorithm::to_lower_copy]. *)
Fixpoint to_lower (s : string) : string :=
  match s with
  | EmptyString => EmptyString
  | String c r => String (lower_char c) (to_lower r)
  end.

Definition is_space (c : ascii) : bool :=
  let n := nat_of_ascii c in (n =? 32) || ((9 <=? n) && (n <=? 13)).

Fixpoint trim_left (s : string) : string :=
  match s with
  | String c r => if is_space c then trim_left r else s
  | EmptyString => EmptyString
  end.

Fixpoint trim_right (s : string) : string :=
  match s with
  | EmptyString => EmptyString
  | String c r =>
      match trim_right r with
      | EmptyString => if is_space c then EmptyString else String c EmptyString
      | r' => String c r'
      end
  end.

(** [boost::trim]. *)
Definition trim (s : string) : string := trim_right (trim_left s).

(** Membership of a character and the number of its occurrences. *)
Fixpoint mem (c : ascii) (s : string) : bool :=
  match s with
  | EmptyString => false
  | String a r => Ascii.eqb a c || mem c r
  end.

Fixpoint count (c : ascii) (s : string) : nat :=
  match s with
  | EmptyString => 0
  | String a r => (if Ascii.eqb a c then 1 else 0) + count c r
  end.

Fixpoint all (p : ascii -> bool) (s : string) : bool :=
  match s with
  | EmptyString => true
  | String a r => p a && all p r
  end.

Fixpoint repeat (c : ascii) (n : nat) : string :=
  match n with
  | 0 => EmptyString
  | S n' => String c (repeat c n')
  end.

Definition is_hex (c : ascii) : bool :=
  let n := nat_of_ascii c in
  ((48 <=? n) && (n <=? 57)) || ((97 <=? n) && (n <=? 102)) || ((65 <=? n) && (n <=? 70)).

End Str.

Module Docker.

(** ** [HashedDigest] (docker.cc, lines 59-72) *)

Record HashedDigest : Type := mkHashedDigest {
  digest_ : string;      (* what [operator()] returns: "sha256:<hash>" *)
  hash_ : string;        (* what [hash()] returns *)
  short_hash_ : string   (* what [shortHash()] returns *)
}.

Definition HashedDigest_Type : string := "sha256:".

Definition HashedDigest_of (hash_digest : string) : result HashedDigest :=
  let digest := Str.to_lower hash_digest in
  if negb (String.eqb HashedDigest_Type
             (Str.substr digest 0 (String.length HashedDigest_Type)))
  then Err (invalid_argument ("Unsupported hash type: " ++ hash_digest))
  else
    let hash := Str.substr_from digest (String.length HashedDigest_Type) in
    if negb (Nat.eqb 64 (String.length hash))
    then Err (invalid_argument ("Invalid hash size: " ++ hash_digest))
    else Ok {| digest_ := digest; hash_ := hash; short_hash_ := Str.substr hash 0 7 |}.

(** What a successful construction stores for the 64 characters [h]. *)
Definition digest_for (h : string) : HashedDigest :=
  mkHashedDigest ("sha256:" ++ Str.to_lower h) (Str.to_lower h) (Str.take 7 (Str.to_lower h)).

(** ** [Uri] (docker.cc, lines 16-57) *)

Record Uri : Type := mkUri {
  digest : HashedDigest;
  app : string;
  factory : string;
  repo : string;
  registryHostname : string
}.

Definition parseUri (uri : string) (factory_app : bool) : result Uri :=
  match Str.find "@" uri with
  | None => Err (invalid_argument ("Invalid URI: digest/'@' not found in " ++ uri))
  | Some split_pos =>
      let digest := Str.substr_from uri (split_pos + 1) in
      match Str.find "/" uri with
      | None => Err (invalid_argument ("Invalid URI: image name/path is not found in " ++ uri))
      | Some name_pos_start =>
          if split_pos <=? name_pos_start + 1
          then Err (invalid_argument
                      ("Invalid URI: image name/path is not present before digest; uri: " ++ uri))
          else
            let registry_hostname := Str.substr uri 0 name_pos_start in
            let name := Str.substr uri (name_pos_start + 1) (split_pos - name_pos_start - 1) in
            let app_pos := Str.rfind "/" name in
            let factory := match app_pos with
                           | Some p => Str.substr name 0 p
                           | None => EmptyString
                           end in
            (* [app_pos_start = -1] makes [app_pos_start + 1] wrap to 0 *)
            let app_start := match app_pos with Some p => p + 1 | None => 0 end in
            let app := Str.substr name app_start (String.length name - app_start) in
            if factory_app &&
               (String.eqb factory EmptyString || bool_decide (is_Some (Str.find "/" factory)))
            then Err (invalid_argument
                        ("Invalid URI: invalid name format of a factory image, must be <factory>/<repo>; uri: "
                           ++ uri))
            else
              match HashedDigest_of digest with
              | Err e => Err e
              | Ok d => Ok (mkUri d app factory name registry_hostname)
              end
      end
  end.

(** The factory and the app [parseUri] takes out of the repository name. *)
Definition split_repo (name : string) : string * string :=
  let app_pos := Str.rfind "/" name in
  let app_start := match app_pos with Some p => p + 1 | None => 0 end in
  (match app_pos with Some p => Str.substr name 0 p | None => EmptyString end,
   Str.substr name app_start (String.length name - app_start)).

(** [name] split at its last ['/'], or not split at all when it has none. *)
Definition splits_repo (name factory app : string) : Prop :=
  (name = factory ++ "/" ++ app /\ Str.mem "/" app = false)
  \/ (Str.mem "/" name = false /\ factory = EmptyString /\ app = name).

Definition factory_error (uri : string) : exn :=
  invalid_argument
    ("Invalid URI: invalid name format of a factory image, must be <factory>/<repo>; uri: " ++ uri).

(** [Uri::createUri]. *)
Definition createUri (u : Uri) (digest_in : HashedDigest) : Uri :=
  mkUri digest_in (app u) (factory u) (repo u) (registryHostname u).

(** ** HTTP transport (the collaborator behind [HttpInterface]) *)

Definition CURLE_OK : Z := 0%Z.

Record HttpResponse : Type := mkHttpResponse {
  body : string;
  http_status_code : Z;
  curl_code : Z;
  error_message : string;
  headers : gmap string string
}.

(** [HttpResponse(body, status, curl_code, error_message)]. *)
Definition HttpResponse_of (b : string) (status curl : Z) (msg : string) : HttpResponse :=
  mkHttpResponse b status curl msg ∅.

(** The requests a registry client issues, in the order it issues them.
    [FactoryGet]/[FactoryDownload] go through a transport obtained from the
    client factory for the given request headers, [DaemonGet] through the
    credentials transport. *)
Inductive Call : Type :=
| DaemonGet (url : string) (maxsize : Z)
| FactoryGet (request_headers : list string) (url : string) (maxsize : Z)
| FactoryDownload (request_headers : list string) (url : string).

Record FileSystem : Type := mkFileSystem {
  files : gmap string string;       (* path |-> content *)
  writable : string -> bool;        (* can the path be opened for writing *)
  free_space : nat                  (* bytes the device still accepts *)
}.

(** What a transport can observe: the requests made so far and the files. *)
Record World : Type := mkWorld {
  log : list Call;
  fs : FileSystem
}.

(** [HttpInterface]: [get] and [download]; [download] drives the write
    callback [write_cb] on the user context [userp] and hands the context
    back next to the response. *)
Record HttpInterface : Type := mkHttpInterface {
  get : World -> string -> Z -> HttpResponse;
  download : forall C : Type, World -> string -> (C -> string -> Z * C) -> C -> HttpResponse * C
}.

(** Library functions the client calls. *)
Record Libs : Type := mkLibs {
  sha256digest : string -> string;          (* Crypto::sha256digest *)
  isOk : HttpResponse -> bool;              (* HttpResponse::isOk *)
  json_member : string -> string -> string; (* getJson()[member].asString() of a body *)
  toBase64 : string -> string;              (* Utils::toBase64 *)
  DefManifestMaxSize : Z;
  AuthMaterialMaxSize : Z
}.

(** [boost::algorithm::hex]: two upper-case digits per byte. *)
Definition hex_digit (n : nat) : ascii :=
  if n <? 10 then ascii_of_nat (48 + n) else ascii_of_nat (55 + n).

Fixpoint hex (s : string) : string :=
  match s with
  | EmptyString => EmptyString
  | String c r =>
      let n := nat_of_ascii c in
      String (hex_digit (n / 16)) (String (hex_digit (n mod 16)) (hex r))
  end.

(** ** Computations that issue requests: state and exceptions *)

Definition M (A : Type) : Type := World -> result A * World.

Definition ret {A} (a : A) : M A := fun w => (Ok a, w).
Definition throw {A} (e : exn) : M A := fun w => (Err e, w).
Definition bind {A B} (m : M A) (k : A -> M B) : M B :=
  fun w => match m w with
           | (Ok a, w') => k a w'
           | (Err e, w') => (Err e, w')
           end.
Definition lift {A} (r : result A) : M A := fun w => (r, w).

Notation "'let*' x ':=' m 'in' k" := (bind m (fun x => k))
  (at level 10, x name, m at level 100, k at level 200).
Notation "'do' m 'then' k" := (bind m (fun _ => k))
  (at level 10, m at level 100, k at level 200).

Definition logged (w : World) (c : Call) : World := mkWorld (log w ++ [c])%list (fs w).

Definition record_call (c : Call) : M unit := fun w => (Ok tt, logged w c).

(** ** [RegistryClient::BearerAuth] (docker.cc, lines 83-149) *)

Definition dquote : ascii := ascii_of_nat 34.
Definition quoted (s : string) : string := String dquote (s ++ String dquote EmptyString).
Definition backquoted (s : string) : string := "`" ++ s ++ "`".

Definition BearerAuth_Header : string := "www-authenticate".
Definition BearerAuth_AuthType : string := "bearer".

Record BearerAuth : Type := mkBearerAuth {
  Realm : string;
  Service : string;
  Scope : string
}.

Definition missing_opening (auth_header_value : string) : exn :=
  invalid_argument ("Invalid value of Bearer auth parameters; missing openning "
                      ++ backquoted (String dquote EmptyString) ++ " in " ++ auth_header_value).

(** The [while] loop over the parameters.  Every round moves
    [param_begin_pos] forward, so [S (length bearer_val)] rounds are enough
    ([bearer_params_rounds] below); [None] stands for a loop cut short. *)
Fixpoint bearer_params_loop (rounds : nat) (auth_header_value bearer_val : string)
    (bearer_params : gmap string string) (param_begin_pos : option nat)
  : option (result (gmap string string)) :=
  match Str.find_from "=" bearer_val param_begin_pos with
  | None => Some (Ok bearer_params)
  | Some param_eq_pos =>
      match rounds with
      | 0 => None
      | S rounds' =>
          match Str.find_from dquote bearer_val param_begin_pos with
          | None => Some (Err (missing_opening auth_header_value))
          | Some param_value_beg_pos =>
              if param_value_beg_pos <? param_eq_pos
              then Some (Err (invalid_argument
                                ("Invalid value of Bearer auth parameters; "
                                   ++ backquoted (String dquote EmptyString) ++ " before "
                                   ++ backquoted "=" ++ " in " ++ auth_header_value)))
              else
                let must_be_empty_or_space :=
                  Str.substr bearer_val (param_eq_pos + 1)
                             (param_value_beg_pos - param_eq_pos - 1) in
                if negb (Str.all (fun s => Ascii.eqb s " ") must_be_empty_or_space)
                then Some (Err (missing_opening auth_header_value))
                else
                  match Str.find_from dquote bearer_val (Some (param_value_beg_pos + 1)) with
                  | None =>
                      Some (Err (invalid_argument
                                   ("Invalid value of Bearer auth parameters; missing clossing "
                                      ++ backquoted (String dquote EmptyString) ++ " in "
                                      ++ auth_header_value)))
                  | Some param_value_end_pos =>
                      let begin := default 0 param_begin_pos in
                      let param_name :=
                        Str.trim (Str.substr bearer_val begin (param_eq_pos - begin)) in
                      let param_value :=
                        Str.trim (Str.substr bearer_val (param_value_beg_pos + 1)
                                             (param_value_end_pos - param_value_beg_pos - 1)) in
                      bearer_params_loop rounds' auth_header_value bearer_val
                        (<[param_name := param_value]> bearer_params)
                        (option_map S (Str.find_from "," bearer_val (Some param_value_end_pos)))
                  end
          end
      end
  end.

Definition required_params : list string := ["realm"; "service"; "scope"].

Fixpoint join (sep : string) (l : list string) : string :=
  match l with
  | [] => EmptyString
  | [x] => x
  | x :: r => x ++ sep ++ join sep r
  end.

Definition BearerAuth_of (auth_header_value : string) : result BearerAuth :=
  if negb (Str.starts_with auth_header_value BearerAuth_AuthType)
  then Err (invalid_argument
              ("Unsupported authentication type to access Registry: " ++ auth_header_value))
  else
    let bearer_val :=
      Str.trim (Str.substr_from auth_header_value
                  (default 0 (Str.rfind_str BearerAuth_AuthType auth_header_value)
                   + String.length BearerAuth_AuthType)) in
    match bearer_params_loop (S (String.length bearer_val)) auth_header_value bearer_val ∅ (Some 0) with
    | None => Err (runtime_error "unreachable")
    | Some (Err e) => Err e
    | Some (Ok bearer_params) =>
        let missing_params :=
          List.filter (fun param => negb (bool_decide (is_Some (bearer_params !! param))))
                      required_params in
        match missing_params with
        | _ :: _ =>
            Err (invalid_argument ("Missing required auth param(s): " ++ join ", " missing_params))
        | [] =>
            Ok {| Realm := default EmptyString (bearer_params !! "realm");
                  Service := default EmptyString (bearer_params !! "service");
                  Scope := default EmptyString (bearer_params !! "scope") |}
        end
    end.

(** Modelled from the spec: [BearerAuth::uri()] is declared in docker.h, which
    is not among the sources; the token endpoint is
    [realm?service=...&scope=...]. *)
Definition BearerAuth_uri (b : BearerAuth) : string :=
  Realm b ++ "?service=" ++ Service b ++ "&scope=" ++ Scope b.

(** ** [RegistryClient] (docker.cc, lines 74-82, 151-212, 317-366) *)

Record RegistryClient : Type := mkRegistryClient {
  auth_creds_endpoint_ : string;
  ota_lite_client_ : HttpInterface;
  http_client_factory_ : list string -> HttpInterface
}.

Definition ManifestEndpoint : string := "/manifests/".
Definition BlobEndpoint : string := "/blobs/".
Definition SupportedRegistryVersion : string := "/v2/".

(** Modelled from the spec: [composeManifestUrl] and [composeBlobUrl] are
    defined in docker.h, which is not among the sources;
    [GET <base>/v2/<repo>/manifests/<digest>] and
    [GET <base>/v2/<repo>/blobs/<digest>], the base being the registry host. *)
Definition composeManifestUrl (uri : Uri) : string :=
  "https://" ++ registryHostname uri ++ SupportedRegistryVersion ++ repo uri
    ++ ManifestEndpoint ++ digest_ (digest uri).

Definition composeBlobUrl (uri : Uri) : string :=
  "https://" ++ registryHostname uri ++ SupportedRegistryVersion ++ repo uri
    ++ BlobEndpoint ++ digest_ (digest uri).

(** The two's-complement reading of an [int64_t] as [std::size_t]. *)
Definition size_t_of (z : Z) : Z := (z mod 2 ^ 64)%Z.

(** What [getAppManifest] does with the response it ends up with. *)
Definition manifest_check (L : Libs) (uri : Uri) (manifest_size : option Z) (manifest_resp : HttpResponse)
  : result string :=
  if negb (isOk L manifest_resp)
  then Err (runtime_error "Failed to download App manifest")
  else
    let body_size := Z.of_nat (String.length (body manifest_resp)) in
    match manifest_size with
    | Some size =>
        if negb (body_size =? size_t_of size)%Z
        then Err (runtime_error "Size of received App manifest doesn't match the expected one")
        else if negb (String.eqb (Str.to_lower (hex (sha256digest L (body manifest_resp))))
                                 (hash_ (digest uri)))
             then Err (runtime_error
                         ("Hash of received App manifest and the hash specified in Target do not match: "
                            ++ Str.to_lower (hex (sha256digest L (body manifest_resp))) ++ " != "
                            ++ hash_ (digest uri)))
             else Ok (body manifest_resp)
    | None =>
        if (size_t_of (DefManifestMaxSize L) <? body_size)%Z
        then Err (runtime_error "Size of received App manifest exceeds the maximum allowed")
        else if negb (String.eqb (Str.to_lower (hex (sha256digest L (body manifest_resp))))
                                 (hash_ (digest uri)))
             then Err (runtime_error
                         ("Hash of received App manifest and the hash specified in Target do not match: "
                            ++ Str.to_lower (hex (sha256digest L (body manifest_resp))) ++ " != "
                            ++ hash_ (digest uri)))
             else Ok (body manifest_resp)
    end.

Section Registry.
Variable L : Libs.
Variable c : RegistryClient.

Definition getBasicAuthHeader : M string :=
  fun w =>
    let creds_resp := get (ota_lite_client_ c) w (auth_creds_endpoint_ c) (AuthMaterialMaxSize L) in
    (do record_call (DaemonGet (auth_creds_endpoint_ c) (AuthMaterialMaxSize L)) then
     if negb (isOk L creds_resp)
     then throw (runtime_error ("Failed to get Docker Registry credentials from "
                                  ++ auth_creds_endpoint_ c))
     else
       let username := json_member L (body creds_resp) "Username" in
       let secret := json_member L (body creds_resp) "Secret" in
       if String.eqb username EmptyString || String.eqb secret EmptyString
       then throw (runtime_error ("Got invalid Docker Registry credentials: " ++ body creds_resp))
       else
         let auth_secret_str := username ++ ":" ++ secret in
         ret ("authorization: basic " ++ toBase64 L auth_secret_str)) w.

Definition getBearerAuthHeader (bearer : BearerAuth) : M string :=
  let* basic := getBasicAuthHeader in
  let auth_header := [basic] in
  fun w =>
    let token_resp :=
      get (http_client_factory_ c auth_header) w (BearerAuth_uri bearer) (AuthMaterialMaxSize L) in
    (do record_call (FactoryGet auth_header (BearerAuth_uri bearer) (AuthMaterialMaxSize L)) then
     if negb (isOk L token_resp)
     then throw (runtime_error ("Failed to get Auth Token at Docker Registry " ++ Realm bearer))
     else
       let token := json_member L (body token_resp) "token" in
       if String.eqb token EmptyString
       then throw (runtime_error ("Got invalid token from Docker Registry: " ++ body token_resp))
       else ret ("authorization: bearer " ++ token)) w.

Definition getAppManifest (uri : Uri) (format : string) (manifest_size : option Z) : M string :=
  let manifest_url := composeManifestUrl uri in
  let manifest_max_size := default (DefManifestMaxSize L) manifest_size in
  let doGetManifestRequest (registry_repo_request_headers : list string) : M HttpResponse :=
    fun w =>
      let resp := get (http_client_factory_ c registry_repo_request_headers) w
                      manifest_url manifest_max_size in
      (do record_call (FactoryGet registry_repo_request_headers manifest_url manifest_max_size) then
       ret resp) w in
  let registry_repo_request_headers := ["accept:" ++ format] in
  let* first_resp := doGetManifestRequest registry_repo_request_headers in
  let* manifest_resp :=
    (if (http_status_code first_resp =? 401)%Z
     then
       match headers first_resp !! BearerAuth_Header with
       | None => throw (runtime_error ("No " ++ backquoted BearerAuth_Header
                                         ++ " header found in the 401 response"))
       | Some auth_header_value =>
           let* bearer := lift (BearerAuth_of auth_header_value) in
           let* auth_header := getBearerAuthHeader bearer in
           doGetManifestRequest (registry_repo_request_headers ++ [auth_header])%list
       end
     else ret first_resp) in
  if negb (isOk L manifest_resp)
  then throw (runtime_error "Failed to download App manifest")
  else
    let body_size := Z.of_nat (String.length (body manifest_resp)) in
    if match manifest_size with
       | Some size => negb (body_size =? size_t_of size)%Z
       | None => (size_t_of manifest_max_size <? body_size)%Z
       end
    then throw (runtime_error
                  match manifest_size with
                  | Some _ => "Size of received App manifest doesn't match the expected one"
                  | None => "Size of received App manifest exceeds the maximum allowed"
                  end)
    else
      let received_manifest_hash := Str.to_lower (hex (sha256digest L (body manifest_resp))) in
      if negb (String.eqb received_manifest_hash (hash_ (digest uri)))
      then throw (runtime_error
                    ("Hash of received App manifest and the hash specified in Target do not match: "
                       ++ received_manifest_hash ++ " != " ++ hash_ (digest uri)))
      else ret (body manifest_resp).

End Registry.

(** ** The output stream behind [DownloadCtx]

    [std::ostream] as the download context uses it.  [write] either puts all
    the bytes ([sputn] returns the count) or sets [badbit]; once the stream
    has failed, [write] and [seekp] do nothing and [tellp] answers
    [pos_type(-1)].  The device accepts [os_room] more bytes and fails the
    [write] that asks for more. *)

Record ostream : Type := mkOstream {
  os_data : string;     (* the bytes of the file *)
  os_pos : nat;         (* the put position *)
  os_failed : bool;     (* failbit or badbit *)
  os_room : nat
}.

Definition good (o : ostream) : bool := negb (os_failed o).

Definition tellp (o : ostream) : Z :=
  if os_failed o then (-1)%Z else Z.of_nat (os_pos o).

Definition overwrite (s : string) (pos : nat) (d : string) : string :=
  Str.take pos s ++ d ++ Str.drop (pos + String.length d) s.

Definition os_write (o : ostream) (data : string) : ostream :=
  if os_failed o then o
  else if String.length data <=? os_room o
       then mkOstream (overwrite (os_data o) (os_pos o) data)
                      (os_pos o + String.length data) false
                      (os_room o - String.length data)
       else mkOstream (overwrite (os_data o) (os_pos o) (Str.take (os_room o) data))
                      (os_pos o + os_room o) true 0.

(** [seekp(std::ios_base::beg)]: the argument converts to position 0. *)
Definition seekp_beg (o : ostream) : ostream :=
  if os_failed o then o else mkOstream (os_data o) 0 false (os_room o).

(** ** [DownloadCtx] (docker.cc, lines 214-260) *)

Record DownloadCtx : Type := mkDownloadCtx {
  out_stream : ostream;
  hasher : string;          (* the bytes fed to the [MultiPartHasher] so far *)
  expected_size : Z;
  written_size : Z;
  received_size : Z
}.

Definition DownloadCtx_of (out : ostream) (expected_size_in : Z) : DownloadCtx :=
  mkDownloadCtx out EmptyString expected_size_in 0 0.

Definition DownloadCtx_write (ctx : DownloadCtx) (data : string) : Z * DownloadCtx :=
  let size := Z.of_nat (String.length data) in
  let received := size_t_of (written_size ctx + size) in
  let ctx1 := mkDownloadCtx (out_stream ctx) (hasher ctx) (expected_size ctx)
                            (written_size ctx) received in
  if (expected_size ctx <? received)%Z then (size_t_of (size + 1), ctx1)
  else if negb (good (out_stream ctx)) then (size_t_of (size + 1), ctx1)
  else
    let start_pos := tellp (out_stream ctx) in
    let out' := os_write (out_stream ctx) data in
    let end_pos := tellp out' in
    (size_t_of (end_pos - start_pos),
     mkDownloadCtx out' (hasher ctx ++ data) (expected_size ctx)
                   (size_t_of (written_size ctx + (end_pos - start_pos))) received).

Definition DownloadCtx_reset (ctx : DownloadCtx) : DownloadCtx :=
  mkDownloadCtx (seekp_beg (out_stream ctx)) EmptyString (expected_size ctx) 0 0.

(** [DownloadHandler(data, buf_size, buf_numb, user_ctx)]: the chunk [data]
    holds [buf_size * buf_numb] bytes. *)
Definition DownloadHandler (user_ctx : DownloadCtx) (data : string) : Z * DownloadCtx :=
  DownloadCtx_write user_ctx data.

(** The callback over the chunks of a transfer, one after the other. *)
Definition feed_chunks (ctx : DownloadCtx) (chunks : list string) : DownloadCtx :=
  fold_left (fun user_ctx data => snd (DownloadHandler user_ctx data)) chunks ctx.

(** The sink holds the bytes that were hashed: the state of a download
    context that started empty on a device with room for what is expected. *)
Definition in_step (ctx : DownloadCtx) : Prop :=
  good (out_stream ctx) = true
  /\ os_data (out_stream ctx) = hasher ctx
  /\ os_pos (out_stream ctx) = String.length (hasher ctx)
  /\ written_size ctx = Z.of_nat (String.length (hasher ctx))
  /\ (written_size ctx <= expected_size ctx)%Z
  /\ (expected_size ctx - written_size ctx <= Z.of_nat (os_room (out_stream ctx)))%Z.

(** [MultiPartSHA256Hasher::getHexDigest]. *)
Definition getHexDigest (L : Libs) (fed : string) : string := hex (sha256digest L fed).

(** ** [RegistryClient::downloadBlob] (docker.cc, lines 262-315) *)

Definition with_file (f : FileSystem) (path content : string) : FileSystem :=
  mkFileSystem (<[path := content]> (files f)) (writable f) (free_space f).

(** [std::remove]. *)
Definition remove_file (path : string) : M unit :=
  fun w => (Ok tt, mkWorld (log w)
                           (mkFileSystem (delete path (files (fs w))) (writable (fs w))
                                         (free_space (fs w)))).

Section Blob.
Variable L : Libs.
Variable c : RegistryClient.

Definition downloadBlob (uri : Uri) (filepath : string) (expected_size : Z) : M unit :=
  let compose_app_blob_url := composeBlobUrl uri in
  fun w0 =>
    if negb (writable (fs w0) filepath)
    then (Err (runtime_error ("Failed to open a file: " ++ filepath)), w0)
    else
      (* opening the [std::ofstream] creates the file, or empties it *)
      let opened := mkWorld (log w0) (with_file (fs w0) filepath EmptyString) in
      let download_ctx :=
        DownloadCtx_of (mkOstream EmptyString 0 false (free_space (fs w0))) expected_size in
      (* the bytes the stream has accepted are the bytes of the file *)
      let doDownloadBlobRequest (registry_repo_request_headers : list string)
                                (ctx : DownloadCtx) : M (HttpResponse * DownloadCtx) :=
        fun w =>
          let answer :=
            download (http_client_factory_ c registry_repo_request_headers) DownloadCtx w
                     compose_app_blob_url DownloadHandler ctx in
          (Ok answer,
           mkWorld (log w ++ [FactoryDownload registry_repo_request_headers compose_app_blob_url])%list
                   (with_file (fs w) filepath (os_data (out_stream (snd answer))))) in
      (let* first := doDownloadBlobRequest [] download_ctx in
       let* last :=
         (if (http_status_code (fst first) =? 401)%Z
          then
            match headers (fst first) !! BearerAuth_Header with
            | None => throw (runtime_error ("No " ++ backquoted BearerAuth_Header
                                              ++ " header found in the 401 response"))
            | Some auth_header_value =>
                let* bearer := lift (BearerAuth_of auth_header_value) in
                let* auth_header := getBearerAuthHeader L c bearer in
                doDownloadBlobRequest [auth_header] (DownloadCtx_reset (snd first))
            end
          else ret first) in
       let get_blob_resp := fst last in
       let ctx := snd last in
       if negb (isOk L get_blob_resp)
       then throw (runtime_error "Failed to download App blob")
       else
         let recv_blob_file_size := written_size ctx in
         if negb (recv_blob_file_size =? expected_size)%Z
         then do remove_file filepath then
              throw (runtime_error "Size of downloaded App blob does not equal to the expected one")
         else
           let recv_blob_hash := Str.to_lower (getHexDigest L (hasher ctx)) in
           if negb (String.eqb recv_blob_hash (hash_ (digest uri)))
           then do remove_file filepath then
                throw (runtime_error
                         ("Hash of downloaded App blob does not equal to the expected one: "
                            ++ recv_blob_hash ++ " != " ++ hash_ (digest uri)))
           else ret tt) opened.

End Blob.

End Docker.

(** ** [strverscmp(3)] of the C library

    [getTarget] orders the targets with [strverscmp], which the repository
    calls and does not define; the selector below takes the comparison as a
    parameter, and this transcription of the C library's state machine is the
    instance it is run with on concrete target lists. *)

Module Glibc.

Local Open Scope Z_scope.

Definition S_N : Z := 0.
Definition S_I : Z := 3.
Definition S_F : Z := 6.
Definition S_Z : Z := 9.
Definition CMP : Z := 2.
Definition LEN : Z := 3.

Definition next_state : list Z :=
  [ S_N; S_I; S_Z;
    S_N; S_I; S_I;
    S_N; S_F; S_F;
    S_N; S_F; S_Z ].

Definition result_type : list Z :=
  [ CMP; CMP; CMP; CMP; LEN; CMP; CMP; CMP; CMP;
    CMP; -1;  -1;  1;   LEN; LEN; 1;   LEN; LEN;
    CMP; CMP; CMP; CMP; CMP; CMP; CMP; CMP; CMP;
    CMP; 1;   1;   -1;  CMP; CMP; -1;  CMP; CMP ].

Definition peek (s : string) : Z :=
  match s with
  | EmptyString => 0
  | String c _ => Z.of_nat (nat_of_ascii c)
  end.

Definition advance (s : string) : string :=
  match s with
  | EmptyString => EmptyString
  | String _ r => r
  end.

Definition isdigit (c : Z) : bool := (48 <=? c) && (c <=? 57).

(** [(c == '0') + (isdigit (c) != 0)]. *)
Definition class (c : Z) : Z :=
  (if c =? 48 then 1 else 0) + (if isdigit c then 1 else 0).

(** The [LEN] case: compare the lengths of the two digit runs. *)
Fixpoint len_cmp (diff : Z) (p1 p2 : string) : Z :=
  match p1 with
  | String a r1 =>
      if isdigit (Z.of_nat (nat_of_ascii a))
      then if isdigit (peek p2) then len_cmp diff r1 (advance p2) else 1
      else if isdigit (peek p2) then -1 else diff
  | EmptyString => if isdigit (peek p2) then -1 else diff
  end.

Fixpoint scan (state : Z) (s1 s2 : string) : Z :=
  let c1 := peek s1 in
  let c2 := peek s2 in
  let state := state + class c1 in
  let diff := c1 - c2 in
  if negb (diff =? 0)
  then
    let t := nth (Z.to_nat (state * 3 + class c2)) result_type CMP in
    if t =? CMP then diff
    else if t =? LEN then len_cmp diff (advance s1) (advance s2)
    else t
  else
    match s1 with
    | EmptyString => diff
    | String _ r1 => scan (nth (Z.to_nat state) next_state S_N) r1 (advance s2)
    end.

Definition strverscmp (s1 s2 : string) : Z := scan S_N s1 s2.

End Glibc.

Module offline.

Import Docker.

(** ** The transports of the offline client (client.cc, lines 47-133) *)

Definition not_implemented : HttpResponse := HttpResponse_of EmptyString 501 CURLE_OK EmptyString.

(** [BaseHttpClient]: [download] answers 501; [get] is left to the derived
    classes. *)
Definition BaseHttpClient_download (C : Type) (w : World) (url : string)
    (write_cb : C -> string -> Z * C) (userp : C) : HttpResponse * C :=
  (not_implemented, userp).

Definition json_pair (k v : string) : string := quoted k ++ ":" ++ quoted v.

Definition RegistryBasicAuthClient : HttpInterface :=
  mkHttpInterface
    (fun _ _ _ =>
       HttpResponse_of ("{" ++ json_pair "Secret" "secret" ++ "," ++ json_pair "Username" "test-user" ++ "}")
                       200 CURLE_OK EmptyString)
    BaseHttpClient_download.

(** [boost::filesystem::path::operator/]. *)
Definition path_join (a b : string) : string := a ++ "/" ++ b.
Infix "//" := path_join (at level 40, left associativity).

(** [Utils::readFile]: the content, empty when the file cannot be read. *)
Definition readFile (f : FileSystem) (path : string) : string :=
  default EmptyString (files f !! path).

Fixpoint chunks_of (rounds size : nat) (s : string) : list string :=
  match rounds, s with
  | S rounds', String _ _ => Str.take size s :: chunks_of rounds' size (Str.drop size s)
  | _, _ => []
  end.

Record OfflineRegistry : Type := mkOfflineRegistry {
  root_dir_ : string;
  hostname_ : string
}.

Definition auth_endpoint_ (r : OfflineRegistry) : string := "https://" ++ hostname_ r ++ "/token-auth".
Definition apps_dir_ (r : OfflineRegistry) : string := root_dir_ r // "apps".
Definition blobs_dir_ (r : OfflineRegistry) : string := root_dir_ r // "blobs" // "sha256".
Definition blobsDir (r : OfflineRegistry) : string := root_dir_ r // "blobs".

Definition hash_prefix : string := "sha256:".

Definition getAppItem (r : OfflineRegistry) (w : World) (url : string) : HttpResponse :=
  match Str.rfind_str hash_prefix url with
  | None => HttpResponse_of "Invalid URL" 400 CURLE_OK EmptyString
  | Some digest_pos =>
      let hash_pos := digest_pos + String.length hash_prefix in
      let hash := Str.substr_from url hash_pos in
      HttpResponse_of (readFile (fs w) (blobs_dir_ r // hash)) 200 CURLE_OK EmptyString
  end.

Definition OfflineRegistry_get (r : OfflineRegistry) (w : World) (url : string) (maxsize : Z)
  : HttpResponse :=
  if Str.starts_with url (auth_endpoint_ r)
  then HttpResponse_of ("{" ++ json_pair "token" "token" ++ "}") 200 CURLE_OK EmptyString
  else getAppItem r w url.

(** The blob is handed to the write callback in chunks of 4 KiB; what the
    callback answers is not looked at. *)
Definition OfflineRegistry_download (r : OfflineRegistry) (C : Type) (w : World) (url : string)
    (write_cb : C -> string -> Z * C) (userp : C) : HttpResponse * C :=
  match Str.rfind_str hash_prefix url with
  | None => (HttpResponse_of "Invalid URL" 400 CURLE_OK EmptyString, userp)
  | Some digest_pos =>
      let hash_pos := digest_pos + String.length hash_prefix in
      let hash := Str.substr_from url hash_pos in
      let blob := readFile (fs w) (blobs_dir_ r // hash) in
      (HttpResponse_of EmptyString 200 CURLE_OK EmptyString,
       fold_left (fun ctx buf => snd (write_cb ctx buf))
                 (chunks_of (String.length blob) (1024 * 4) blob) userp)
  end.

Definition OfflineRegistry_http (r : OfflineRegistry) : HttpInterface :=
  mkHttpInterface (OfflineRegistry_get r) (OfflineRegistry_download r).

(** The registry client [createOfflineClient] builds (client.cc, lines
    145-151): credentials from [RegistryBasicAuthClient], every request
    served by the one [OfflineRegistry]. *)
Definition offline_registry_client (apps_dir : string) : RegistryClient :=
  mkRegistryClient EmptyString RegistryBasicAuthClient
                   (fun _ => OfflineRegistry_http (mkOfflineRegistry apps_dir "hub.foundries.io")).

(** ** Targets *)

(** Modelled from the spec: [Uptane::Target] and [Target::Apps] are declared
    outside the sources; a target has a [filename], a [sha256] (the OSTree
    commit), [hardware_ids], a [custom_version] and
    [custom.docker_compose_apps : { name -> { uri } }].  The apps are the
    members of a JSON object in the order [Target::Apps] walks them, each a
    pair of the app's name and its uri. *)
Record Target : Type := mkTarget {
  filename : string;
  sha256Hash : string;
  hardwareIds : list string;
  custom_version : string;
  apps : list (string * string);
  IsValid : bool
}.

Definition app_name (a : string * string) : string := fst a.
Definition app_uri (a : string * string) : string := snd a.

(** [Uptane::Target::Unknown()]. *)
Definition Unknown : Target := mkTarget "unknown" EmptyString [] EmptyString [] false.

(** [Json::Value::removeMember]. *)
Definition removeMember (name : string) (members : list (string * string)) : list (string * string) :=
  List.filter (fun m => negb (String.eqb (app_name m) name)) members.

(** [updateCustom] with the apps replaced. *)
Definition with_apps (t : Target) (shortlisted : list (string * string)) : Target :=
  mkTarget (filename t) (sha256Hash t) (hardwareIds t) (custom_version t) shortlisted (IsValid t).

(** ** [std::set] with a comparison object

    The elements in ascending order of the comparison; [insert] walks to the
    first element that does not order before the new one and puts the new one
    in front of it unless the two are equivalent. *)
Section StdSet.
Context {A : Type}.
Variable comp : A -> A -> bool.

Fixpoint set_insert (x : A) (s : list A) : list A :=
  match s with
  | [] => [x]
  | y :: r =>
      if comp y x then y :: set_insert x r
      else if comp x y then x :: y :: r
      else y :: r
  end.

Definition equiv (a b : A) : bool := negb (comp a b) && negb (comp b a).

(** The loop that fills a set with the elements of [l] that [keep] lets in. *)
Definition insert_all (keep : A -> bool) (l : list A) : list A :=
  fold_left (fun s x => if keep x then set_insert x s else s) l [].

(** The first element of [l], among those [keep] lets in, equivalent to [t]. *)
Definition first_equiv (keep : A -> bool) (t : A) (l : list A) : option A :=
  List.find (fun u => keep u && equiv u t) l.

(** The comparison is a strict weak ordering on the elements of [l]. *)
Definition strict_weak_on (l : list A) : bool :=
  forallb (fun a => negb (comp a a)) l &&
  forallb (fun a => forallb (fun b => forallb (fun c =>
    implb (comp a b && comp b c) (comp a c) &&
    implb (equiv a b && equiv b c) (equiv a c)) l) l) l.

End StdSet.

(** ** The update medium *)

Record UpdateSrc : Type := mkUpdateSrc {
  TargetName : string;
  (* [OSTree::Repo::getRefs] of [OstreeRepoDir], in the order they are walked *)
  ostree_refs : list (string * string);
  (* [AppsDir / "apps"]: per app directory, the content of the [uri] file of
     each of its version directories *)
  apps_tree : list (string * list (string * string))
}.

(** [parseUpdateContent] (client.cc, lines 189-213). *)
Definition parseUpdateContent (src : UpdateSrc) : list string * list string :=
  let found_ostree_commits := map snd (ostree_refs src) in
  let found_apps :=
    concat (map (fun app_dir_entry => map snd (snd app_dir_entry)) (apps_tree src)) in
  (found_ostree_commits, found_apps).

(** ** [getTarget] (client.cc, lines 178-187, 215-285) *)

Definition getSpecificTarget (allTargets : list Target) (target_name : string) : Target :=
  match List.find (fun target => String.eqb target_name (filename target)) allTargets with
  | Some t => t
  | None => Unknown
  end.

Definition contains (l : list string) (x : string) : bool := existsb (String.eqb x) l.

(** [std::list::remove]. *)
Definition list_remove (x : string) (l : list string) : list string :=
  List.filter (fun y => negb (String.eqb y x)) l.

(** The loop over [Target::Apps(t)] (lines 261-273). *)
Fixpoint match_apps (found_apps : list string) (target_apps : list (string * string))
    (found_but_not_target_apps : list string) (shortlisted_target_apps : list (string * string))
  : list string * list (string * string) :=
  match target_apps with
  | [] => (found_but_not_target_apps, shortlisted_target_apps)
  | app :: rest =>
      match found_but_not_target_apps with
      | [] => (found_but_not_target_apps, shortlisted_target_apps)
      | _ :: _ =>
          if negb (contains found_apps (app_uri app))
          then match_apps found_apps rest found_but_not_target_apps
                          (removeMember (app_name app) shortlisted_target_apps)
          else match_apps found_apps rest (list_remove (app_uri app) found_but_not_target_apps)
                          shortlisted_target_apps
      end
  end.

(** The loop over [available_targets] (lines 249-282). *)
Fixpoint find_target (found_ostree_commits found_apps : list string) (available : list Target)
  : Target :=
  match available with
  | [] => Unknown
  | t :: rest =>
      if negb (contains found_ostree_commits (sha256Hash t))
      then find_target found_ostree_commits found_apps rest
      else
        match match_apps found_apps (apps t) found_apps (apps t) with
        | ([], shortlisted_target_apps) => with_apps t shortlisted_target_apps
        | (_ :: _, _) => find_target found_ostree_commits found_apps rest
        end
  end.

(** The bundle satisfies a target: the target's commit is among the commits
    found, and every app uri found is the uri of one of the target's apps. *)
Definition satisfies (found_ostree_commits found_apps : list string) (t : Target) : bool :=
  contains found_ostree_commits (sha256Hash t)
  && forallb (contains (map app_uri (apps t))) found_apps.

Section Selector.
Variable strverscmp : string -> string -> Z.

Definition target_sort (t1 t2 : Target) : bool :=
  (0 <? strverscmp (custom_version t1) (custom_version t2))%Z.

(** A target with one hardware id, the device's. *)
Definition eligible (hw_id : string) (target : Target) : bool :=
  match hardwareIds target with
  | [hwid] => String.eqb hw_id hwid
  | _ => false
  end.

(** The first loop (lines 226-240). *)
Definition available_targets (hw_id : string) (allTargets : list Target) : list Target :=
  insert_all target_sort (eligible hw_id) allTargets.

Definition getTarget (hw_id : string) (allTargets : list Target) (src : UpdateSrc) : Target :=
  if negb (String.eqb (TargetName src) EmptyString)
  then getSpecificTarget allTargets (TargetName src)
  else
    let available := available_targets hw_id allTargets in
    let found := parseUpdateContent src in
    find_target (fst found) (snd found) available.

End Selector.

(** ** [registerApps] (client.cc, lines 287-328) *)

(** The member ["Repositories"] of the repositories index:
    [repo -> reference -> config digest]. *)
Abbreviation Index := (gmap string (gmap string string)).

(** What [registerApps] reads from the app store, and the JSON library that
    reads and writes the index. *)
Record AppStore : Type := mkAppStore {
  exists_ : string -> bool;                        (* boost::filesystem::exists *)
  compose_images : string -> result (list string); (* ComposeInfo(file): getImage of each of getServices *)
  json_string_at : string -> list string -> string (* Utils::parseJSONFile(file)[..]...asString() *)
}.

Record JsonLib : Type := mkJsonLib {
  parseJSON : string -> Index;    (* Utils::parseJSON / Utils::parseJSONFile *)
  writeJSON : Index -> string     (* what Utils::writeFile(file, json) puts in the file *)
}.

(** Modelled from the spec: [RestorableAppEngine::ComposeFile] is declared
    outside the sources; the app directory holds a [docker-compose.yml]. *)
Definition ComposeFile : string := "docker-compose.yml".

(** [repositories["Repositories"][image_repo][image_uri_str] = digest]. *)
Definition register_image (image_repo image_uri_str digest : string) (repositories : Index) : Index :=
  <[image_repo := <[image_uri_str := digest]> (default ∅ (repositories !! image_repo))]> repositories.

Section Registrar.
Variable J : JsonLib.
Variable store : AppStore.
(* the default of [parseUri]'s second parameter, declared in docker.h *)
Variable factory_app_default : bool.
Variable apps_store_root : string.

(** The loop over the services of one app (lines 307-325). *)
Fixpoint register_services (app_dir : string) (images : list string) (repositories : Index)
  : result Index :=
  match images with
  | [] => Ok repositories
  | image_uri_str :: rest =>
      match parseUri image_uri_str false with
      | Err e => Err e
      | Ok image_uri =>
          let image_index_path :=
            app_dir // "images" // registryHostname image_uri // repo image_uri
                    // hash_ (digest image_uri) // "index.json" in
          match HashedDigest_of (json_string_at store image_index_path ["manifests"; "0"; "digest"]) with
          | Err e => Err e
          | Ok manifest_digest =>
              let image_manifest_path := apps_store_root // "blobs/sha256" // hash_ manifest_digest in
              match HashedDigest_of (json_string_at store image_manifest_path ["config"; "digest"]) with
              | Err e => Err e
              | Ok config_digest =>
                  let image_repo := registryHostname image_uri ++ "/" ++ repo image_uri in
                  register_services app_dir rest
                    (register_image image_repo image_uri_str (digest_ config_digest) repositories)
              end
          end
      end
  end.

(** The loop over [Target::Apps(target)] (lines 297-326). *)
Fixpoint register_apps (target_apps : list (string * string)) (repositories : Index)
  : result Index :=
  match target_apps with
  | [] => Ok repositories
  | app :: rest =>
      match parseUri (app_uri app) factory_app_default with
      | Err e => Err e
      | Ok uri =>
          let app_dir := apps_store_root // "apps" // Docker.app uri // hash_ (digest uri) in
          if negb (exists_ store app_dir) then register_apps rest repositories
          else
            match compose_images store (app_dir // ComposeFile) with
            | Err e => Err e
            | Ok images =>
                match register_services app_dir images repositories with
                | Err e => Err e
                | Ok repositories' => register_apps rest repositories'
                end
            end
      end
  end.

(** [registerApps]: the files before, the files after.  [docker_root /
    "/image/overlay2/repositories.json"] appends the second path as it is. *)
Definition registerApps (target : Target) (docker_root : string) (files : gmap string string)
  : result (gmap string string) :=
  let repositories_file := docker_root ++ "/image/overlay2/repositories.json" in
  let repositories :=
    match files !! repositories_file with
    | Some content => parseJSON J content
    | None => parseJSON J ("{" ++ quoted "Repositories" ++ ":{}}")
    end in
  match register_apps (apps target) repositories with
  | Err e => Err e
  | Ok repositories' => Ok (<[repositories_file := writeJSON J repositories']> files)
  end.

End Registrar.

(** The entries a run writes, in the order it writes them. *)
Definition write_entries (entries : list (string * string * string)) (repositories : Index) : Index :=
  fold_left (fun m e => register_image (fst (fst e)) (snd (fst e)) (snd e) m) entries repositories.

Section Entries.
Variable store : AppStore.
Variable factory_app_default : bool.
Variable apps_store_root : string.

(** The entries of the services of one app, and of all the apps of a target:
    what the loops of [registerApps] compute from the store alone. *)
Fixpoint service_entries (app_dir : string) (images : list string)
  : result (list (string * string * string)) :=
  match images with
  | [] => Ok []
  | image_uri_str :: rest =>
      match parseUri image_uri_str false with
      | Err e => Err e
      | Ok image_uri =>
          match HashedDigest_of
                  (json_string_at store
                     (app_dir // "images" // registryHostname image_uri // repo image_uri
                              // hash_ (digest image_uri) // "index.json")
                     ["manifests"; "0"; "digest"]) with
          | Err e => Err e
          | Ok manifest_digest =>
              match HashedDigest_of
                      (json_string_at store
                         (apps_store_root // "blobs/sha256" // hash_ manifest_digest)
                         ["config"; "digest"]) with
              | Err e => Err e
              | Ok config_digest =>
                  match service_entries app_dir rest with
                  | Err e => Err e
                  | Ok entries =>
                      Ok ((registryHostname image_uri ++ "/" ++ repo image_uri, image_uri_str,
                           digest_ config_digest) :: entries)
                  end
              end
          end
      end
  end.

Fixpoint app_entries (target_apps : list (string * string))
  : result (list (string * string * string)) :=
  match target_apps with
  | [] => Ok []
  | app :: rest =>
      match parseUri (app_uri app) factory_app_default with
      | Err e => Err e
      | Ok uri =>
          let app_dir := apps_store_root // "apps" // Docker.app uri // hash_ (digest uri) in
          if negb (exists_ store app_dir) then app_entries rest
          else
            match compose_images store (app_dir // ComposeFile) with
            | Err e => Err e
            | Ok images =>
                match service_entries app_dir images with
                | Err e => Err e
                | Ok entries =>
                    match app_entries rest with
                    | Err e => Err e
                    | Ok more => Ok (entries ++ more)%list
                    end
                end
            end
      end
  end.

End Entries.

(** ** [run] (client.cc, lines 364-395) *)

Inductive ResultCode : Type :=
| kOk | kAlreadyProcessed | kVerificationFailed | kInstallFailed | kDownloadFailed
| kNeedCompletion | kGeneralError | kUnknown.

(** The operations of [LiteClient] the driver calls; [C] is the state of the
    client and of the device behind it. *)
Module LiteClient.
Class Ops (C : Type) : Type := mkOps {
  allTargets : C -> list Target;
  primary_ecu_second : C -> string;
  checkImageMetaOffline : C -> bool * C;
  getCurrent : C -> Target;
  finalizeInstall : C -> bool * C;
  (* [DownloadResult]: its truth value and its description *)
  download : C -> Target -> string -> (bool * string) * C;
  install : C -> Target -> ResultCode * C;
  isTargetActive : C -> Target -> bool
}.
End LiteClient.

Section Driver.
Variable strverscmp : string -> string -> Z.
Context {C : Type} {ops : LiteClient.Ops C}.

(** The branch on the booted commit (lines 376-389). *)
Definition run_apply (client : C) (target : Target) : result unit * C :=
  let current_target := LiteClient.getCurrent client in
  if negb (String.eqb (sha256Hash current_target) (sha256Hash target))
  then
    let fin := LiteClient.finalizeInstall client in
    if negb (fst fin) then (Err (runtime_error "Failed to run Target"), snd fin)
    else (Ok tt, snd fin)
  else
    let dl := LiteClient.download client target ("offline update of " ++ filename target) in
    let download_res := fst dl in
    if negb (fst download_res)
    then (Err (runtime_error ("Failed to download Target; err: " ++ snd download_res)), snd dl)
    else
      let inst := LiteClient.install (snd dl) target in
      (Ok tt, snd inst).

Definition run (client0 : C) (src : UpdateSrc) : result unit * C :=
  let chk := LiteClient.checkImageMetaOffline client0 in
  let client := snd chk in
  if negb (fst chk) then (Err (runtime_error "Invalid local TUF metadata"), client)
  else
    let target := getTarget strverscmp (LiteClient.primary_ecu_second client)
                            (LiteClient.allTargets client) src in
    if negb (IsValid target)
    then (Err (invalid_argument "Target to run has not been found"), client)
    else
      match run_apply client target with
      | (Err e, client') => (Err e, client')
      | (Ok _, client') =>
          if negb (LiteClient.isTargetActive client' target)
          then (Err (runtime_error ("The installed Target is not running: " ++ filename target)),
                client')
          else (Ok tt, client')
      end.

End Driver.

End offline.

(** ** Test doubles

    Concrete collaborators on which the definitions above are run: a JSON
    member reader for flat objects of strings, a checksum standing in for
    SHA-256, a registry that demands a bearer token, and a transport that
    stops, the way libcurl does, at the first chunk the write callback does
    not take in full. *)

Module Doubles.
Import Docker offline.

Definition flat_json_member (body key : string) : string :=
  let pat := quoted key ++ ":" ++ String dquote EmptyString in
  match Str.find_str pat body with
  | None => EmptyString
  | Some p =>
      let rest := Str.drop (p + String.length pat) body in
      match Str.find dquote rest with
      | Some q => Str.take q rest
      | None => EmptyString
      end
  end.

Fixpoint byte_sum (s : string) : nat :=
  match s with
  | EmptyString => 0
  | String c r => (nat_of_ascii c + byte_sum r) mod 256
  end.

(** 32 bytes, as a SHA-256 digest has. *)
Definition checksum_digest (s : string) : string :=
  Str.repeat (ascii_of_nat (byte_sum s)) 32.

(** [HttpResponse::isOk]: the transfer went through and the status is below 400. *)
Definition isOk_double (r : HttpResponse) : bool :=
  ((curl_code r =? CURLE_OK) && (200 <=? http_status_code r) && (http_status_code r <? 400))%Z.

Definition libs : Libs :=
  mkLibs checksum_digest isOk_double flat_json_member (fun s => s) (1024 * 1024)%Z 1024%Z.

(** The digest a blob is pinned by under [libs]. *)
Definition pinned (blob : string) : string :=
  "sha256:" ++ Str.to_lower (hex (checksum_digest blob)).

(** A registry that answers 401 with the given [www-authenticate] value
    until the request carries [authorization: bearer <token>], and whose
    token endpoint hands out [token]. *)
Definition challenge (scheme : string) : string :=
  scheme ++ " realm=" ++ quoted "https://x/t" ++ ",service=" ++ quoted "s"
         ++ ",scope=" ++ quoted "repository:r:pull".

Definition token_registry (www_authenticate token manifest : string)
    (request_headers : list string) : HttpInterface :=
  mkHttpInterface
    (fun _ url _ =>
       if Str.starts_with url "https://x/t"
       then HttpResponse_of ("{" ++ json_pair "token" token ++ "}") 200 CURLE_OK EmptyString
       else if contains request_headers ("authorization: bearer " ++ token)
            then HttpResponse_of manifest 200 CURLE_OK EmptyString
            else mkHttpResponse EmptyString 401 CURLE_OK EmptyString
                                {[ BearerAuth_Header := www_authenticate ]})
    BaseHttpClient_download.

Definition token_client (www_authenticate token manifest : string) : RegistryClient :=
  mkRegistryClient "https://creds" RegistryBasicAuthClient
                   (token_registry www_authenticate token manifest).

(** The transfer of [chunks], aborted with [CURLE_WRITE_ERROR] at the first
    chunk for which the callback answers anything but the chunk's size, and
    answered with [status] otherwise. *)
Definition CURLE_WRITE_ERROR : Z := 23%Z.

Fixpoint feed {C : Type} (write_cb : C -> string -> Z * C) (chunks : list string) (userp : C)
  : bool * C :=
  match chunks with
  | [] => (true, userp)
  | chunk :: rest =>
      let answer := write_cb userp chunk in
      if (fst answer =? Z.of_nat (String.length chunk))%Z
      then feed write_cb rest (snd answer)
      else (false, snd answer)
  end.

Definition streaming_download (chunks : list string) (status : Z) (C : Type) (w : World)
    (url : string) (write_cb : C -> string -> Z * C) (userp : C) : HttpResponse * C :=
  let fed := feed write_cb chunks userp in
  (if fst fed then HttpResponse_of EmptyString status CURLE_OK EmptyString
   else HttpResponse_of EmptyString status CURLE_WRITE_ERROR "Failed writing received data",
   snd fed).

Definition streaming_client (chunks : list string) (status : Z) : RegistryClient :=
  mkRegistryClient "https://creds" RegistryBasicAuthClient
                   (fun _ => mkHttpInterface (fun _ _ _ => not_implemented)
                                             (streaming_download chunks status)).

Definition empty_disk (room : nat) : World :=
  mkWorld [] (mkFileSystem ∅ (fun _ => true) room).

(** A manifest, the uri that pins it, and an update medium that holds it. *)
Definition manifest_blob : string := "{manifest}".

Definition manifest_uri : Uri :=
  mkUri (mkHashedDigest (pinned manifest_blob) (Str.drop 7 (pinned manifest_blob))
                        (Str.substr (Str.drop 7 (pinned manifest_blob)) 0 7))
        "app" "factory" "factory/app" "hub.foundries.io".

Definition medium : World :=
  mkWorld [] (mkFileSystem {[ "/src/blobs/sha256/" ++ Str.drop 7 (pinned manifest_blob) := manifest_blob ]}
                           (fun _ => true) 1000).

(** A client whose every transport is [RegistryBasicAuthClient], so that
    [download] is [BaseHttpClient]'s. *)
Definition unimplemented_client : RegistryClient :=
  mkRegistryClient EmptyString RegistryBasicAuthClient (fun _ => RegistryBasicAuthClient).

Definition h64 : string := Str.repeat "a" 64.

(** The offline selection scenario: the medium has the commit [C1] and the
    app [A]; the newer target has the apps [A] and [B]. *)
Definition uri_A : string := "hub.foundries.io/factory/A@sha256:" ++ Str.repeat "1" 64.
Definition uri_B : string := "hub.foundries.io/factory/B@sha256:" ++ Str.repeat "2" 64.

Definition T1 : Target := mkTarget "T1" "C0" ["hw"] "1" [("A", uri_A)] true.
Definition T2 : Target := mkTarget "T2" "C1" ["hw"] "2" [("A", uri_A); ("B", uri_B)] true.

Definition bundle : UpdateSrc :=
  mkUpdateSrc EmptyString [("heads/main", "C1")] [("A", [(Str.repeat "1" 64, uri_A)])].

(** An app store with the app [A] of [T2]: one service, its image index and
    its image manifest. *)
Definition image_uri : string := "h/r@sha256:" ++ Str.repeat "a" 64.
Definition app_A_dir : string := "/store" // "apps" // "A" // Str.repeat "1" 64.

Definition app_store : AppStore :=
  mkAppStore
    (String.eqb app_A_dir)
    (fun file => if String.eqb file (app_A_dir // ComposeFile) then Ok [image_uri]
                 else Err (runtime_error "no compose file"))
    (fun file member =>
       if String.eqb file (app_A_dir // "images" // "h" // "r" // Str.repeat "a" 64 // "index.json")
       then "sha256:" ++ Str.repeat "b" 64
       else if String.eqb file ("/store" // "blobs/sha256" // Str.repeat "b" 64)
            then "sha256:" ++ Str.repeat "c" 64
            else EmptyString).

(** A writer and a reader of the index that undo each other: the index is
    written as the binary digits of its code as a countable finite map. *)
Fixpoint write_bits (p : positive) : string :=
  match p with
  | xH => EmptyString
  | xO q => String "0" (write_bits q)
  | xI q => String "1" (write_bits q)
  end.

Fixpoint read_bits (s : string) : positive :=
  match s with
  | EmptyString => xH
  | String c r => if Ascii.eqb c "0" then xO (read_bits r) else xI (read_bits r)
  end.

Definition empty_index_text : string := "{" ++ quoted "Repositories" ++ ":{}}".

Definition json_lib : JsonLib :=
  mkJsonLib
    (fun text => if String.eqb text empty_index_text then ∅
                 else default ∅ (decode (read_bits text)))
    (fun index => write_bits (encode index)).

(** A device that has booted [T2], on which installing apps fails although
    the apps of the target run. *)
Record Device : Type := mkDevice {
  device_targets : list Target;
  booted : Target;
  apps_active : bool;
  install_calls : nat
}.

Definition failing_install : LiteClient.Ops Device :=
  LiteClient.mkOps Device
    device_targets
    (fun _ => "hw")
    (fun d => (true, d))
    booted
    (fun d => (true, d))
    (fun d _ _ => ((true, EmptyString), d))
    (fun d _ => (kInstallFailed,
                 mkDevice (device_targets d) (booted d) (apps_active d) (S (install_calls d))))
    (fun d _ => apps_active d).

(** Three targets for the device, the first two with the same version. *)
Definition V2a : Target := mkTarget "V2a" "C0" ["hw"] "2" [("A", uri_A)] true.
Definition V2b : Target := mkTarget "V2b" "C1" ["hw"] "2" [("A", uri_A)] true.
Definition V10 : Target := mkTarget "V10" "C2" ["hw"] "10" [("A", uri_A)] true.

Definition blob_uri : Uri :=
  mkUri (mkHashedDigest ("sha256:" ++ h64) h64 (Str.substr h64 0 7)) "app" "factory" "factory/app" "hub.foundries.io".

End Doubles.

(** ** [install] (client.cc, lines 330-362) *)

Module OfflineInstall.
Import Docker offline.

(** Modelled from the spec: [PostInstallAction] is declared in client.h, which
    is not among the sources; the exit action of [install] is
    [NeedReboot | NeedDockerRestart]. *)
Inductive PostInstallAction : Type := NeedReboot | NeedDockerRestart.

Section Install.
Variable strverscmp : string -> string -> Z.
Variable J : JsonLib.
(* the default of [parseUri]'s second parameter, declared in docker.h *)
Variable factory_app_default : bool.
(* [pacman_cfg.reset_apps_root] and [pacman_cfg.images_data_root] *)
Variable reset_apps_root : string.
Variable images_data_root : string.
Context {C : Type} {ops : LiteClient.Ops C}.
(* [LiteClient::updateImageMeta]: its outcome and its description *)
Variable updateImageMeta : C -> (bool * string) * C.
(* what [registerApps] finds in the app store in a state of the client *)
Variable app_store_of : C -> AppStore.

(** The state is the client's and the files under the docker root. *)
Definition install (client0 : C) (files : gmap string string) (src : UpdateSrc)
  : result PostInstallAction * (C * gmap string string) :=
  let rc := updateImageMeta client0 in
  let client := snd rc in
  if negb (fst (fst rc))
  then (Err (runtime_error ("Failed to pull TUF metadata: " ++ snd (fst rc))), (client, files))
  else
    let target := getTarget strverscmp (LiteClient.primary_ecu_second client)
                            (LiteClient.allTargets client) src in
    if negb (IsValid target)
    then (Err (invalid_argument "Target to install has not been found"), (client, files))
    else
      let dl := LiteClient.download client target ("offline update to " ++ filename target) in
      let download_res := fst dl in
      if negb (fst download_res)
      then (Err (runtime_error ("Failed to download Target; err: " ++ snd download_res)),
            (snd dl, files))
      else
        match registerApps J (app_store_of (snd dl)) factory_app_default reset_apps_root
                           target images_data_root files with
        | Err e => (Err e, (snd dl, files))
        | Ok files' =>
            if String.eqb (sha256Hash (LiteClient.getCurrent (snd dl))) (sha256Hash target)
            then (Ok NeedDockerRestart, (snd dl, files'))
            else
              let inst := LiteClient.install (snd dl) target in
              match fst inst with
              | kNeedCompletion => (Ok NeedReboot, (snd inst, files'))
              | _ => (Err (runtime_error "Failed to install Target"), (snd inst, files'))
              end
        end.

End Install.

End OfflineInstall.

(** ** Notions the properties below are stated with *)

Module Notions.
Import Docker offline.

(** A [www-authenticate] value with the three parameters. *)
Definition bearer_challenge (realm service scope : string) : string :=
  "bearer realm=" ++ quoted realm ++ ",service=" ++ quoted service ++ ",scope=" ++ quoted scope.

(** The two errors [downloadBlob] raises after it has removed the file. *)
Definition is_mismatch (e : exn) : bool :=
  match e with
  | runtime_error what =>
      Str.starts_with what "Size of downloaded App blob does not equal to the expected one"
      || Str.starts_with what "Hash of downloaded App blob does not equal to the expected one: "
  | invalid_argument _ => false
  end.

(** [repositories["Repositories"][image_repo][image_uri_str]], read. *)
Definition reference (repositories : Index) (image_repo image_uri_str : string) : option string :=
  match repositories !! image_repo with
  | Some references => references !! image_uri_str
  | None => None
  end.

(** The index [registerApps] starts from: the one of the repositories file,
    or the empty one when there is no such file. *)
Definition index_of (J : JsonLib) (docker_root : string) (files : gmap string string) : Index :=
  match files !! (docker_root ++ "/image/overlay2/repositories.json") with
  | Some content => parseJSON J content
  | None => parseJSON J ("{" ++ quoted "Repositories" ++ ":{}}")
  end.

End Notions.

(** ** More test doubles *)

Module MoreDoubles.
Import Docker offline Doubles OfflineInstall.

(** A device on which the OSTree install asks for a reboot. *)
Definition rebooting_install : LiteClient.Ops Device :=
  LiteClient.mkOps Device
    device_targets
    (fun _ => "hw")
    (fun d => (true, d))
    booted
    (fun d => (true, d))
    (fun d _ _ => ((true, EmptyString), d))
    (fun d _ => (kNeedCompletion,
                 mkDevice (device_targets d) (booted d) (apps_active d) (S (install_calls d))))
    (fun d _ => apps_active d).

Definition meta_pulled (d : Device) : (bool * string) * Device := ((true, EmptyString), d).

End MoreDoubles.

(** * Properties *)

(** ** Strings *)

Module StrFacts.
Import Str.

Lemma take_drop n s : take n s ++ drop n s = s.
Proof.
  revert s; induction n as [|n IH]; intros [|c r]; simpl; try reflexivity.
  now rewrite IH.
Qed.

Lemma length_app a b : String.length (a ++ b) = String.length a + String.length b.
Proof. induction a as [|c a IH]; simpl; [reflexivity | now rewrite IH]. Qed.

Lemma app_assoc a b c : (a ++ b) ++ c = a ++ (b ++ c).
Proof. induction a as [|x a IH]; simpl; [reflexivity | now rewrite IH]. Qed.

Lemma app_nil_r a : a ++ "" = a.
Proof. induction a as [|x a IH]; simpl; [reflexivity | now rewrite IH]. Qed.

Lemma take_app_length a b : take (String.length a) (a ++ b) = a.
Proof. induction a as [|x a IH]; simpl; [now destruct b | now rewrite IH]. Qed.

Lemma drop_app_length a b : drop (String.length a) (a ++ b) = b.
Proof. induction a as [|x a IH]; simpl; [now destruct b | exact IH]. Qed.

Lemma take_all s n : String.length s <= n -> take n s = s.
Proof.
  revert n; induction s as [|c s IH]; intros [|n] H; simpl in *; try reflexivity; try lia.
  rewrite IH; [reflexivity | lia].
Qed.

Lemma length_take n s : String.length (take n s) = Nat.min n (String.length s).
Proof.
  revert s; induction n as [|n IH]; intros [|c r]; simpl; try reflexivity.
  now rewrite IH.
Qed.

Lemma length_drop n s : String.length (drop n s) = String.length s - n.
Proof.
  revert s; induction n as [|n IH]; intros [|c r]; simpl; try reflexivity.
  apply IH.
Qed.

Lemma drop_drop n m s : drop n (drop m s) = drop (m + n) s.
Proof.
  revert s; induction m as [|m IH]; intros s; simpl; [reflexivity|].
  destruct s as [|c r]; [now destruct n | apply IH].
Qed.

Lemma length_to_lower s : String.length (to_lower s) = String.length s.
Proof. induction s as [|c s IH]; simpl; [reflexivity | now rewrite IH]. Qed.

Lemma to_lower_app a b : to_lower (a ++ b) = to_lower a ++ to_lower b.
Proof. induction a as [|x a IH]; simpl; [reflexivity | now rewrite IH]. Qed.

Lemma to_lower_take n s : to_lower (take n s) = take n (to_lower s).
Proof.
  revert s; induction n as [|n IH]; intros [|c r]; simpl; try reflexivity.
  now rewrite IH.
Qed.

Lemma to_lower_drop n s : to_lower (drop n s) = drop n (to_lower s).
Proof.
  revert s; induction n as [|n IH]; intros [|c r]; simpl; try reflexivity.
  apply IH.
Qed.

Lemma mem_app c a b : mem c (a ++ b) = mem c a || mem c b.
Proof.
  induction a as [|x a IH]; simpl; [reflexivity|].
  rewrite IH. now rewrite orb_assoc.
Qed.

Lemma count_app c a b : count c (a ++ b) = count c a + count c b.
Proof. induction a as [|x a IH]; simpl; [reflexivity | rewrite IH; lia]. Qed.

Lemma count_0_mem c s : mem c s = false <-> count c s = 0.
Proof.
  induction s as [|x s IH]; simpl; [tauto|].
  destruct (Ascii.eqb x c); simpl; [split; [discriminate | lia] | exact IH].
Qed.

(** [find] splits the string at the first occurrence. *)
Lemma find_Some c s n :
  find c s = Some n ->
  s = take n s ++ String c (drop (S n) s) /\ mem c (take n s) = false /\ n < String.length s.
Proof.
  revert n; induction s as [|x s IH]; intros n; simpl; [discriminate|].
  destruct (Ascii.eqb_spec x c) as [->|Hne].
  - intros [= <-]. simpl. split; [now destruct s | split; [reflexivity | lia]].
  - destruct (find c s) as [m|] eqn:E; simpl; [|discriminate].
    intros [= <-]. destruct (IH m eq_refl) as (H1 & H2 & H3).
    simpl. split; [|split].
    + f_equal. exact H1.
    + destruct (Ascii.eqb_spec x c); [contradiction | exact H2].
    + lia.
Qed.

Lemma find_None c s : find c s = None <-> mem c s = false.
Proof.
  induction s as [|x s IH]; simpl; [tauto|].
  destruct (Ascii.eqb x c); simpl; [split; discriminate|].
  destruct (find c s) as [m|]; simpl.
  - split; [discriminate|]. intros H. apply IH in H. discriminate.
  - split; intros _; [now apply IH | reflexivity].
Qed.

Lemma find_app c pre post :
  mem c pre = false -> find c (pre ++ String c post) = Some (String.length pre).
Proof.
  induction pre as [|x pre IH]; simpl; intros H.
  - now rewrite Ascii.eqb_refl.
  - apply orb_false_iff in H as [H1 H2]. rewrite H1, (IH H2). reflexivity.
Qed.

Lemma find_drop c s a k :
  find c s = Some a -> k <= a -> find c (drop k s) = Some (a - k).
Proof.
  revert a k; induction s as [|x s IH]; intros a k; simpl; [discriminate|].
  destruct k as [|k]; simpl.
  - intros H _. rewrite Nat.sub_0_r. exact H.
  - destruct (Ascii.eqb x c); [intros [= <-]; lia|].
    destruct (find c s) as [m|] eqn:E; simpl; [|discriminate].
    intros [= <-] Hk. apply (IH m k eq_refl). lia.
Qed.

Lemma mem_take_le c s n k : mem c (take n s) = false -> k <= n -> mem c (take k s) = false.
Proof.
  revert n k; induction s as [|x s IH]; intros n k H Hk.
  - now destruct k.
  - destruct k as [|k]; [reflexivity|].
    destruct n as [|n]; [lia|]. simpl in *.
    apply orb_false_iff in H as [H1 H2]. rewrite H1. simpl.
    apply (IH n); [exact H2 | lia].
Qed.

(** [rfind] splits the string at the last occurrence. *)
Lemma rfind_None c s : rfind c s = None <-> mem c s = false.
Proof.
  induction s as [|x s IH]; simpl; [tauto|].
  destruct (rfind c s) as [m|].
  - split; [discriminate|]. intros H. apply orb_false_iff in H as [_ H].
    apply IH in H. discriminate.
  - destruct (Ascii.eqb x c); simpl; [split; discriminate|].
    split; intros _; [now apply IH | reflexivity].
Qed.

Lemma rfind_app c pre post :
  mem c post = false -> rfind c (pre ++ String c post) = Some (String.length pre).
Proof.
  intros H. induction pre as [|x pre IH]; simpl.
  - apply rfind_None in H. rewrite H. now rewrite Ascii.eqb_refl.
  - now rewrite IH.
Qed.

Lemma rfind_Some c s n :
  rfind c s = Some n ->
  s = take n s ++ String c (drop (S n) s) /\ mem c (drop (S n) s) = false.
Proof.
  revert n; induction s as [|x s IH]; intros n; simpl; [discriminate|].
  destruct (rfind c s) as [m|] eqn:E.
  - intros [= <-]. destruct (IH m eq_refl) as (H1 & H2). simpl.
    split; [f_equal; exact H1 | exact H2].
  - destruct (Ascii.eqb_spec x c) as [->|Hne]; [|discriminate].
    intros [= <-]. simpl. split; [now destruct s|].
    apply rfind_None in E. now destruct s.
Qed.

End StrFacts.

(** ** [HashedDigest] *)

Module DigestFacts.
Import Str StrFacts Docker.

Lemma HashedDigest_of_unfold s :
  HashedDigest_of s =
    if negb (String.eqb "sha256:" (take 7 (to_lower s)))
    then Err (invalid_argument ("Unsupported hash type: " ++ s))
    else if negb (Nat.eqb 64 (String.length (drop 7 (to_lower s))))
         then Err (invalid_argument ("Invalid hash size: " ++ s))
         else Ok (mkHashedDigest (to_lower s) (drop 7 (to_lower s))
                                 (take 7 (drop 7 (to_lower s)))).
Proof. reflexivity. Qed.

Lemma HashedDigest_of_intro p h :
  to_lower p = "sha256:" -> String.length h = 64 ->
  HashedDigest_of (p ++ h) = Ok (digest_for h).
Proof.
  intros Hp Hh. rewrite HashedDigest_of_unfold, to_lower_app, Hp.
  change (take 7 ("sha256:" ++ to_lower h)) with "sha256:".
  change (drop 7 ("sha256:" ++ to_lower h)) with (to_lower h).
  rewrite length_to_lower, Hh. reflexivity.
Qed.

Lemma HashedDigest_of_elim s d :
  HashedDigest_of s = Ok d ->
  to_lower (take 7 s) = "sha256:" /\ String.length (drop 7 s) = 64 /\ d = digest_for (drop 7 s).
Proof.
  rewrite HashedDigest_of_unfold.
  destruct (String.eqb_spec "sha256:" (take 7 (to_lower s))) as [Hp|]; [|discriminate].
  destruct (Nat.eqb_spec 64 (String.length (drop 7 (to_lower s)))) as [Hl|]; [|discriminate].
  cbv beta iota delta [negb]. intros [= <-].
  split; [rewrite to_lower_take; now symmetry|].
  split; [rewrite <- (length_to_lower (drop 7 s)), to_lower_drop; now symmetry|].
  unfold digest_for. rewrite !to_lower_drop.
  f_equal. rewrite <- (take_drop 7 (to_lower s)) at 1. now rewrite <- Hp.
Qed.


(** C7 (as amended): the construction of a [HashedDigest] from [s] succeeds
    exactly when [s] is a prefix that lower-cases to [sha256:] followed by
    exactly 64 characters, of any kind; it then stores the lower-cased
    characters as the hash, their first 7 as the short hash and
    [sha256:<hash>] as the digest.  Every other input fails: with
    "Unsupported hash type" when the first 7 characters do not lower-case to
    the prefix, with "Invalid hash size" when they do and the rest is not 64
    characters long. *)
Theorem HashedDigest_construction (s : string) :
  (forall d, HashedDigest_of s = Ok d <->
             exists p h, s = p ++ h /\ to_lower p = "sha256:" /\ String.length h = 64
                         /\ d = digest_for h)
  /\ (to_lower (take 7 s) = "sha256:" \/
      HashedDigest_of s = Err (invalid_argument ("Unsupported hash type: " ++ s)))
  /\ (to_lower (take 7 s) <> "sha256:" \/ String.length (drop 7 s) = 64 \/
      HashedDigest_of s = Err (invalid_argument ("Invalid hash size: " ++ s))).
Proof.
  split; [|split].
  - intros d. split.
    + intros H. apply HashedDigest_of_elim in H as (Hp & Hl & ->).
      exists (take 7 s), (drop 7 s). now rewrite take_drop.
    + intros (p & h & -> & Hp & Hl & ->). now apply HashedDigest_of_intro.
  - rewrite HashedDigest_of_unfold, <- to_lower_take.
    destruct (String.eqb_spec "sha256:" (to_lower (take 7 s))) as [Hp|Hp].
    + now left.
    + now right.
  - rewrite HashedDigest_of_unfold, <- to_lower_take, <- to_lower_drop, length_to_lower.
    destruct (String.eqb_spec "sha256:" (to_lower (take 7 s))) as [Hp|Hp].
    + destruct (Nat.eqb_spec 64 (String.length (drop 7 s))) as [Hl|Hl].
      * right; left. now symmetry.
      * right; right. reflexivity.
    + left. congruence.
Qed.

(** C7 (as stated) fails: 64 characters that are not hexadecimal digits are
    accepted. *)
Lemma HashedDigest_accepts_non_hex :
  HashedDigest_of ("sha256:" ++ Str.repeat "z" 64)
    = Ok (digest_for (Str.repeat "z" 64))
  /\ Str.all is_hex (Str.repeat "z" 64) = false.
Proof. split; reflexivity. Qed.

End DigestFacts.

(** ** [Uri::parseUri] *)

Module UriFacts.
Import Str StrFacts Docker DigestFacts.

Lemma drop_succ_app a c b : drop (String.length a + 1) (a ++ String c b) = b.
Proof. rewrite <- drop_drop, drop_app_length. reflexivity. Qed.

Lemma split_repo_splits name : splits_repo name (fst (split_repo name)) (snd (split_repo name)).
Proof.
  unfold split_repo, splits_repo, substr. simpl.
  destruct (rfind "/" name) as [p|] eqn:E.
  - left. apply rfind_Some in E as [H1 H2].
    replace (p + 1) with (S p) by lia.
    rewrite (take_all (drop (S p) name)) by (rewrite length_drop; lia).
    split; [exact H1 | exact H2].
  - right. apply rfind_None in E. rewrite Nat.sub_0_r.
    split; [exact E | split; [reflexivity|]].
    apply take_all. simpl. lia.
Qed.

Lemma splits_repo_split name f ap : splits_repo name f ap -> split_repo name = (f, ap).
Proof.
  unfold split_repo, splits_repo, substr.
  intros [[-> H] | (H & -> & ->)].
  - simpl. rewrite (rfind_app "/" f ap H). simpl.
    rewrite take_app_length, drop_succ_app.
    rewrite take_all; [reflexivity|]. rewrite length_app. simpl. lia.
  - apply rfind_None in H. rewrite H. simpl. rewrite Nat.sub_0_r.
    rewrite take_all; [reflexivity | lia].
Qed.

(** The positions [parseUri] finds cut the input into host, name and digest. *)
Lemma parse_positions s a b :
  find "@" s = Some a -> find "/" s = Some b -> b + 1 < a ->
  s = take b s ++ "/" ++ take (a - b - 1) (drop (b + 1) s) ++ "@" ++ drop (a + 1) s
  /\ mem "/" (take b s) = false /\ mem "@" (take b s) = false
  /\ mem "@" (take (a - b - 1) (drop (b + 1) s)) = false
  /\ take (a - b - 1) (drop (b + 1) s) <> EmptyString.
Proof.
  intros Ea Eb Hab.
  destruct (find_Some _ _ _ Eb) as (Hs & Hb & _).
  destruct (find_Some _ _ _ Ea) as (_ & Ha & _).
  pose proof (find_drop _ _ _ (b + 1) Ea ltac:(lia)) as Ed.
  destruct (find_Some _ _ _ Ed) as (Hd & Hn & Hl).
  rewrite drop_drop in Hd.
  replace (b + 1 + S (a - (b + 1))) with (a + 1) in Hd by lia.
  replace (a - (b + 1)) with (a - b - 1) in * by lia.
  replace (S b) with (b + 1) in Hs by lia.
  split; [|split; [exact Hb | split; [|split; [exact Hn|]]]].
  - simpl. rewrite Hs at 1. f_equal. f_equal. exact Hd.
  - apply (mem_take_le _ _ a); [exact Ha | lia].
  - intros Hemp. apply (f_equal String.length) in Hemp.
    rewrite length_take in Hemp. simpl in Hemp. lia.
Qed.

(** On an input cut that way, [parseUri] is the factory check followed by
    the construction of the digest. *)
Lemma parseUri_eq host name dig fm :
  mem "/" host = false -> mem "@" host = false -> mem "@" name = false ->
  name <> EmptyString ->
  parseUri (host ++ "/" ++ name ++ "@" ++ dig) fm =
    if fm && (String.eqb (fst (split_repo name)) EmptyString
              || bool_decide (is_Some (find "/" (fst (split_repo name)))))
    then Err (factory_error (host ++ "/" ++ name ++ "@" ++ dig))
    else match HashedDigest_of dig with
         | Err e => Err e
         | Ok d => Ok (mkUri d (snd (split_repo name)) (fst (split_repo name)) name host)
         end.
Proof.
  intros Hh1 Hh2 Hn Hne.
  set (s := host ++ "/" ++ name ++ "@" ++ dig).
  assert (Eb : find "/" s = Some (String.length host)) by (apply find_app; exact Hh1).
  assert (Ea : find "@" s = Some (String.length host + 1 + String.length name)).
  { unfold s. change (host ++ "/" ++ name ++ "@" ++ dig)
      with (host ++ String "/" (name ++ String "@" dig)).
    replace (host ++ String "/" (name ++ String "@" dig))
      with ((host ++ String "/" name) ++ String "@" dig)
      by (rewrite app_assoc; reflexivity).
    rewrite find_app.
    - rewrite length_app. simpl. f_equal. lia.
    - rewrite mem_app. simpl. now rewrite Hh2, Hn. }
  assert (Hlen : 0 < String.length name) by (destruct name; [contradiction | simpl; lia]).
  unfold parseUri. rewrite Ea, Eb.
  destruct (Nat.leb_spec (String.length host + 1 + String.length name) (String.length host + 1))
    as [Hle|_]; [lia|].
  assert (Hhost : substr s 0 (String.length host) = host).
  { unfold substr. simpl. apply take_app_length. }
  assert (Hname : substr s (String.length host + 1)
                         (String.length host + 1 + String.length name - String.length host - 1)
                  = name).
  { unfold substr, s. change (host ++ "/" ++ name ++ "@" ++ dig)
      with (host ++ String "/" (name ++ String "@" dig)).
    rewrite drop_succ_app.
    replace (String.length host + 1 + String.length name - String.length host - 1)
      with (String.length name) by lia.
    apply take_app_length. }
  assert (Hdig : substr_from s (String.length host + 1 + String.length name + 1) = dig).
  { unfold substr_from, s. change (host ++ "/" ++ name ++ "@" ++ dig)
      with (host ++ String "/" (name ++ String "@" dig)).
    replace (String.length host + 1 + String.length name + 1)
      with ((String.length host + 1) + (String.length name + 1)) by lia.
    rewrite <- drop_drop, drop_succ_app. apply drop_succ_app. }
  cbv zeta. rewrite Hhost, Hname, Hdig. reflexivity.
Qed.


Lemma parseUri_decompose s fm u :
  parseUri s fm = Ok u ->
  exists host name dig,
    s = host ++ "/" ++ name ++ "@" ++ dig
    /\ mem "/" host = false /\ mem "@" host = false /\ mem "@" name = false
    /\ name <> EmptyString.
Proof.
  intros H. unfold parseUri in H.
  destruct (find "@" s) as [a|] eqn:Ea; [|discriminate].
  destruct (find "/" s) as [b|] eqn:Eb; [|discriminate].
  destruct (Nat.leb_spec a (b + 1)) as [|Hab]; [discriminate|].
  exists (take b s), (take (a - b - 1) (drop (b + 1) s)), (drop (a + 1) s).
  now apply parse_positions.
Qed.

Lemma factory_check_false fm f :
  (fm = true -> f <> EmptyString /\ mem "/" f = false) ->
  fm && (String.eqb f EmptyString || bool_decide (is_Some (find "/" f))) = false.
Proof.
  destruct fm; [|reflexivity]. intros H. destruct (H eq_refl) as [Hne Hm]. simpl.
  destruct (String.eqb_spec f EmptyString) as [|_]; [contradiction|].
  apply find_None in Hm. rewrite Hm. reflexivity.
Qed.

Lemma factory_check_true fm f :
  fm && (String.eqb f EmptyString || bool_decide (is_Some (find "/" f))) = false ->
  fm = true -> f <> EmptyString /\ mem "/" f = false.
Proof.
  intros H ->. simpl in H. apply orb_false_iff in H as [H1 H2]. split.
  - intros ->. discriminate.
  - apply find_None. destruct (find "/" f); [|reflexivity].
    rewrite bool_decide_eq_false in H2. exfalso. apply H2. eauto.
Qed.

(** C6 (as amended): [parseUri] splits the input at the first ['/'] (the
    prefix is the registry host) and at the first ['@'] (the suffix is the
    digest string, from which the digest is constructed); the name between
    them, which must not be empty, is the repository and is split at its last
    ['/'] into factory and app, or into an empty factory and the whole name;
    in factory mode the factory must be non-empty and free of ['/'].  The
    parse fails when the first ['@'] precedes or abuts the first ['/'], and
    in factory mode it fails unless the repository has exactly one ['/']. *)
Theorem parseUri_splits_first_slash_first_at (s : string) (fm : bool) :
  (forall u, parseUri s fm = Ok u <->
     exists host name dig,
       s = host ++ "/" ++ name ++ "@" ++ dig
       /\ mem "/" host = false /\ mem "@" host = false /\ mem "@" name = false
       /\ name <> EmptyString
       /\ registryHostname u = host /\ repo u = name
       /\ HashedDigest_of dig = Ok (digest u)
       /\ splits_repo name (factory u) (app u)
       /\ (fm = true -> factory u <> EmptyString /\ mem "/" (factory u) = false))
  /\ (forall a b, find "@" s = Some a -> find "/" s = Some b -> a <= b + 1 ->
                  is_ok (parseUri s fm) = false)
  /\ (forall u, fm = true -> parseUri s fm = Ok u -> count "/" (repo u) = 1).
Proof.
  assert (Hiff : forall fm' u, parseUri s fm' = Ok u <->
     exists host name dig,
       s = host ++ "/" ++ name ++ "@" ++ dig
       /\ mem "/" host = false /\ mem "@" host = false /\ mem "@" name = false
       /\ name <> EmptyString
       /\ registryHostname u = host /\ repo u = name
       /\ HashedDigest_of dig = Ok (digest u)
       /\ splits_repo name (factory u) (app u)
       /\ (fm' = true -> factory u <> EmptyString /\ mem "/" (factory u) = false)).
  { intros fm' u. split.
    - intros H. destruct (parseUri_decompose _ _ _ H) as (host & name & dig & Hs & H1 & H2 & H3 & H4).
      exists host, name, dig.
      pose proof (parseUri_eq host name dig fm' H1 H2 H3 H4) as Heq.
      rewrite <- Hs, H in Heq.
      destruct (fm' && _) eqn:Hf in Heq; [discriminate|].
      destruct (HashedDigest_of dig) as [d|e]; [|discriminate].
      injection Heq as ->. simpl.
      repeat (split; [assumption || reflexivity|]).
      split; [apply split_repo_splits | now apply factory_check_true].
    - intros (host & name & dig & -> & H1 & H2 & H3 & H4 & H5 & H6 & H7 & H8 & H9).
      rewrite (parseUri_eq host name dig fm' H1 H2 H3 H4).
      rewrite (splits_repo_split _ _ _ H8). simpl fst. simpl snd.
      rewrite (factory_check_false _ _ H9), H7.
      destruct u; simpl in *; subst; reflexivity. }
  split; [exact (Hiff fm) | split].
  - intros a b Ea Eb Hab. unfold parseUri. rewrite Ea, Eb.
    destruct (Nat.leb_spec a (b + 1)); [reflexivity | lia].
  - intros u -> H. apply Hiff in H
      as (host & name & dig & _ & _ & _ & _ & _ & _ & -> & _ & Hsp & Hf).
    destruct (Hf eq_refl) as [Hne Hm].
    destruct Hsp as [[-> Hap] | (_ & Hemp & _)]; [|contradiction].
    rewrite count_app. simpl.
    apply count_0_mem in Hm, Hap. lia.
Qed.

(** C6 (as stated) fails: the input is split at the first ['@'], not at the
    last one.  Here the first ['@'] is at position 3 and the last at position
    11; the digest is built from what follows the first, and what follows the
    last is no digest at all. *)
Lemma parseUri_does_not_split_at_last_at :
  let s := "h/r@sha256:@" ++ Str.repeat "a" 63 in
  find "@" s = Some 3 /\ rfind "@" s = Some 11
  /\ parseUri s false
     = Ok (mkUri (digest_for ("@" ++ Str.repeat "a" 63)) "r" EmptyString "r" "h")
  /\ is_ok (HashedDigest_of (substr_from s (11 + 1))) = false.
Proof. cbv zeta. repeat split. Qed.

End UriFacts.

(** ** The registry client *)

Module RegistryFacts.
Import Str StrFacts Docker offline Doubles.

Lemma bind_ok_inv {A B} (m : M A) (k : A -> M B) w b w' :
  bind m k w = (Ok b, w') -> exists a w1, m w = (Ok a, w1) /\ k a w1 = (Ok b, w').
Proof.
  unfold bind. destruct (m w) as [[a|e] w1]; [eauto | discriminate].
Qed.

Lemma size_t_of_small z : (0 <= z < 2 ^ 64)%Z -> size_t_of z = z.
Proof. intros H. unfold size_t_of. now apply Z.mod_small. Qed.

(** A length below [2^63] that equals an [int64_t] read as [std::size_t]
    equals the [int64_t]. *)
Lemma size_t_of_eq_length (len n : Z) :
  (0 <= len < 2 ^ 63)%Z -> (- 2 ^ 63 <= n < 2 ^ 63)%Z -> len = size_t_of n -> len = n.
Proof.
  intros Hlen Hn ->. unfold size_t_of in *.
  destruct (Z_lt_le_dec n 0) as [Hneg|Hpos].
  - exfalso. replace n with ((n + 2 ^ 64) + (-1) * 2 ^ 64)%Z in Hlen by lia.
    rewrite Z.mod_add in Hlen by lia. rewrite Z.mod_small in Hlen; lia.
  - apply Z.mod_small. lia.
Qed.

Section Manifest.
Variable L : Libs.
Variable c : RegistryClient.

Lemma manifest_check_ok uri manifest_size resp b :
  manifest_check L uri manifest_size resp = Ok b ->
  b = body resp /\ isOk L resp = true
  /\ to_lower (hex (sha256digest L b)) = hash_ (digest uri)
  /\ match manifest_size with
     | Some size => Z.of_nat (String.length b) = size_t_of size
     | None => (Z.of_nat (String.length b) <= size_t_of (DefManifestMaxSize L))%Z
     end.
Proof.
  unfold manifest_check. destruct (isOk L resp); [|discriminate]. simpl.
  destruct manifest_size as [size|].
  - destruct (Z.eqb_spec (Z.of_nat (String.length (body resp))) (size_t_of size)) as [Hs|];
      [|discriminate]. simpl.
    destruct (String.eqb_spec (to_lower (hex (sha256digest L (body resp)))) (hash_ (digest uri)))
      as [Hd|]; [|discriminate]. simpl.
    intros [= <-]. auto.
  - destruct (Z.ltb_spec (size_t_of (DefManifestMaxSize L)) (Z.of_nat (String.length (body resp))))
      as [|Hs]; [discriminate|].
    destruct (String.eqb_spec (to_lower (hex (sha256digest L (body resp)))) (hash_ (digest uri)))
      as [Hd|]; [|discriminate]. simpl.
    intros [= <-]. auto.
Qed.

(** The end of [getAppManifest] is [manifest_check] on the last response. *)
Lemma getAppManifest_ok_inv uri format manifest_size w b w' :
  getAppManifest L c uri format manifest_size w = (Ok b, w') ->
  exists request_headers w0,
    manifest_check L uri manifest_size
      (get (http_client_factory_ c request_headers) w0 (composeManifestUrl uri)
           (default (DefManifestMaxSize L) manifest_size)) = Ok b.
Proof.
  unfold getAppManifest. intros H.
  apply bind_ok_inv in H as (first & w1 & Hfirst & H).
  apply bind_ok_inv in H as (resp & w2 & Hresp & H).
  assert (Hc : manifest_check L uri manifest_size resp = Ok b).
  { unfold manifest_check. revert H. unfold throw, ret.
    destruct (isOk L resp); simpl; [|discriminate].
    destruct manifest_size as [size|]; simpl.
    - destruct (Z.of_nat (String.length (body resp)) =? size_t_of size)%Z; simpl; [|discriminate].
      destruct (String.eqb _ _); simpl; [|discriminate]. now intros [= <-].
    - destruct (size_t_of (DefManifestMaxSize L) <? Z.of_nat (String.length (body resp)))%Z;
        simpl; [discriminate|].
      destruct (String.eqb _ _); simpl; [|discriminate]. now intros [= <-]. }
  assert (Hget : forall hs wa r wb,
             bind (record_call (FactoryGet hs (composeManifestUrl uri)
                                           (default (DefManifestMaxSize L) manifest_size)))
                  (fun _ => ret (get (http_client_factory_ c hs) wa (composeManifestUrl uri)
                                     (default (DefManifestMaxSize L) manifest_size))) wa
             = (Ok r, wb) ->
             r = get (http_client_factory_ c hs) wa (composeManifestUrl uri)
                     (default (DefManifestMaxSize L) manifest_size)).
  { intros hs wa r wb. unfold bind, record_call, ret. now intros [= <- _]. }
  apply Hget in Hfirst.
  destruct (http_status_code first =? 401)%Z.
  - destruct (headers first !! BearerAuth_Header) as [v|]; [|discriminate].
    apply bind_ok_inv in Hresp as (bearer & w3 & _ & Hresp).
    apply bind_ok_inv in Hresp as (auth_header & w4 & _ & Hresp).
    apply Hget in Hresp. subst resp. eauto.
  - unfold ret in Hresp. injection Hresp as <- <-. subst first. eauto.
Qed.

End Manifest.

(** C4: [getAppManifest] hands back a body only if it is the body of a
    response of the registry that is [isOk], whose length equals the expected
    size when one was supplied and does not exceed [DefManifestMaxSize]
    otherwise, and whose SHA-256 in lower-case hex equals the hash of the
    uri's digest; on a size or digest mismatch the call raises instead.  (A
    body is shorter than [2^63] bytes, and the sizes are [int64_t]s, the
    default one not negative.) *)
Theorem getAppManifest_size_and_digest (L : Libs) (c : RegistryClient) (uri : Uri)
    (format : string) (manifest_size : option Z) (w w' : World) (b : string) :
  (0 <= DefManifestMaxSize L < 2 ^ 63)%Z ->
  (forall size, manifest_size = Some size -> - 2 ^ 63 <= size < 2 ^ 63)%Z ->
  (Z.of_nat (String.length b) < 2 ^ 63)%Z ->
  getAppManifest L c uri format manifest_size w = (Ok b, w') ->
  match manifest_size with
  | Some size => Z.of_nat (String.length b) = size
  | None => (Z.of_nat (String.length b) <= DefManifestMaxSize L)%Z
  end
  /\ to_lower (hex (sha256digest L b)) = hash_ (digest uri)
  /\ exists request_headers w0,
       let resp := get (http_client_factory_ c request_headers) w0 (composeManifestUrl uri)
                       (default (DefManifestMaxSize L) manifest_size) in
       b = body resp /\ isOk L resp = true
       /\ manifest_check L uri manifest_size resp = Ok b.
Proof.
  intros HD Hsz Hb H.
  destruct (getAppManifest_ok_inv _ _ _ _ _ _ _ _ H) as (hs & w0 & Hc).
  destruct (manifest_check_ok _ _ _ _ _ Hc) as (Hbody & Hok & Hdig & Hsize).
  split; [|split; [exact Hdig | exists hs, w0; cbv zeta; rewrite <- Hbody; auto]].
  destruct manifest_size as [size|].
  - apply size_t_of_eq_length; [lia | now apply Hsz | exact Hsize].
  - rewrite size_t_of_small in Hsize by lia. exact Hsize.
Qed.


Lemma bind_ok {A B} (m : M A) (k : A -> M B) w a w1 :
  m w = (Ok a, w1) -> bind m k w = k a w1.
Proof. unfold bind. now intros ->. Qed.

Section Auth.
Variable L : Libs.
Variable c : RegistryClient.

Lemma getBasicAuthHeader_ok w user secret :
  let creds := get (ota_lite_client_ c) w (auth_creds_endpoint_ c) (AuthMaterialMaxSize L) in
  isOk L creds = true ->
  json_member L (body creds) "Username" = user ->
  json_member L (body creds) "Secret" = secret ->
  user <> EmptyString -> secret <> EmptyString ->
  getBasicAuthHeader L c w
  = (Ok ("authorization: basic " ++ toBase64 L (user ++ ":" ++ secret)),
     logged w (DaemonGet (auth_creds_endpoint_ c) (AuthMaterialMaxSize L))).
Proof.
  cbv zeta. intros Hok Hu Hs Hune Hsne.
  unfold getBasicAuthHeader, bind, record_call, ret. rewrite Hok, Hu, Hs. simpl.
  destruct (String.eqb_spec user EmptyString); [contradiction|].
  destruct (String.eqb_spec secret EmptyString); [contradiction|]. reflexivity.
Qed.

Lemma getBearerAuthHeader_ok bearer w user secret token :
  let creds := get (ota_lite_client_ c) w (auth_creds_endpoint_ c) (AuthMaterialMaxSize L) in
  let w1 := logged w (DaemonGet (auth_creds_endpoint_ c) (AuthMaterialMaxSize L)) in
  let basic := "authorization: basic " ++ toBase64 L (user ++ ":" ++ secret) in
  let token_resp :=
    get (http_client_factory_ c [basic]) w1 (BearerAuth_uri bearer) (AuthMaterialMaxSize L) in
  isOk L creds = true ->
  json_member L (body creds) "Username" = user ->
  json_member L (body creds) "Secret" = secret ->
  user <> EmptyString -> secret <> EmptyString ->
  isOk L token_resp = true ->
  json_member L (body token_resp) "token" = token ->
  token <> EmptyString ->
  getBearerAuthHeader L c bearer w
  = (Ok ("authorization: bearer " ++ token),
     logged w1 (FactoryGet [basic] (BearerAuth_uri bearer) (AuthMaterialMaxSize L))).
Proof.
  cbv zeta. intros Hok Hu Hs Hune Hsne Htok Ht Htne.
  unfold getBearerAuthHeader.
  rewrite (bind_ok _ _ _ _ _ (getBasicAuthHeader_ok w user secret Hok Hu Hs Hune Hsne)).
  unfold bind, record_call, ret. rewrite Htok, Ht. simpl.
  destruct (String.eqb_spec token EmptyString); [contradiction|]. reflexivity.
Qed.

End Auth.

Lemma find_from_bounds ch s p q :
  find_from ch s (Some p) = Some q -> p <= q < String.length s.
Proof.
  unfold find_from. destruct (Nat.ltb_spec (String.length s) p); [discriminate|].
  destruct (find ch (drop p s)) as [n|] eqn:E; [|discriminate].
  intros [= <-]. apply find_Some in E as (_ & _ & Hn). rewrite length_drop in Hn. lia.
Qed.

(** The loop over the bearer parameters ends within the rounds it is given:
    every round moves [param_begin_pos] forward. *)
Lemma bearer_params_rounds rounds auth_header_value bearer_val bearer_params param_begin_pos :
  (forall p, param_begin_pos = Some p -> String.length bearer_val - p < rounds) ->
  bearer_params_loop rounds auth_header_value bearer_val bearer_params param_begin_pos <> None.
Proof.
  revert bearer_params param_begin_pos.
  induction rounds as [|rounds IH]; intros bearer_params param_begin_pos Hfuel.
  - cbn [bearer_params_loop]. destruct (find_from "=" bearer_val param_begin_pos) as [e|] eqn:E; [|discriminate].
    destruct param_begin_pos as [p|]; [|discriminate E].
    apply find_from_bounds in E. specialize (Hfuel p eq_refl). lia.
  - cbn [bearer_params_loop]. destruct (find_from "=" bearer_val param_begin_pos) as [e|] eqn:E; [|discriminate].
    destruct param_begin_pos as [p|]; [|discriminate E].
    apply find_from_bounds in E. specialize (Hfuel p eq_refl).
    destruct (find_from dquote bearer_val (Some p)) as [b|] eqn:B; [|discriminate].
    apply find_from_bounds in B.
    destruct (b <? e); [discriminate|].
    destruct (negb _); [discriminate|].
    destruct (find_from dquote bearer_val (Some (b + 1))) as [q|] eqn:Q; [|discriminate].
    apply find_from_bounds in Q.
    apply IH. intros p' Hp'.
    destruct (find_from "," bearer_val (Some q)) as [k|] eqn:K; [|discriminate].
    apply find_from_bounds in K. injection Hp' as <-. lia.
Qed.

Lemma bearer_params_errors rounds auth_header_value bearer_val bearer_params param_begin_pos e :
  bearer_params_loop rounds auth_header_value bearer_val bearer_params param_begin_pos
    = Some (Err e) ->
  exists what, e = invalid_argument what.
Proof.
  revert bearer_params param_begin_pos.
  induction rounds as [|rounds IH]; intros bearer_params param_begin_pos;
    cbn [bearer_params_loop];
    destruct (find_from "=" bearer_val param_begin_pos) as [eq_pos|]; try discriminate.
  destruct (find_from dquote bearer_val param_begin_pos) as [b|];
    [|intros [= <-]; unfold missing_opening; eauto].
  destruct (b <? eq_pos); [intros [= <-]; eauto|].
  destruct (negb _); [intros [= <-]; unfold missing_opening; eauto|].
  destruct (find_from dquote bearer_val (Some (b + 1))) as [q|]; [|intros [= <-]; eauto].
  apply IH.
Qed.

(** [BearerAuth_of] ends the way the constructor does: with a challenge or
    with [std::invalid_argument]. *)
Lemma BearerAuth_of_ends auth_header_value :
  match BearerAuth_of auth_header_value with
  | Ok _ => True
  | Err e => exists what, e = invalid_argument what
  end.
Proof.
  unfold BearerAuth_of. destruct (negb _); [eauto|].
  destruct (bearer_params_loop _ _ _ _ _) as [[params|e]|] eqn:E.
  - destruct (List.filter _ required_params); [exact I | eauto].
  - eapply bearer_params_errors, E.
  - exfalso. revert E. apply bearer_params_rounds. intros p [= <-]. lia.
Qed.

Lemma BearerAuth_of_lowercase_challenge :
  BearerAuth_of (challenge "bearer") = Ok (mkBearerAuth "https://x/t" "s" "repository:r:pull").
Proof. vm_compute. reflexivity. Qed.

(** C5 (as amended): when the first manifest request is answered 401 with the
    [www-authenticate] value [bearer realm="https://x/t",service="s",
    scope="repository:r:pull"] (the scheme in lower case), the credentials
    endpoint yields a user and a secret, and the token endpoint
    [https://x/t?service=s&scope=repository:r:pull], asked with the basic
    authorization header, yields the token [T], then [getAppManifest] asks
    for the manifest exactly once more, with the header
    [authorization: bearer T] after the [accept] header, and returns the body
    of that second response when it is [isOk] and has the pinned size and
    digest.  The log lists the four requests made. *)
Theorem getAppManifest_retries_once_with_bearer_token (L : Libs) (c : RegistryClient) (uri : Uri)
    (format user secret : string) (size : Z) (w : World) :
  let url := composeManifestUrl uri in
  let headers1 := ["accept:" ++ format] in
  let first_resp := get (http_client_factory_ c headers1) w url size in
  let w1 := logged w (FactoryGet headers1 url size) in
  let creds := get (ota_lite_client_ c) w1 (auth_creds_endpoint_ c) (AuthMaterialMaxSize L) in
  let w2 := logged w1 (DaemonGet (auth_creds_endpoint_ c) (AuthMaterialMaxSize L)) in
  let basic := "authorization: basic " ++ toBase64 L (user ++ ":" ++ secret) in
  let token_url := "https://x/t?service=s&scope=repository:r:pull" in
  let token_resp := get (http_client_factory_ c [basic]) w2 token_url (AuthMaterialMaxSize L) in
  let w3 := logged w2 (FactoryGet [basic] token_url (AuthMaterialMaxSize L)) in
  let headers2 := ["accept:" ++ format; "authorization: bearer T"] in
  let second_resp := get (http_client_factory_ c headers2) w3 url size in
  http_status_code first_resp = 401%Z ->
  headers first_resp !! "www-authenticate" = Some (challenge "bearer") ->
  isOk L creds = true ->
  json_member L (body creds) "Username" = user -> user <> EmptyString ->
  json_member L (body creds) "Secret" = secret -> secret <> EmptyString ->
  isOk L token_resp = true ->
  json_member L (body token_resp) "token" = "T" ->
  isOk L second_resp = true ->
  Z.of_nat (String.length (body second_resp)) = size_t_of size ->
  to_lower (hex (sha256digest L (body second_resp))) = hash_ (digest uri) ->
  getAppManifest L c uri format (Some size) w
  = (Ok (body second_resp), logged w3 (FactoryGet headers2 url size)).
Proof.
  cbv zeta. intros H401 Hhdr Hcreds Hu Hune Hs Hsne Htok Ht Hok2 Hsize Hdig.
  unfold getAppManifest.
  erewrite bind_ok by (unfold bind, record_call, ret; reflexivity).
  simpl default. rewrite H401. simpl Z.eqb. cbv iota.
  change BearerAuth_Header with "www-authenticate". rewrite Hhdr.
  erewrite bind_ok; cycle 1.
  { erewrite bind_ok by (unfold lift; rewrite BearerAuth_of_lowercase_challenge; reflexivity).
    erewrite bind_ok by (apply (getBearerAuthHeader_ok L c _ _ user secret "T");
                         try assumption; discriminate).
    unfold bind, record_call, ret. reflexivity. }
  change (@List.app string ["accept:" ++ format] ["authorization: bearer " ++ "T"])
    with ["accept:" ++ format; "authorization: bearer T"].
  unfold ret, throw.
  change (BearerAuth_uri {| Realm := "https://x/t"; Service := "s"; Scope := "repository:r:pull" |})
    with "https://x/t?service=s&scope=repository:r:pull".
  rewrite Hok2, Hsize, Z.eqb_refl, Hdig, String.eqb_refl. reflexivity.
Qed.


(** The amended C5 on the token-demanding registry of the test doubles. *)
Lemma getAppManifest_retries_once_with_bearer_token_witness :
  getAppManifest libs (token_client (challenge "bearer") "T" manifest_blob) manifest_uri
                 "application/json" (Some 10%Z) (empty_disk 0)
  = (Ok manifest_blob,
     mkWorld [ FactoryGet ["accept:application/json"] (composeManifestUrl manifest_uri) 10;
               DaemonGet "https://creds" 1024;
               FactoryGet ["authorization: basic test-user:secret"]
                          "https://x/t?service=s&scope=repository:r:pull" 1024;
               FactoryGet ["accept:application/json"; "authorization: bearer T"]
                          (composeManifestUrl manifest_uri) 10 ]
             (fs (empty_disk 0))).
Proof.
  apply (getAppManifest_retries_once_with_bearer_token
           libs (token_client (challenge "bearer") "T" manifest_blob) manifest_uri
           "application/json" "test-user" "secret" 10%Z (empty_disk 0));
    solve [ vm_compute; reflexivity | discriminate ].
Defined.

(** C5 (as stated) fails: the registry answers the first request 401 with the
    value [Bearer realm="https://x/t",service="s",scope="repository:r:pull"],
    its token endpoint hands out [{"token":"T"}] and it would answer a request
    that carries [authorization: bearer T] with the pinned manifest; the call
    raises on the challenge, whose scheme does not start with the lower-case
    [bearer], after the one request. *)
Lemma getAppManifest_rejects_capitalised_Bearer :
  let c := token_client (challenge "Bearer") "T" manifest_blob in
  let w := empty_disk 0 in
  let url := composeManifestUrl manifest_uri in
  let first_resp := get (http_client_factory_ c ["accept:application/json"]) w url 10%Z in
  http_status_code first_resp = 401%Z
  /\ headers first_resp !! "www-authenticate" = Some (challenge "Bearer")
  /\ body (get (http_client_factory_ c []) w "https://x/t?service=s&scope=repository:r:pull" 1024%Z)
     = "{" ++ json_pair "token" "T" ++ "}"
  /\ manifest_check libs manifest_uri (Some 10%Z)
       (get (http_client_factory_ c ["accept:application/json"; "authorization: bearer T"]) w url 10%Z)
     = Ok manifest_blob
  /\ getAppManifest libs c manifest_uri "application/json" (Some 10%Z) w
     = (Err (invalid_argument
               ("Unsupported authentication type to access Registry: " ++ challenge "Bearer")),
        mkWorld [FactoryGet ["accept:application/json"] url 10] (fs w)).
Proof. cbv zeta. repeat split; vm_compute; reflexivity. Qed.

(** C4 on the offline registry of client.cc serving the manifest from the
    update medium. *)
Lemma getAppManifest_size_and_digest_witness :
  getAppManifest libs (offline_registry_client "/src") manifest_uri "application/json"
                 (Some 10%Z) medium
  = (Ok manifest_blob,
     logged medium (FactoryGet ["accept:application/json"] (composeManifestUrl manifest_uri) 10))
  /\ Z.of_nat (String.length manifest_blob) = 10%Z
  /\ to_lower (hex (sha256digest libs manifest_blob)) = hash_ (digest manifest_uri).
Proof.
  assert (H : getAppManifest libs (offline_registry_client "/src") manifest_uri "application/json"
                             (Some 10%Z) medium
              = (Ok manifest_blob,
                 logged medium (FactoryGet ["accept:application/json"]
                                           (composeManifestUrl manifest_uri) 10)))
    by (vm_compute; reflexivity).
  split; [exact H|].
  destruct (getAppManifest_size_and_digest libs (offline_registry_client "/src") manifest_uri
              "application/json" (Some 10%Z) medium
              (logged medium (FactoryGet ["accept:application/json"]
                                         (composeManifestUrl manifest_uri) 10))
              manifest_blob)
    as (Hsize & Hdig & _).
  - vm_compute. split; [discriminate | reflexivity].
  - intros size [= <-]. vm_compute. split; [discriminate | reflexivity].
  - vm_compute. reflexivity.
  - exact H.
  - split; [exact Hsize | exact Hdig].
Defined.

End RegistryFacts.

(** ** The download context and [downloadBlob] *)

Module DownloadFacts.
Import Str StrFacts Docker offline Doubles RegistryFacts.

Local Open Scope Z_scope.

(** The three outcomes of the write callback. *)
Lemma DownloadCtx_write_over ctx data :
  expected_size ctx < size_t_of (written_size ctx + Z.of_nat (String.length data)) ->
  DownloadCtx_write ctx data
  = (size_t_of (Z.of_nat (String.length data) + 1),
     mkDownloadCtx (out_stream ctx) (hasher ctx) (expected_size ctx) (written_size ctx)
                   (size_t_of (written_size ctx + Z.of_nat (String.length data)))).
Proof.
  intros H. unfold DownloadCtx_write. apply Z.ltb_lt in H. now rewrite H.
Qed.

Lemma DownloadCtx_write_bad ctx data :
  size_t_of (written_size ctx + Z.of_nat (String.length data)) <= expected_size ctx ->
  good (out_stream ctx) = false ->
  DownloadCtx_write ctx data
  = (size_t_of (Z.of_nat (String.length data) + 1),
     mkDownloadCtx (out_stream ctx) (hasher ctx) (expected_size ctx) (written_size ctx)
                   (size_t_of (written_size ctx + Z.of_nat (String.length data)))).
Proof.
  intros H G. unfold DownloadCtx_write.
  destruct (Z.ltb_spec (expected_size ctx)
              (size_t_of (written_size ctx + Z.of_nat (String.length data)))); [lia|].
  now rewrite G.
Qed.

Lemma DownloadCtx_write_through ctx data :
  size_t_of (written_size ctx + Z.of_nat (String.length data)) <= expected_size ctx ->
  good (out_stream ctx) = true ->
  let d := tellp (os_write (out_stream ctx) data) - tellp (out_stream ctx) in
  DownloadCtx_write ctx data
  = (size_t_of d,
     mkDownloadCtx (os_write (out_stream ctx) data) (hasher ctx ++ data) (expected_size ctx)
                   (size_t_of (written_size ctx + d))
                   (size_t_of (written_size ctx + Z.of_nat (String.length data)))).
Proof.
  intros H G. unfold DownloadCtx_write.
  destruct (Z.ltb_spec (expected_size ctx)
              (size_t_of (written_size ctx + Z.of_nat (String.length data)))); [lia|].
  now rewrite G.
Qed.

(** A sink that takes the whole chunk moves by the chunk's size. *)
Lemma tellp_os_write_taken o data :
  good o = true -> (String.length data <= os_room o)%nat ->
  tellp (os_write o data) - tellp o = Z.of_nat (String.length data)
  /\ good (os_write o data) = true.
Proof.
  unfold good, tellp, os_write. intros G R.
  destruct (os_failed o); [discriminate|].
  destruct (Nat.leb_spec (String.length data) (os_room o)); [|lia].
  simpl. split; [lia | reflexivity].
Qed.

(** As long as the sink takes every chunk it is given, the callback keeps
    [written_size] within [expected_size]. *)
Lemma DownloadCtx_write_keeps_bound ctx data :
  0 <= written_size ctx <= expected_size ctx ->
  (good (out_stream ctx) = true -> (String.length data <= os_room (out_stream ctx))%nat) ->
  0 <= written_size (snd (DownloadCtx_write ctx data)) <= expected_size (snd (DownloadCtx_write ctx data)).
Proof.
  intros Hinv Hroom.
  destruct (Z.lt_ge_cases (expected_size ctx)
              (size_t_of (written_size ctx + Z.of_nat (String.length data)))) as [Hover|Hfit].
  - rewrite DownloadCtx_write_over by exact Hover. exact Hinv.
  - destruct (good (out_stream ctx)) eqn:G.
    + rewrite DownloadCtx_write_through by assumption. cbv zeta.
      destruct (tellp_os_write_taken _ data G (Hroom eq_refl)) as [He _].
      cbn [snd written_size expected_size]. rewrite He.
      unfold size_t_of in *. split; [|exact Hfit].
      apply Z.mod_pos_bound. lia.
    + rewrite DownloadCtx_write_bad by assumption. exact Hinv.
Qed.

Lemma os_room_os_write_taken o data :
  good o = true -> (String.length data <= os_room o)%nat ->
  os_room (os_write o data) = (os_room o - String.length data)%nat.
Proof.
  unfold good, os_write. intros G R. destruct (os_failed o); [discriminate|].
  destruct (Nat.leb_spec (String.length data) (os_room o)); [reflexivity | lia].
Qed.

(** One chunk, on a device with room for what is still expected. *)
Lemma DownloadCtx_write_with_room ctx data :
  0 <= written_size ctx <= expected_size ctx ->
  good (out_stream ctx) = true ->
  expected_size ctx - written_size ctx <= Z.of_nat (os_room (out_stream ctx)) ->
  expected_size ctx + Z.of_nat (String.length data) < 2 ^ 64 ->
  let ctx' := snd (DownloadCtx_write ctx data) in
  0 <= written_size ctx' <= expected_size ctx'
  /\ good (out_stream ctx') = true
  /\ expected_size ctx' - written_size ctx' <= Z.of_nat (os_room (out_stream ctx'))
  /\ expected_size ctx' = expected_size ctx.
Proof.
  intros Hinv Hgood Hroom Hsmall. cbv zeta.
  assert (Hrec : size_t_of (written_size ctx + Z.of_nat (String.length data))
                 = written_size ctx + Z.of_nat (String.length data))
    by (apply size_t_of_small; lia).
  destruct (Z.lt_ge_cases (expected_size ctx)
              (written_size ctx + Z.of_nat (String.length data))) as [Hover|Hfit].
  - rewrite DownloadCtx_write_over by (rewrite Hrec; exact Hover). simpl. auto.
  - assert (Hlen : (String.length data <= os_room (out_stream ctx))%nat) by lia.
    rewrite DownloadCtx_write_through by (rewrite ?Hrec; assumption). cbv zeta.
    destruct (tellp_os_write_taken _ data Hgood Hlen) as [He Hg].
    rewrite He, Hrec. cbn [snd written_size expected_size out_stream].
    rewrite (os_room_os_write_taken _ data Hgood Hlen).
    repeat split; try assumption; lia.
Qed.

(** On a device with room for the expected bytes the sink does not fail, and
    [written_size] stays within [expected_size] over any sequence of chunks
    (none of them so large that the size arithmetic wraps). *)
Lemma DownloadCtx_write_bound_with_room chunks ctx :
  0 <= written_size ctx <= expected_size ctx ->
  good (out_stream ctx) = true ->
  expected_size ctx - written_size ctx <= Z.of_nat (os_room (out_stream ctx)) ->
  Forall (fun data => expected_size ctx + Z.of_nat (String.length data) < 2 ^ 64) chunks ->
  0 <= written_size (feed_chunks ctx chunks) <= expected_size (feed_chunks ctx chunks)
  /\ good (out_stream (feed_chunks ctx chunks)) = true.
Proof.
  revert ctx. induction chunks as [|data chunks IH]; intros ctx Hinv Hgood Hroom Hsmall.
  - simpl. auto.
  - inversion Hsmall as [|? ? Hd Hrest]; subst.
    destruct (DownloadCtx_write_with_room ctx data Hinv Hgood Hroom Hd) as (H1 & H2 & H3 & H4).
    unfold feed_chunks. simpl. apply IH; try assumption.
    unfold DownloadHandler. rewrite H4. exact Hrest.
Qed.

Lemma drop_all s n : (String.length s <= n)%nat -> drop n s = EmptyString.
Proof.
  revert n; induction s as [|ch s IH]; intros [|n] H; simpl in *; try reflexivity; try lia.
  apply IH. lia.
Qed.

Lemma overwrite_at_end s d : overwrite s (String.length s) d = s ++ d.
Proof.
  unfold overwrite. rewrite take_all by lia. rewrite drop_all by lia.
  now rewrite app_nil_r.
Qed.

Lemma in_step_write ctx data :
  in_step ctx -> expected_size ctx + Z.of_nat (String.length data) < 2 ^ 64 ->
  in_step (snd (DownloadCtx_write ctx data))
  /\ expected_size (snd (DownloadCtx_write ctx data)) = expected_size ctx.
Proof.
  intros (Hg & Hd & Hp & Hw & Hle & Hroom) Hsmall.
  assert (Hrec : size_t_of (written_size ctx + Z.of_nat (String.length data))
                 = written_size ctx + Z.of_nat (String.length data))
    by (apply size_t_of_small; lia).
  destruct (Z.lt_ge_cases (expected_size ctx)
              (written_size ctx + Z.of_nat (String.length data))) as [Hover|Hfit].
  - rewrite DownloadCtx_write_over by (rewrite Hrec; exact Hover). simpl.
    unfold in_step. simpl. auto 10.
  - assert (Hlen : (String.length data <= os_room (out_stream ctx))%nat) by lia.
    rewrite DownloadCtx_write_through by (rewrite ?Hrec; assumption). cbv zeta.
    destruct (tellp_os_write_taken _ data Hg Hlen) as [He Hg'].
    rewrite He, Hrec. unfold in_step. cbn [snd written_size expected_size out_stream hasher].
    rewrite (os_room_os_write_taken _ data Hg Hlen).
    assert (Hdata : os_write (out_stream ctx) data
                    = mkOstream (hasher ctx ++ data) (String.length (hasher ctx ++ data)) false
                                (os_room (out_stream ctx) - String.length data)).
    { unfold os_write. unfold good in Hg. destruct (os_failed (out_stream ctx)); [discriminate|].
      destruct (Nat.leb_spec (String.length data) (os_room (out_stream ctx))); [|lia].
      rewrite Hp, Hd, overwrite_at_end, length_app. reflexivity. }
    rewrite Hdata. simpl. rewrite length_app.
    repeat split; try reflexivity; lia.
Qed.

Lemma in_step_feed_chunks chunks ctx :
  in_step ctx ->
  Forall (fun data => expected_size ctx + Z.of_nat (String.length data) < 2 ^ 64) chunks ->
  in_step (feed_chunks ctx chunks)
  /\ expected_size (feed_chunks ctx chunks) = expected_size ctx.
Proof.
  revert ctx. induction chunks as [|data chunks IH]; intros ctx Hin Hsmall; [now split|].
  inversion Hsmall as [|? ? Hd Hrest]; subst.
  destruct (in_step_write ctx data Hin Hd) as [Hin' He].
  unfold feed_chunks. simpl. unfold DownloadHandler.
  destruct (IH (snd (DownloadCtx_write ctx data)) Hin') as [H1 H2].
  - rewrite He. exact Hrest.
  - split; [exact H1 | now rewrite <- He].
Qed.

Lemma chunks_of_small rounds size s :
  Forall (fun data => (String.length data <= size)%nat) (chunks_of rounds size s).
Proof.
  revert s. induction rounds as [|rounds IH]; intros s; simpl; [constructor|].
  destruct s as [|ch r]; constructor; [|apply IH].
  rewrite length_take. lia.
Qed.

(** The success half of C2 on the offline client of client.cc: when
    [downloadBlob] through the offline registry returns, on a device with
    room for the expected bytes, the file at the path has exactly the
    expected number of bytes and the pinned SHA-256. *)
Lemma downloadBlob_offline_success (L : Libs) (apps_dir : string) (uri : Uri) (filepath : string)
    (expected : Z) (w w' : World) :
  0 <= expected -> expected + 4096 < 2 ^ 64 -> expected <= Z.of_nat (free_space (fs w)) ->
  downloadBlob L (offline_registry_client apps_dir) uri filepath expected w = (Ok tt, w') ->
  exists content,
    files (fs w') !! filepath = Some content
    /\ Z.of_nat (String.length content) = expected
    /\ to_lower (hex (sha256digest L content)) = hash_ (digest uri).
Proof.
  intros Hpos Hsmall Hroom. unfold downloadBlob.
  destruct (writable (fs w) filepath); [|discriminate]. simpl negb. cbv iota.
  set (ctx0 := DownloadCtx_of (mkOstream EmptyString 0 false (free_space (fs w))) expected).
  assert (H0 : in_step ctx0) by (unfold in_step, ctx0; simpl; repeat split; lia).
  set (opened := mkWorld (log w) (with_file (fs w) filepath EmptyString)).
  set (answer := download (http_client_factory_ (offline_registry_client apps_dir) [])
                          DownloadCtx opened (composeBlobUrl uri) DownloadHandler ctx0).
  assert (Hans : http_status_code (fst answer) <> 401
                 /\ in_step (snd answer) /\ expected_size (snd answer) = expected).
  { unfold answer.
    cbn [download http_client_factory_ offline_registry_client OfflineRegistry_http].
    unfold OfflineRegistry_download.
    destruct (rfind_str hash_prefix (composeBlobUrl uri)) as [pos|]; cbn [fst snd].
    - split; [discriminate|].
      apply (in_step_feed_chunks _ ctx0 H0).
      apply List.Forall_forall. intros data Hd.
      match type of Hd with
      | In _ (chunks_of ?r ?k ?b) => pose proof (chunks_of_small r k b) as Hs
      end.
      rewrite List.Forall_forall in Hs. specialize (Hs data Hd).
      change (expected_size ctx0) with expected. lia.
    - split; [discriminate | split; [exact H0 | reflexivity]]. }
  destruct Hans as (H401 & Hin & Hexp).
  erewrite bind_ok by reflexivity.
  fold answer.
  apply Z.eqb_neq in H401. rewrite H401.
  erewrite bind_ok by reflexivity. cbn [fst snd].
  unfold throw, ret, bind, remove_file.
  destruct (isOk L (fst answer)); [|discriminate]. cbn [negb].
  destruct (Z.eqb_spec (written_size (snd answer)) expected) as [Hw|]; [|discriminate].
  cbn [negb].
  destruct (String.eqb_spec (to_lower (getHexDigest L (hasher (snd answer)))) (hash_ (digest uri)))
    as [Hh|]; [|discriminate].
  cbn [negb]. intros [= <-].
  destruct Hin as (_ & Hd & _ & Hlen & _).
  exists (os_data (out_stream (snd answer))). cbn [fs files with_file].
  rewrite lookup_insert_eq, Hd. split; [reflexivity|]. split; [lia | exact Hh].
Qed.

(** C3, at a sink that fails: 10 bytes are expected, the device takes 3 and
    the first chunk has 5.  The chunk passes both guards, the write fails,
    [tellp] answers -1 after it, so the position delta is -1: the callback
    returns [2^64 - 1], all 5 bytes are hashed, and [written_size] becomes
    [2^64 - 1], which is above [expected_size]. *)
Theorem DownloadCtx_write_failed_write_exceeds_expected :
  let ctx := DownloadCtx_of (mkOstream EmptyString 0 false 3) 10 in
  let after := DownloadCtx_write ctx "hello" in
  written_size ctx <= expected_size ctx
  /\ fst after = 2 ^ 64 - 1
  /\ hasher (snd after) = "hello"
  /\ os_data (out_stream (snd after)) = "hel"
  /\ written_size (snd after) = 2 ^ 64 - 1
  /\ expected_size (snd after) = 10
  /\ expected_size (snd after) < written_size (snd after).
Proof. cbv zeta. repeat split; vm_compute; solve [reflexivity | discriminate]. Qed.

(** C2, at a transport that fails: [downloadBlob] through a transport whose
    [download] answers 501 (the one [BaseHttpClient] provides) raises and
    leaves the file it has opened, empty, at the path; through a transport
    that delivers the three expected bytes and answers 500 it raises and
    leaves the file with the three bytes. *)
Theorem downloadBlob_leaves_file_on_transport_failure :
  let unimplemented := downloadBlob libs unimplemented_client blob_uri "/data/blob" 3 (empty_disk 100) in
  let failing := downloadBlob libs (streaming_client ["ab"; "c"] 500) blob_uri "/data/blob" 3
                              (empty_disk 100) in
  fst unimplemented = Err (runtime_error "Failed to download App blob")
  /\ files (fs (snd unimplemented)) !! "/data/blob"%string = Some EmptyString
  /\ fst failing = Err (runtime_error "Failed to download App blob")
  /\ files (fs (snd failing)) !! "/data/blob"%string = Some "abc"%string.
Proof. cbv zeta. repeat split; vm_compute; reflexivity. Qed.

(** The sibling paths remove the file: a size mismatch and a digest mismatch
    found after the transport has answered 200. *)
Lemma downloadBlob_removes_file_on_mismatch :
  let short := downloadBlob libs (streaming_client ["ab"] 200) blob_uri "/data/blob" 3 (empty_disk 100) in
  let wrong := downloadBlob libs (streaming_client ["ab"; "c"] 200) blob_uri "/data/blob" 3
                            (empty_disk 100) in
  fst short = Err (runtime_error "Size of downloaded App blob does not equal to the expected one")
  /\ files (fs (snd short)) !! "/data/blob"%string = None
  /\ is_ok (fst wrong) = false
  /\ files (fs (snd wrong)) !! "/data/blob"%string = None.
Proof. cbv zeta. repeat split; vm_compute; reflexivity. Qed.

End DownloadFacts.

(** ** [std::set]: one element of each equivalence class, the first inserted *)

Module SetFacts.
Import offline.

Section Insert.
Context {A : Type}.
Variable comp : A -> A -> bool.
Variable P : A -> Prop.
Hypothesis comp_irrefl : forall a, P a -> comp a a = false.
Hypothesis comp_trans :
  forall a b c, P a -> P b -> P c -> comp a b = true -> comp b c = true -> comp a c = true.
Hypothesis equiv_trans :
  forall a b c, P a -> P b -> P c ->
                equiv comp a b = true -> equiv comp b c = true -> equiv comp a c = true.

Local Abbreviation ordered := (StronglySorted (fun a b => comp a b = true)).
Local Abbreviation insert_all := (insert_all comp).
Local Abbreviation first_equiv := (first_equiv comp).

Lemma equiv_sym a b : equiv comp a b = equiv comp b a.
Proof. unfold equiv. apply andb_comm. Qed.

Lemma equiv_refl a : P a -> equiv comp a a = true.
Proof. intros H. unfold equiv. now rewrite comp_irrefl. Qed.

Lemma comp_not_equiv a b : comp a b = true -> equiv comp a b = false.
Proof. unfold equiv. now intros ->. Qed.

Lemma In_set_insert x s z : In z (set_insert comp x s) -> z = x \/ In z s.
Proof.
  induction s as [|y r IH]; simpl.
  - intros [<-|[]]. now left.
  - destruct (comp y x).
    + intros [<-|H]; [right; now left|]. destruct (IH H); auto.
    + destruct (comp x y); simpl; intros H; [destruct H as [<-|H]|]; auto.
Qed.

Lemma set_insert_keeps x s z : In z s -> In z (set_insert comp x s).
Proof.
  induction s as [|y r IH]; simpl; [tauto|].
  intros H. destruct (comp y x).
  - destruct H as [<-|H]; [now left | right; auto].
  - destruct (comp x y); simpl; tauto.
Qed.

(** An element equivalent to one of the set is not inserted. *)
Lemma set_insert_equiv x s :
  P x -> Forall P s -> ordered s ->
  (exists y, In y s /\ equiv comp x y = true) -> set_insert comp x s = s.
Proof.
  intros Px. induction s as [|y r IH]; intros HP Hs (z & Hz & Hxz); [destruct Hz|].
  inversion HP as [|? ? Py HPr]; subst. inversion Hs as [|? ? Hr Hy]; subst.
  simpl. destruct (comp y x) eqn:Cyx.
  - f_equal. apply IH; try assumption.
    exists z. split; [|exact Hxz]. destruct Hz as [<-|Hz]; [|exact Hz].
    rewrite equiv_sym, (comp_not_equiv _ _ Cyx) in Hxz. discriminate.
  - destruct (comp x y) eqn:Cxy; [|reflexivity]. exfalso.
    destruct Hz as [<-|Hz].
    + rewrite (comp_not_equiv _ _ Cxy) in Hxz. discriminate.
    + rewrite List.Forall_forall in Hy, HPr.
      rewrite (comp_not_equiv x z) in Hxz; [discriminate|].
      apply (comp_trans x y z); auto.
Qed.

(** An element equivalent to none of the set is inserted in order. *)
Lemma set_insert_new x s :
  P x -> Forall P s -> ordered s ->
  (forall y, In y s -> equiv comp x y = false) ->
  ordered (set_insert comp x s) /\ In x (set_insert comp x s).
Proof.
  intros Px. induction s as [|y r IH]; intros HP Hs Hne.
  - simpl. split; [repeat constructor | now left].
  - inversion HP as [|? ? Py HPr]; subst. inversion Hs as [|? ? Hr Hy]; subst.
    simpl. destruct (comp y x) eqn:Cyx.
    + destruct IH as [IH1 IH2]; try assumption.
      { intros z Hz. apply Hne. now right. }
      split; [|now right]. constructor; [exact IH1|].
      apply List.Forall_forall. intros z Hz. apply In_set_insert in Hz as [->|Hz]; [exact Cyx|].
      rewrite List.Forall_forall in Hy. auto.
    + assert (Cxy : comp x y = true).
      { specialize (Hne y (or_introl eq_refl)). unfold equiv in Hne.
        rewrite Cyx in Hne. simpl in Hne. destruct (comp x y); [reflexivity | discriminate]. }
      rewrite Cxy. split; [|now left]. constructor; [exact Hs|].
      constructor; [exact Cxy|]. apply List.Forall_forall. intros z Hz.
      rewrite List.Forall_forall in Hy, HPr. apply (comp_trans x y z); auto.
Qed.

(** Two elements of an ordered set are the same or not equivalent. *)
Lemma ordered_equiv_eq s a b :
  Forall P s -> ordered s -> In a s -> In b s -> equiv comp a b = true -> a = b.
Proof.
  induction s as [|y r IH]; intros HP Hs Ha Hb Hab; [destruct Ha|].
  inversion HP as [|? ? Py HPr]; subst. inversion Hs as [|? ? Hr Hy]; subst.
  rewrite List.Forall_forall in Hy.
  destruct Ha as [->|Ha], Hb as [->|Hb]; auto.
  - rewrite (comp_not_equiv a b (Hy b Hb)) in Hab. discriminate.
  - rewrite equiv_sym, (comp_not_equiv b a (Hy a Ha)) in Hab. discriminate.
Qed.

Variable keep : A -> bool.

Lemma list_find_app (f : A -> bool) l1 l2 :
  List.find f (l1 ++ l2) = match List.find f l1 with
                           | Some x => Some x
                           | None => List.find f l2
                           end.
Proof.
  induction l1 as [|y r IH]; simpl; [reflexivity|]. now destruct (f y).
Qed.

Lemma insert_all_snoc l x :
  insert_all keep (l ++ [x])
  = if keep x then set_insert comp x (insert_all keep l) else insert_all keep l.
Proof. unfold offline.insert_all. now rewrite fold_left_app. Qed.

Lemma first_equiv_ext t t' l :
  P t -> P t' -> (forall y, In y l -> keep y = true -> P y) -> equiv comp t t' = true ->
  first_equiv keep t l = first_equiv keep t' l.
Proof.
  intros Pt Pt' HP Htt'. unfold offline.first_equiv.
  induction l as [|y r IH]; [reflexivity|].
  simpl. rewrite IH by (intros z Hz; apply HP; now right).
  destruct (keep y) eqn:Ky; [|reflexivity]. simpl.
  assert (Py : P y) by (apply HP; [now left | exact Ky]).
  assert (E : equiv comp y t = equiv comp y t').
  { destruct (equiv comp y t) eqn:E1, (equiv comp y t') eqn:E2; try reflexivity.
    - rewrite (equiv_trans y t t') in E2; auto.
    - rewrite (equiv_trans y t' t) in E1; auto. now rewrite equiv_sym. }
  now rewrite E.
Qed.

(** What the loop leaves in the set: kept elements of the list, in order, and
    for every kept element of the list the first one equivalent to it. *)
Lemma insert_all_inv l :
  (forall y, In y l -> keep y = true -> P y) ->
  Forall P (insert_all keep l) /\ ordered (insert_all keep l)
  /\ (forall z, In z (insert_all keep l) -> In z l /\ keep z = true)
  /\ (forall t, In t l -> keep t = true ->
                exists first, first_equiv keep t l = Some first /\ In first (insert_all keep l)).
Proof.
  induction l as [|x l IH] using rev_ind; intros HP.
  - unfold offline.insert_all. simpl.
    split; [constructor | split; [constructor | split; intros ? []]].
  - assert (HPl : forall y, In y l -> keep y = true -> P y)
      by (intros y Hy; apply HP, in_app_iff; now left).
    destruct (IH HPl) as (IP & IO & II & IF). clear IH.
    rewrite insert_all_snoc.
    assert (Hfirst : forall t, keep t = true -> In t (l ++ [x]) ->
              forall s', (forall z, In z (insert_all keep l) -> In z s') ->
                         (first_equiv keep t l = None -> t = x -> In x s') ->
                         exists first, first_equiv keep t (l ++ [x]) = Some first /\ In first s').
    { intros t Kt Ht s' Hmono Hnew.
      assert (Pt : P t) by now apply HP.
      assert (Happ : first_equiv keep t (l ++ [x])
                     = match first_equiv keep t l with
                       | Some f => Some f
                       | None => first_equiv keep t [x]
                       end) by apply list_find_app.
      rewrite Happ. destruct (first_equiv keep t l) as [f|] eqn:Ef.
      - exists f. split; [reflexivity|]. apply Hmono.
        destruct (find_some _ _ Ef) as [Hfl Hfp]. apply andb_true_iff in Hfp as [Kf Eft].
        destruct (IF f Hfl Kf) as (f' & Hf' & Hin).
        rewrite (first_equiv_ext f t l (HPl f Hfl Kf) Pt HPl Eft), Ef in Hf'.
        now injection Hf' as <-.
      - assert (Htx : t = x).
        { apply in_app_iff in Ht as [Ht|[<-|[]]]; [|reflexivity]. exfalso.
          pose proof (find_none _ _ Ef t Ht) as Hn. simpl in Hn.
          rewrite Kt, (equiv_refl t Pt) in Hn. discriminate. }
        subst t. unfold offline.first_equiv. simpl. rewrite Kt, (equiv_refl x Pt). simpl.
        exists x. split; [reflexivity|]. now apply Hnew. }
    destruct (keep x) eqn:Kx.
    + assert (Px : P x) by (apply HP; [apply in_app_iff; right; now left | exact Kx]).
      destruct (existsb (fun y => equiv comp x y) (insert_all keep l)) eqn:Ex.
      * apply existsb_exists in Ex.
        rewrite (set_insert_equiv x (insert_all keep l) Px IP IO Ex).
        split; [exact IP | split; [exact IO | split]].
        -- intros z Hz. destruct (II z Hz). split; [apply in_app_iff; now left | assumption].
        -- intros t Ht Kt. apply (Hfirst t); auto.
           intros Hnone ->. exfalso. destruct Ex as (y & Hy & Hxy).
           destruct (II y Hy) as [Hyl Ky].
           pose proof (find_none _ _ Hnone y Hyl) as Hn. simpl in Hn.
           rewrite Ky, equiv_sym, Hxy in Hn. discriminate.
      * assert (Hne : forall y, In y (insert_all keep l) -> equiv comp x y = false).
        { intros y Hy. destruct (equiv comp x y) eqn:E; [|reflexivity].
          assert (existsb (fun y => equiv comp x y) (insert_all keep l) = true)
            by (apply existsb_exists; eauto). congruence. }
        destruct (set_insert_new x (insert_all keep l) Px IP IO Hne) as [HO Hin].
        split; [|split; [exact HO | split]].
        -- apply List.Forall_forall. intros z Hz. apply In_set_insert in Hz as [->|Hz]; [exact Px|].
           rewrite List.Forall_forall in IP. auto.
        -- intros z Hz. apply In_set_insert in Hz as [->|Hz].
           ++ split; [apply in_app_iff; right; now left | exact Kx].
           ++ destruct (II z Hz). split; [apply in_app_iff; now left | assumption].
        -- intros t Ht Kt. apply (Hfirst t); auto.
           intros z Hz. now apply set_insert_keeps.
    + split; [exact IP | split; [exact IO | split]].
      * intros z Hz. destruct (II z Hz). split; [apply in_app_iff; now left | assumption].
      * intros t Ht Kt. apply (Hfirst t); auto.
        intros _ ->. congruence.
Qed.

End Insert.

End SetFacts.

(** ** The target selector *)

Module SelectorFacts.
Import Docker offline Doubles SetFacts.

Lemma strict_weak_on_spec {A : Type} (comp : A -> A -> bool) (l : list A) :
  strict_weak_on comp l = true ->
  (forall a, In a l -> comp a a = false)
  /\ (forall a b c, In a l -> In b l -> In c l ->
                   comp a b = true -> comp b c = true -> comp a c = true)
  /\ (forall a b c, In a l -> In b l -> In c l ->
                   equiv comp a b = true -> equiv comp b c = true -> equiv comp a c = true).
Proof.
  unfold strict_weak_on. intros H. apply andb_true_iff in H as [H1 H2].
  rewrite forallb_forall in H1, H2.
  assert (H3 : forall a b c, In a l -> In b l -> In c l ->
             implb (comp a b && comp b c) (comp a c) = true
             /\ implb (equiv comp a b && equiv comp b c) (equiv comp a c) = true).
  { intros a b c Ha Hb Hc. specialize (H2 a Ha). rewrite forallb_forall in H2.
    specialize (H2 b Hb). rewrite forallb_forall in H2.
    specialize (H2 c Hc). now apply andb_true_iff in H2. }
  split; [|split].
  - intros a Ha. specialize (H1 a Ha). now destruct (comp a a).
  - intros a b c Ha Hb Hc Hab Hbc. destruct (H3 a b c Ha Hb Hc) as [H _].
    rewrite Hab, Hbc in H. exact H.
  - intros a b c Ha Hb Hc Hab Hbc. destruct (H3 a b c Ha Hb Hc) as [_ H].
    rewrite Hab, Hbc in H. exact H.
Qed.

(** Two targets whose versions compare equal, either way round, are
    equivalent for the set. *)
Lemma compare_equal_equiv (strverscmp : string -> string -> Z) (u t : Target) :
  strverscmp (custom_version u) (custom_version t) = 0%Z ->
  strverscmp (custom_version t) (custom_version u) = 0%Z ->
  equiv (target_sort strverscmp) u t = true.
Proof. unfold equiv, target_sort. now intros -> ->. Qed.

(** C9: the candidates are a set ordered by [strverscmp] on the version, so
    of the targets for the device that are equivalent under that order (their
    versions compare equal) exactly one is a candidate, the first of them in
    the signed target list; any other one is not among the candidates.  The
    comparison is assumed to be a strict weak ordering on the versions of the
    targets for the device, as [std::set] requires. *)
Theorem available_targets_keep_first_of_equal_versions
    (strverscmp : string -> string -> Z) (hw_id : string) (allTargets : list Target) (t : Target) :
  strict_weak_on (target_sort strverscmp) (List.filter (eligible hw_id) allTargets) = true ->
  In t allTargets -> eligible hw_id t = true ->
  exists first,
    first_equiv (target_sort strverscmp) (eligible hw_id) t allTargets = Some first
    /\ In first (available_targets strverscmp hw_id allTargets)
    /\ (forall u, In u (available_targets strverscmp hw_id allTargets) ->
                  equiv (target_sort strverscmp) u t = true -> u = first)
    /\ (t <> first -> ~ In t (available_targets strverscmp hw_id allTargets)).
Proof.
  intros Hswo Ht Kt.
  destruct (strict_weak_on_spec _ _ Hswo) as (Hirr & Htr & Heq).
  set (comp := target_sort strverscmp) in *.
  set (P := fun z => In z (List.filter (eligible hw_id) allTargets)).
  assert (Pin : forall z, In z allTargets -> eligible hw_id z = true -> P z)
    by (intros z Hz Kz; apply filter_In; now split).
  assert (Htr' : forall a b c, P a -> P b -> P c ->
             equiv comp a b = true -> equiv comp b c = true -> equiv comp a c = true)
    by exact Heq.
  destruct (insert_all_inv comp P Hirr Htr Htr' (eligible hw_id) allTargets Pin)
    as (IP & IO & II & IF).
  destruct (IF t Ht Kt) as (first & Hfirst & Hin).
  destruct (find_some _ _ Hfirst) as [Hfl Hfp]. apply andb_true_iff in Hfp as [Kf Eft].
  assert (Huniq : forall u, In u (available_targets strverscmp hw_id allTargets) ->
            equiv comp u t = true -> u = first).
  { intros u Hu Eut. destruct (II u Hu) as [Hul Ku].
    apply (ordered_equiv_eq comp P (insert_all comp (eligible hw_id) allTargets)); auto.
    apply (Htr' u t first); auto. now rewrite equiv_sym. }
  exists first. split; [exact Hfirst | split; [exact Hin | split; [exact Huniq|]]].
  intros Hne Hint. apply Hne, Huniq; [exact Hint|].
  apply (equiv_refl comp P Hirr). auto.
Qed.

(** C9 on three targets for the device, the first two of version 2: the
    first is a candidate, the second is not. *)
Lemma available_targets_keep_first_of_equal_versions_witness :
  exists first,
    first_equiv (target_sort Glibc.strverscmp) (eligible "hw") V2b [V2a; V2b; V10] = Some first
    /\ In first (available_targets Glibc.strverscmp "hw" [V2a; V2b; V10])
    /\ (forall u, In u (available_targets Glibc.strverscmp "hw" [V2a; V2b; V10]) ->
                  equiv (target_sort Glibc.strverscmp) u V2b = true -> u = first)
    /\ (V2b <> first -> ~ In V2b (available_targets Glibc.strverscmp "hw" [V2a; V2b; V10])).
Proof.
  apply (available_targets_keep_first_of_equal_versions Glibc.strverscmp "hw" [V2a; V2b; V10] V2b).
  - vm_compute. reflexivity.
  - right. left. reflexivity.
  - reflexivity.
Defined.

(** The candidates of those three targets, newest first. *)
Lemma available_targets_of_equal_versions :
  available_targets Glibc.strverscmp "hw" [V2a; V2b; V10] = [V10; V2a].
Proof. reflexivity. Qed.

Lemma contains_In l x : contains l x = true <-> In x l.
Proof.
  unfold contains. rewrite existsb_exists. split.
  - intros (y & Hy & E). apply String.eqb_eq in E. now subst.
  - intros H. exists x. split; [exact H | apply String.eqb_refl].
Qed.

Lemma In_list_remove x y l : In x (list_remove y l) <-> In x l /\ x <> y.
Proof.
  unfold list_remove. rewrite filter_In. split; intros [H1 H2]; split; auto.
  - intros ->. now rewrite String.eqb_refl in H2.
  - destruct (String.eqb_spec x y); [contradiction | reflexivity].
Qed.

(** The loop over the target's apps empties the pending list exactly when
    every app uri found on the medium is the uri of one of the apps. *)
Lemma match_apps_accepts found_apps target_apps pending shortlisted :
  (forall x, In x pending -> In x found_apps) ->
  fst (match_apps found_apps target_apps pending shortlisted) = []
  <-> forall x, In x pending -> In x (map app_uri target_apps).
Proof.
  revert pending shortlisted.
  induction target_apps as [|a rest IH]; intros pending shortlisted Hsub; simpl.
  - split; [intros -> x [] | intros H].
    destruct pending as [|p ps]; [reflexivity | destruct (H p); now left].
  - destruct pending as [|p ps]; [simpl; split; [intros _ x [] | reflexivity]|].
    destruct (contains found_apps (app_uri a)) eqn:Ca; cbv beta iota delta [negb].
    + rewrite IH by (intros x Hx; apply In_list_remove in Hx as [Hx _]; auto).
      split; intros H x Hx.
      * destruct (String.eqb_spec x (app_uri a)) as [->|Hne]; [now left|].
        right. apply H, In_list_remove. now split.
      * apply In_list_remove in Hx as [Hx Hne].
        destruct (H x Hx) as [E|Hin]; [congruence | exact Hin].
    + rewrite IH by exact Hsub.
      split; intros H x Hx; [right; now apply H|].
      destruct (H x Hx) as [E|Hin]; [|exact Hin]. exfalso.
      apply Hsub, contains_In in Hx. congruence.
Qed.

(** The shortlist is made of apps of the target, and holds every app of the
    target whose uri is on the medium unless an app of the same name is
    missing from the medium. *)
Lemma match_apps_shortlist found_apps target_apps pending shortlisted a :
  (In a (snd (match_apps found_apps target_apps pending shortlisted)) -> In a shortlisted)
  /\ (In a shortlisted ->
      (forall b, In b target_apps -> app_name b = app_name a ->
                 contains found_apps (app_uri b) = true) ->
      In a (snd (match_apps found_apps target_apps pending shortlisted))).
Proof.
  revert pending shortlisted.
  induction target_apps as [|b rest IH]; intros pending shortlisted; simpl; [tauto|].
  destruct pending as [|p ps]; [simpl; tauto|].
  destruct (contains found_apps (app_uri b)) eqn:Cb; cbv beta iota delta [negb].
  - destruct (IH (list_remove (app_uri b) (p :: ps)) shortlisted) as [I1 I2].
    split; [exact I1 | intros Ha Hn; apply I2; auto].
  - destruct (IH (p :: ps) (removeMember (app_name b) shortlisted)) as [I1 I2].
    unfold removeMember in *. split.
    + intros H. apply I1, filter_In in H. tauto.
    + intros Ha Hn. apply I2; [|auto]. apply filter_In. split; [exact Ha|].
      destruct (String.eqb_spec (app_name a) (app_name b)) as [E|]; [|reflexivity].
      rewrite (Hn b (or_introl eq_refl) (eq_sym E)) in Cb. discriminate.
Qed.

Lemma satisfies_spec commits found t :
  satisfies commits found t = true
  <-> In (sha256Hash t) commits /\ forall x, In x found -> In x (map app_uri (apps t)).
Proof.
  unfold satisfies. rewrite andb_true_iff, contains_In, forallb_forall.
  split; intros [H1 H2]; (split; [exact H1|]); intros x Hx; apply contains_In; auto.
Qed.

(** The selection: the first candidate the bundle satisfies, with a
    shortlist of its apps, and [Unknown] when the bundle satisfies none. *)
Lemma find_target_first_satisfied commits found available :
  match List.find (satisfies commits found) available with
  | Some t =>
      exists shortlisted,
        find_target commits found available = with_apps t shortlisted
        /\ (forall a, In a shortlisted -> In a (apps t))
        /\ (forall a, In a (apps t) ->
                      (forall b, In b (apps t) -> app_name b = app_name a ->
                                 contains found (app_uri b) = true) ->
                      In a shortlisted)
  | None => find_target commits found available = Unknown
  end.
Proof.
  induction available as [|t rest IH]; simpl; [reflexivity|].
  pose proof (match_apps_accepts found (apps t) found (apps t) (fun x H => H)) as Hacc.
  unfold satisfies at 1.
  destruct (contains commits (sha256Hash t)); simpl; [|exact IH].
  destruct (match_apps found (apps t) found (apps t)) as [pending shortlisted] eqn:E.
  simpl in Hacc.
  destruct (forallb (contains (map app_uri (apps t))) found) eqn:F.
  - assert (Hp : pending = []).
    { apply Hacc. rewrite forallb_forall in F. intros x Hx. now apply contains_In, F. }
    subst pending. exists shortlisted. split; [reflexivity|].
    split; intros a.
    + intros Ha. apply (match_apps_shortlist found (apps t) found (apps t) a).
      now rewrite E.
    + intros Ha Hn.
      destruct (match_apps_shortlist found (apps t) found (apps t) a) as [_ H].
      rewrite E in H. now apply H.
  - destruct pending as [|p ps]; [|exact IH].
    exfalso. assert (forallb (contains (map app_uri (apps t))) found = true); [|congruence].
    apply forallb_forall. intros x Hx. apply contains_In. now apply Hacc.
Qed.

(** C1, at the offline selection scenario: the medium holds the commit of
    [T2] and the app [A] only; [T2] is selected and keeps both its apps, [B]
    included, whose uri is not on the medium.  Once the apps found on the
    medium are all accounted for, the loop over the target's apps stops, and
    the apps it has not reached stay in the shortlist. *)
Theorem getTarget_keeps_app_missing_from_medium :
  parseUpdateContent bundle = (["C1"], [uri_A])
  /\ available_targets Glibc.strverscmp "hw" [T1; T2] = [T2; T1]
  /\ getTarget Glibc.strverscmp "hw" [T1; T2] bundle = with_apps T2 [("A", uri_A); ("B", uri_B)]
  /\ contains (snd (parseUpdateContent bundle)) uri_B = false.
Proof. repeat split; vm_compute; reflexivity. Qed.

End SelectorFacts.

(** ** The image registrar *)

Module RegistrarFacts.
Import Docker offline Doubles.

Lemma register_image_same r k d d' (m : Index) :
  register_image r k d (register_image r k d' m) = register_image r k d m.
Proof.
  unfold register_image. rewrite lookup_insert_eq. simpl.
  now rewrite !insert_insert_eq.
Qed.

Lemma register_image_comm r k d r' k' d' (m : Index) :
  (r, k) <> (r', k') ->
  register_image r k d (register_image r' k' d' m)
  = register_image r' k' d' (register_image r k d m).
Proof.
  intros Hne. unfold register_image.
  destruct (decide (r = r')) as [->|Hr].
  - assert (Hk : k <> k') by congruence.
    rewrite !lookup_insert_eq. simpl. rewrite !insert_insert_eq.
    f_equal. now apply insert_insert_ne.
  - rewrite !lookup_insert_ne by congruence. now apply insert_insert_ne.
Qed.

Lemma write_entries_absorb e entries (m : Index) :
  write_entries [e] (write_entries entries (write_entries [e] m))
  = write_entries [e] (write_entries entries m).
Proof.
  induction entries as [|y a IH] using rev_ind; simpl.
  - destruct e as [[r k] d]. simpl. apply register_image_same.
  - unfold write_entries in *. rewrite !fold_left_app. simpl in *.
    destruct e as [[r k] d], y as [[r' k'] d']. simpl in *.
    destruct (decide ((r, k) = (r', k'))) as [[= <- <-]|Hne].
    + rewrite !register_image_same. exact IH.
    + rewrite !(register_image_comm r k d r' k' d') by exact Hne. now rewrite IH.
Qed.

(** Writing the same entries again changes nothing. *)
Lemma write_entries_idempotent entries (m : Index) :
  write_entries entries (write_entries entries m) = write_entries entries m.
Proof.
  revert m. induction entries as [|x a IH] using rev_ind; intros m; [reflexivity|].
  unfold write_entries in *. rewrite !fold_left_app.
  change (fold_left _ [x] ?z) with (write_entries [x] z).
  change (fold_left ?f a ?z) with (write_entries a z).
  rewrite write_entries_absorb. unfold write_entries. simpl. now rewrite IH.
Qed.

Section Entries.
Variable store : AppStore.
Variable factory_app_default : bool.
Variable apps_store_root : string.

Local Abbreviation service_entries := (service_entries store apps_store_root).

Lemma register_services_entries app_dir images (repositories repositories' : Index) :
  register_services store apps_store_root app_dir images repositories = Ok repositories' ->
  exists entries, service_entries app_dir images = Ok entries
                  /\ forall m, register_services store apps_store_root app_dir images m
                               = Ok (write_entries entries m).
Proof.
  revert repositories. induction images as [|i rest IH]; intros repositories; simpl.
  - intros _. exists []. split; reflexivity.
  - destruct (parseUri i false) as [u|e]; [|discriminate].
    destruct (HashedDigest_of (json_string_at store _ ["manifests"; "0"; "digest"])) as [md|e];
      [|discriminate].
    destruct (HashedDigest_of (json_string_at store _ ["config"; "digest"])) as [cd|e];
      [|discriminate].
    intros H. destruct (IH _ H) as (entries & -> & Hall).
    eexists. split; [reflexivity|]. intros m. now rewrite Hall.
Qed.

Lemma register_apps_entries target_apps (repositories repositories' : Index) :
  register_apps store factory_app_default apps_store_root target_apps repositories
    = Ok repositories' ->
  exists entries, forall m, register_apps store factory_app_default apps_store_root target_apps m
                            = Ok (write_entries entries m).
Proof.
  revert repositories. induction target_apps as [|a rest IH]; intros repositories; simpl.
  - intros _. exists []. reflexivity.
  - destruct (parseUri (app_uri a) factory_app_default) as [u|e]; [|discriminate].
    destruct (exists_ store _); simpl.
    + destruct (compose_images store _) as [images|e]; [|discriminate].
      destruct (register_services store apps_store_root _ images repositories) as [r1|e] eqn:E;
        [|discriminate].
      destruct (register_services_entries _ _ _ _ E) as (entries & _ & Hall).
      intros H. destruct (IH _ H) as (more & Hmore).
      exists (entries ++ more)%list. intros m. rewrite Hall, Hmore.
      unfold write_entries. now rewrite fold_left_app.
    + intros H. destruct (IH _ H) as (more & Hmore). exists more. exact Hmore.
Qed.

End Entries.

(** C8: with the app store and the docker root fixed, a second run of
    [registerApps] for the same target leaves the files the first run left:
    the repositories index it writes is the very text the first run wrote.
    (The JSON library reads back what it has written.) *)
Theorem registerApps_idempotent (J : JsonLib) (store : AppStore) (factory_app_default : bool)
    (apps_store_root docker_root : string) (target : Target) (files files1 : gmap string string) :
  (forall index, parseJSON J (writeJSON J index) = index) ->
  registerApps J store factory_app_default apps_store_root target docker_root files = Ok files1 ->
  registerApps J store factory_app_default apps_store_root target docker_root files1 = Ok files1
  /\ exists text, files1 !! (docker_root ++ "/image/overlay2/repositories.json") = Some text.
Proof.
  intros Hround. unfold registerApps.
  set (file := docker_root ++ "/image/overlay2/repositories.json").
  set (start := match files !! file with
                | Some content => parseJSON J content
                | None => parseJSON J ("{" ++ quoted "Repositories" ++ ":{}}")
                end).
  destruct (register_apps store factory_app_default apps_store_root (apps target) start)
    as [written|e] eqn:E; [|discriminate].
  intros [= <-].
  destruct (register_apps_entries _ _ _ _ _ _ E) as (entries & Hall).
  rewrite Hall in E. injection E as <-.
  rewrite lookup_insert_eq, Hround, Hall, write_entries_idempotent, insert_insert_eq.
  split; [reflexivity | eauto].
Qed.

Lemma json_lib_round_trip index : parseJSON json_lib (writeJSON json_lib index) = index.
Proof.
  assert (Hbits : forall p, read_bits (write_bits p) = p)
    by (induction p; simpl; congruence).
  assert (Hne : forall p, String.eqb (write_bits p) empty_index_text = false)
    by (intros [p|p|]; reflexivity).
  simpl. rewrite Hne, Hbits, decode_encode. reflexivity.
Qed.

(** The registrar scenario: the one service of the app [A] of [T2] is
    registered under its repository, pinned reference to config digest. *)
Lemma register_apps_splices_image :
  register_apps app_store true "/store" (apps T2) ∅
  = Ok {[ "h/r" := {[ image_uri := "sha256:" ++ Str.repeat "c" 64 ]} ]}.
Proof. vm_compute. reflexivity. Qed.

(** C8 on that store, from a docker root without an index. *)
Lemma registerApps_idempotent_witness :
  exists files1,
    registerApps json_lib app_store true "/store" T2 "/var/lib/docker" ∅ = Ok files1
    /\ registerApps json_lib app_store true "/store" T2 "/var/lib/docker" files1 = Ok files1.
Proof.
  eexists. split.
  - unfold registerApps. rewrite lookup_empty.
    change (parseJSON json_lib ("{" ++ quoted "Repositories" ++ ":{}}")) with (∅ : Index).
    rewrite register_apps_splices_image. reflexivity.
  - apply (registerApps_idempotent json_lib app_store true "/store" "/var/lib/docker" T2 ∅).
    + exact json_lib_round_trip.
    + unfold registerApps. rewrite lookup_empty.
      change (parseJSON json_lib ("{" ++ quoted "Repositories" ++ ":{}}")) with (∅ : Index).
      rewrite register_apps_splices_image. reflexivity.
Defined.

End RegistrarFacts.

(** ** The run driver *)

Module DriverFacts.
Import Docker offline Doubles.

(** C10: when the metadata check passes, a valid target is selected, the
    booted commit is the target's and the apps are downloaded again, [run]
    calls [install] and drops the result code it returns: the outcome is
    decided by [isTargetActive] on the state [install] leaves, and is success
    whenever the target is active, whatever the result code was. *)
Theorem run_discards_install_result {C : Type} (ops : LiteClient.Ops C)
    (strverscmp : string -> string -> Z) (client0 : C) (src : UpdateSrc) :
  let chk := LiteClient.checkImageMetaOffline client0 in
  let client := snd chk in
  let target := getTarget strverscmp (LiteClient.primary_ecu_second client)
                          (LiteClient.allTargets client) src in
  let dl := LiteClient.download client target ("offline update of " ++ filename target) in
  let inst := LiteClient.install (snd dl) target in
  fst chk = true ->
  IsValid target = true ->
  sha256Hash (LiteClient.getCurrent client) = sha256Hash target ->
  fst (fst dl) = true ->
  run strverscmp client0 src
  = (if LiteClient.isTargetActive (snd inst) target
     then Ok tt
     else Err (runtime_error ("The installed Target is not running: " ++ filename target)),
     snd inst).
Proof.
  cbv zeta. intros Hchk Hvalid Hsha Hdl.
  unfold run, run_apply. rewrite Hchk, Hvalid, Hsha, String.eqb_refl, Hdl. simpl.
  now destruct (LiteClient.isTargetActive _ _).
Qed.

(** C10 on a device that has booted [T2] and on which [install] answers
    [kInstallFailed]: [run] succeeds. *)
Lemma run_discards_install_result_witness :
  let device := mkDevice [T1; T2] T2 true 0 in
  fst (LiteClient.install (Ops := failing_install) device T2) = kInstallFailed
  /\ run (ops := failing_install) Glibc.strverscmp device bundle
     = (Ok tt, mkDevice [T1; T2] T2 true 1).
Proof.
  cbv zeta. split; [reflexivity|].
  apply (run_discards_install_result failing_install Glibc.strverscmp
           (mkDevice [T1; T2] T2 true 0) bundle); reflexivity.
Defined.

End DriverFacts.

(** ** Pinned references: canonical digests and round trips *)

Module PinnedFacts.
Import Str StrFacts Docker DigestFacts UriFacts.

Lemma lower_char_idem c : lower_char (lower_char c) = lower_char c.
Proof. destruct c as [[] [] [] [] [] [] [] []]; reflexivity. Qed.

Lemma to_lower_idem s : to_lower (to_lower s) = to_lower s.
Proof. induction s as [|c r IH]; simpl; [reflexivity|]. now rewrite lower_char_idem, IH. Qed.

Lemma HashedDigest_of_to_lower s s' :
  to_lower s = to_lower s' ->
  forall d, HashedDigest_of s = Ok d -> HashedDigest_of s' = Ok d.
Proof.
  intros E d. rewrite !HashedDigest_of_unfold, E.
  destruct (negb (String.eqb "sha256:" (take 7 (to_lower s')))); [discriminate|].
  destruct (negb (Nat.eqb 64 (String.length (drop 7 (to_lower s'))))); [discriminate|].
  trivial.
Qed.

Lemma HashedDigest_of_digest_ s d : HashedDigest_of s = Ok d -> HashedDigest_of (digest_ d) = Ok d.
Proof.
  intros H. apply (HashedDigest_of_to_lower s); [|exact H].
  rewrite HashedDigest_of_unfold in H.
  destruct (negb (String.eqb "sha256:" (take 7 (to_lower s)))); [discriminate|].
  destruct (negb (Nat.eqb 64 (String.length (drop 7 (to_lower s))))); [discriminate|].
  injection H as <-. simpl. now rewrite to_lower_idem.
Qed.

(** X1.  A digest is kept in one spelling: whatever the case of the letters
    the constructor was given, it stores the lower-case string, and building a
    digest again from the stored string [d()] (as [Uri::createUri] and the
    registrar do), or from any spelling of the input that differs in case
    only, gives the same digest. *)
Theorem HashedDigest_canonical (s s' : string) (d : HashedDigest) :
  HashedDigest_of s = Ok d ->
  to_lower s' = to_lower s ->
  digest_ d = to_lower s
  /\ HashedDigest_of (digest_ d) = Ok d
  /\ HashedDigest_of s' = Ok d.
Proof.
  intros H E. split; [|split].
  - rewrite HashedDigest_of_unfold in H.
    destruct (negb (String.eqb "sha256:" (take 7 (to_lower s)))); [discriminate|].
    destruct (negb (Nat.eqb 64 (String.length (drop 7 (to_lower s))))); [discriminate|].
    now injection H as <-.
  - exact (HashedDigest_of_digest_ s d H).
  - exact (HashedDigest_of_to_lower s s' (eq_sym E) d H).
Qed.

Lemma HashedDigest_canonical_witness :
  HashedDigest_of ("SHA256:" ++ Str.repeat "A" 64) = Ok (digest_for (Str.repeat "A" 64))
  /\ digest_ (digest_for (Str.repeat "A" 64)) = "sha256:" ++ Str.repeat "a" 64
  /\ HashedDigest_of (digest_ (digest_for (Str.repeat "A" 64))) = Ok (digest_for (Str.repeat "A" 64))
  /\ HashedDigest_of ("Sha256:" ++ Str.repeat "a" 64) = Ok (digest_for (Str.repeat "A" 64)).
Proof.
  assert (H : HashedDigest_of ("SHA256:" ++ Str.repeat "A" 64) = Ok (digest_for (Str.repeat "A" 64)))
    by reflexivity.
  split; [exact H|].
  exact (HashedDigest_canonical ("SHA256:" ++ Str.repeat "A" 64) ("Sha256:" ++ Str.repeat "a" 64)
           (digest_for (Str.repeat "A" 64)) H eq_refl).
Defined.

Lemma parseUri_fields s fm u :
  parseUri s fm = Ok u ->
  exists dig,
    s = registryHostname u ++ "/" ++ repo u ++ "@" ++ dig
    /\ mem "/" (registryHostname u) = false /\ mem "@" (registryHostname u) = false
    /\ mem "@" (repo u) = false /\ repo u <> EmptyString
    /\ HashedDigest_of dig = Ok (digest u)
    /\ (factory u, app u) = split_repo (repo u)
    /\ fm && (String.eqb (factory u) EmptyString || bool_decide (is_Some (find "/" (factory u)))) = false.
Proof.
  intros H. destruct (parseUri_decompose s fm u H) as (host & name & dig & -> & Hh & Hh' & Hn & Hne).
  rewrite (parseUri_eq host name dig fm Hh Hh' Hn Hne) in H.
  destruct (fm && _) eqn:Ef; [discriminate|].
  destruct (HashedDigest_of dig) as [d|] eqn:Ed; [|discriminate].
  injection H as <-. cbn [registryHostname repo digest factory app]. exists dig.
  repeat split; try assumption; exact Ef.
Qed.

(** X2.  A parsed reference can be written back and read again: the string
    [<host>/<repo>@<digest>] made of the fields of a parsed [Uri] and of any
    well-formed digest parses, under the same flag, to [createUri] of that
    [Uri] and digest; with the [Uri]'s own digest it parses to the [Uri]
    itself.  [createUri] changes the digest and nothing else. *)
Theorem parseUri_createUri_round_trip (s x : string) (fm : bool) (u : Uri) (d : HashedDigest) :
  parseUri s fm = Ok u ->
  HashedDigest_of x = Ok d ->
  parseUri (registryHostname u ++ "/" ++ repo u ++ "@" ++ digest_ d) fm = Ok (createUri u d)
  /\ parseUri (registryHostname u ++ "/" ++ repo u ++ "@" ++ digest_ (digest u)) fm = Ok u.
Proof.
  intros H Hd.
  destruct (parseUri_fields s fm u H) as (dig & _ & Hh & Hh' & Hn & Hne & Hdig & Hsplit & Hf).
  assert (F : forall y e, HashedDigest_of y = Ok e ->
              parseUri (registryHostname u ++ "/" ++ repo u ++ "@" ++ digest_ e) fm
              = Ok (createUri u e)).
  { intros y e He. rewrite (parseUri_eq _ _ _ fm Hh Hh' Hn Hne).
    rewrite <- Hsplit. cbn [fst snd]. rewrite Hf, (HashedDigest_of_digest_ y e He).
    reflexivity. }
  split; [exact (F x d Hd)|].
  rewrite (F dig (digest u) Hdig). now destruct u.
Qed.

Lemma parseUri_createUri_round_trip_witness :
  let u := mkUri (digest_for (Str.repeat "A" 64)) "app" "factory" "factory/app" "hub.foundries.io" in
  let d := digest_for (Str.repeat "b" 64) in
  parseUri ("hub.foundries.io/factory/app@sha256:" ++ Str.repeat "b" 64) true = Ok (createUri u d)
  /\ parseUri ("hub.foundries.io/factory/app@sha256:" ++ Str.repeat "a" 64) true = Ok u.
Proof.
  exact (parseUri_createUri_round_trip
           ("hub.foundries.io/factory/app@SHA256:" ++ Str.repeat "A" 64)
           ("sha256:" ++ Str.repeat "b" 64) true
           (mkUri (digest_for (Str.repeat "A" 64)) "app" "factory" "factory/app" "hub.foundries.io")
           (digest_for (Str.repeat "b" 64)) eq_refl eq_refl).
Defined.

(** X3.  The factory flag only adds a check: a reference parses in factory
    mode exactly when it parses without the flag and the part of the
    repository name before its last ['/'] is not empty and has no ['/']; the
    two modes give the same [Uri]. *)
Theorem parseUri_factory_mode_restricts (s : string) (u : Uri) :
  parseUri s true = Ok u
  <-> parseUri s false = Ok u /\ factory u <> EmptyString /\ mem "/" (factory u) = false.
Proof.
  split.
  - intros H.
    destruct (parseUri_fields s true u H) as (dig & Es & Hh & Hh' & Hn & Hne & Hdig & Hsplit & Hf).
    split.
    + rewrite Es at 1. rewrite (parseUri_eq _ _ _ false Hh Hh' Hn Hne), Hdig.
      cbn [andb]. rewrite <- Hsplit. now destruct u.
    + exact (factory_check_true true (factory u) Hf eq_refl).
  - intros (H & Hfe & Hfs).
    destruct (parseUri_fields s false u H) as (dig & Es & Hh & Hh' & Hn & Hne & Hdig & Hsplit & _).
    rewrite Es at 1. rewrite (parseUri_eq _ _ _ true Hh Hh' Hn Hne), Hdig, <- Hsplit.
    cbn [fst snd]. rewrite (factory_check_false true (factory u)) by (intros _; now split).
    now destruct u.
Qed.

End PinnedFacts.

(** ** Bearer challenges *)

Module ChallengeFacts.
Import Str StrFacts Docker offline Doubles Notions RegistryFacts.

Ltac flatten := unfold quoted; repeat first [rewrite app_assoc | progress cbn [String.append]].

Ltac lengths := repeat (rewrite length_app || cbn [String.length]); try lia.

Lemma find_from_app c pre mid post :
  mem c mid = false ->
  find_from c (pre ++ mid ++ String c post) (Some (String.length pre))
  = Some (String.length pre + String.length mid).
Proof.
  intros H. unfold find_from.
  rewrite length_app, drop_app_length, (find_app c mid post H).
  destruct (Nat.ltb_spec (String.length pre + String.length (mid ++ String c post))
                         (String.length pre)); [lia|reflexivity].
Qed.

Lemma find_from_app_none c pre post :
  mem c post = false -> find_from c (pre ++ post) (Some (String.length pre)) = None.
Proof.
  intros H. unfold find_from. rewrite length_app, drop_app_length.
  apply find_None in H. rewrite H.
  destruct (Nat.ltb_spec (String.length pre + String.length post) (String.length pre)); reflexivity.
Qed.

Lemma trim_right_last s c :
  is_space c = false -> trim_right (s ++ String c EmptyString) = s ++ String c EmptyString.
Proof.
  intros H. induction s as [|x s IH]; simpl.
  - now rewrite H.
  - rewrite IH. now destruct s.
Qed.

Lemma substr_middle pre mid post :
  substr (pre ++ mid ++ post) (String.length pre) (String.length mid) = mid.
Proof. unfold substr. now rewrite drop_app_length, take_app_length. Qed.

(** One round of the loop over a parameter [name="val"] that starts at the
    end of [pre]. *)
Lemma bearer_params_round rounds hdr pre name val rest params :
  mem "=" name = false -> mem dquote name = false -> mem dquote val = false ->
  let upto := pre ++ name ++ String "=" (String dquote val) in
  bearer_params_loop (S rounds) hdr (upto ++ String dquote rest) params (Some (String.length pre))
  = bearer_params_loop rounds hdr (upto ++ String dquote rest)
      (<[trim name := trim val]> params)
      (option_map S (find_from "," (upto ++ String dquote rest) (Some (String.length upto)))).
Proof.
  intros Hn Hq Hv upto.
  assert (E1 : upto ++ String dquote rest
               = pre ++ name ++ String "=" (String dquote (val ++ String dquote rest))).
  { unfold upto. rewrite !app_assoc. reflexivity. }
  assert (E2 : upto ++ String dquote rest
               = pre ++ (name ++ String "=" EmptyString)
                     ++ String dquote (val ++ String dquote rest)).
  { rewrite E1, !app_assoc. reflexivity. }
  assert (E3 : upto ++ String dquote rest
               = (pre ++ name ++ String "=" (String dquote EmptyString)) ++ val ++ String dquote rest).
  { rewrite E1, !app_assoc. reflexivity. }
  assert (F1 : find_from "=" (upto ++ String dquote rest) (Some (String.length pre))
               = Some (String.length pre + String.length name)).
  { rewrite E1. now apply find_from_app. }
  assert (F2 : find_from dquote (upto ++ String dquote rest) (Some (String.length pre))
               = Some (String.length pre + String.length name + 1)).
  { rewrite E2, find_from_app.
    - f_equal. lengths.
    - rewrite mem_app, Hq. reflexivity. }
  assert (F3 : find_from dquote (upto ++ String dquote rest)
                 (Some (String.length pre + String.length name + 1 + 1))
               = Some (String.length upto)).
  { rewrite E3.
    replace (String.length pre + String.length name + 1 + 1)
      with (String.length (pre ++ name ++ String "=" (String dquote EmptyString)))
      by lengths.
    rewrite <- (app_nil_r (pre ++ name ++ String "=" (String dquote EmptyString))) at 1.
    rewrite (app_assoc _ EmptyString). cbn [String.append].
    rewrite find_from_app by exact Hv.
    f_equal. unfold upto. lengths. }
  assert (N1 : substr (upto ++ String dquote rest) (String.length pre) (String.length name) = name).
  { rewrite E1. apply substr_middle. }
  assert (N2 : substr (upto ++ String dquote rest)
                 (String.length pre + String.length name + 1 + 1) (String.length val) = val).
  { rewrite E3.
    replace (String.length pre + String.length name + 1 + 1)
      with (String.length (pre ++ name ++ String "=" (String dquote EmptyString)))
      by lengths.
    apply substr_middle. }
  cbn [bearer_params_loop]. rewrite F1, F2.
  destruct (Nat.ltb_spec (String.length pre + String.length name + 1)
                         (String.length pre + String.length name)) as [?|_]; [lia|].
  replace (String.length pre + String.length name + 1 - (String.length pre + String.length name) - 1)
    with 0 by lia.
  unfold substr at 1. cbn [take all negb]. rewrite F3. cbn [default]. unfold id.
  replace (String.length pre + String.length name - String.length pre)
    with (String.length name) by lia.
  replace (String.length upto - (String.length pre + String.length name + 1) - 1)
    with (String.length val) by (unfold upto; lengths).
  rewrite N1, N2. reflexivity.
Qed.

Lemma bearer_params_end rounds hdr bearer_val params :
  bearer_params_loop rounds hdr bearer_val params None = Some (Ok params).
Proof. now destruct rounds. Qed.

Lemma find_comma_after upto rest :
  find_from "," (upto ++ String dquote (String "," rest)) (Some (String.length upto))
  = Some (String.length upto + 1).
Proof. exact (find_from_app "," upto (String dquote EmptyString) rest eq_refl). Qed.

(** X4.  A challenge that lists [realm], [service] and [scope] as
    [name="value"], separated by commas, is read back in full: the
    constructor yields the three values, trimmed, provided no value holds a
    double quote and the word [bearer] does not occur again in the value (the
    constructor cuts the value after the LAST [bearer]). *)
Theorem BearerAuth_of_well_formed_challenge (realm service scope : string) :
  mem dquote realm = false -> mem dquote service = false -> mem dquote scope = false ->
  rfind_str "bearer" (bearer_challenge realm service scope) = Some 0 ->
  BearerAuth_of (bearer_challenge realm service scope)
  = Ok (mkBearerAuth (trim realm) (trim service) (trim scope)).
Proof.
  intros Hr Hs Hc Hlast.
  set (upto1 := EmptyString ++ "realm" ++ String "=" (String dquote realm)).
  set (pre2 := upto1 ++ String dquote (String "," EmptyString)).
  set (upto2 := pre2 ++ "service" ++ String "=" (String dquote service)).
  set (pre3 := upto2 ++ String dquote (String "," EmptyString)).
  set (upto3 := pre3 ++ "scope" ++ String "=" (String dquote scope)).
  set (rest2 := ",scope=" ++ quoted scope).
  set (rest1 := ",service=" ++ quoted service ++ rest2).
  set (bv := upto1 ++ String dquote rest1).
  assert (B2 : bv = upto2 ++ String dquote rest2).
  { unfold bv, upto2, pre2, rest1. flatten. reflexivity. }
  assert (B3 : bv = upto3 ++ String dquote EmptyString).
  { rewrite B2. unfold upto3, pre3, rest2. flatten. reflexivity. }
  assert (V : bearer_challenge realm service scope = "bearer " ++ bv).
  { unfold bearer_challenge, bv, upto1, rest1, rest2. flatten. reflexivity. }
  unfold BearerAuth_of, BearerAuth_AuthType. rewrite Hlast, V.
  change (default 0 (Some 0)) with 0.
  change (starts_with ("bearer " ++ bv) "bearer") with true. cbn [negb].
  change (substr_from ("bearer " ++ bv) (0 + String.length "bearer")) with (String " " bv).
  assert (T : trim (String " " bv) = bv).
  { unfold trim. change (trim_left (String " " bv)) with bv.
    rewrite B3. apply trim_right_last. reflexivity. }
  rewrite T.
  assert (L : exists rounds, String.length bv = S (S rounds)).
  { unfold bv, upto1. cbn [String.append String.length]. eauto. }
  destruct L as (rounds & ->).
  assert (C1 : find_from "," (upto1 ++ String dquote rest1) (Some (String.length upto1))
               = Some (String.length upto1 + 1))
    by exact (find_comma_after upto1 ("service=" ++ quoted service ++ rest2)).
  assert (C2 : find_from "," (upto2 ++ String dquote rest2) (Some (String.length upto2))
               = Some (String.length upto2 + 1))
    by exact (find_comma_after upto2 ("scope=" ++ quoted scope)).
  assert (C3 : find_from "," (upto3 ++ String dquote EmptyString) (Some (String.length upto3))
               = None)
    by exact (find_from_app_none "," upto3 (String dquote EmptyString) eq_refl).
  change (Some 0) with (Some (String.length EmptyString)).
  unfold bv at 1.
  rewrite (bearer_params_round (S (S rounds)) _ EmptyString "realm" realm rest1 ∅ eq_refl eq_refl Hr).
  fold upto1. rewrite C1. fold bv. cbn [option_map].
  replace (S (String.length upto1 + 1)) with (String.length pre2) by (unfold pre2; lengths).
  rewrite B2.
  rewrite (bearer_params_round (S rounds) _ pre2 "service" service rest2 _ eq_refl eq_refl Hs).
  fold upto2. rewrite C2. cbn [option_map].
  replace (S (String.length upto2 + 1)) with (String.length pre3) by (unfold pre3; lengths).
  rewrite <- B2, B3.
  rewrite (bearer_params_round rounds _ pre3 "scope" scope EmptyString _ eq_refl eq_refl Hc).
  fold upto3. rewrite C3.
  cbn [option_map]. rewrite bearer_params_end.
  change (trim "realm") with "realm". change (trim "service") with "service".
  change (trim "scope") with "scope".
  unfold required_params. cbn [List.filter].
  rewrite !lookup_insert_eq || idtac.
  rewrite (lookup_insert_ne _ "scope" "realm") by discriminate.
  rewrite (lookup_insert_ne _ "service" "realm") by discriminate.
  rewrite (lookup_insert_ne _ "scope" "service") by discriminate.
  rewrite !lookup_insert_eq.
  rewrite !bool_decide_eq_true_2 by eauto. reflexivity.
Qed.

Lemma BearerAuth_of_well_formed_challenge_witness :
  BearerAuth_of (bearer_challenge " https://auth.example/token" "registry" "repository:f/app:pull ")
  = Ok (mkBearerAuth "https://auth.example/token" "registry" "repository:f/app:pull").
Proof.
  exact (BearerAuth_of_well_formed_challenge " https://auth.example/token" "registry"
           "repository:f/app:pull " eq_refl eq_refl eq_refl eq_refl).
Defined.

(** X5.  Whatever the header value, the constructor ends, and it ends in a
    challenge or in [std::invalid_argument]: the loop over the parameters
    moves forward in every round, and a value that does not start with
    [bearer] in lower case is turned down before the loop. *)
Theorem BearerAuth_of_outcomes (auth_header_value : string) :
  (exists bearer, BearerAuth_of auth_header_value = Ok bearer
                  /\ starts_with auth_header_value "bearer" = true)
  \/ (exists what, BearerAuth_of auth_header_value = Err (invalid_argument what)).
Proof.
  pose proof (BearerAuth_of_ends auth_header_value) as H.
  destruct (BearerAuth_of auth_header_value) as [b|e] eqn:E.
  - left. exists b. split; [reflexivity|].
    unfold BearerAuth_of, BearerAuth_AuthType in E.
    destruct (starts_with auth_header_value "bearer"); [reflexivity|discriminate].
  - right. destruct H as (what & ->). now exists what.
Qed.

End ChallengeFacts.

(** ** The requests of the registry client *)

Module RequestFacts.
Import Str StrFacts Docker offline Doubles RegistryFacts.

Section Requests.
Variable L : Libs.
Variable c : RegistryClient.

Local Abbreviation creds_call := (DaemonGet (auth_creds_endpoint_ c) (AuthMaterialMaxSize L)).
Local Abbreviation token_call basic bearer :=
  (FactoryGet [basic] (BearerAuth_uri bearer) (AuthMaterialMaxSize L)).

Lemma getBasicAuthHeader_cases w :
  snd (getBasicAuthHeader L c w) = logged w creds_call
  /\ forall basic, fst (getBasicAuthHeader L c w) = Ok basic ->
       exists user secret,
         user <> EmptyString /\ secret <> EmptyString
         /\ basic = "authorization: basic " ++ toBase64 L (user ++ ":" ++ secret).
Proof.
  unfold getBasicAuthHeader, bind, record_call, throw, ret.
  destruct (negb (isOk L _)); [split; [reflexivity | discriminate]|].
  destruct (String.eqb_spec (json_member L (body (get (ota_lite_client_ c) w (auth_creds_endpoint_ c)
                                                     (AuthMaterialMaxSize L))) "Username") EmptyString)
    as [E1|N1]; cbn [orb]; [split; [reflexivity | discriminate]|].
  destruct (String.eqb_spec (json_member L (body (get (ota_lite_client_ c) w (auth_creds_endpoint_ c)
                                                     (AuthMaterialMaxSize L))) "Secret") EmptyString)
    as [E2|N2]; [split; [reflexivity | discriminate]|].
  split; [reflexivity|]. intros basic [= <-]. eauto.
Qed.

Lemma getBearerAuthHeader_world bearer w :
  let res := getBearerAuthHeader L c bearer w in
  fs (snd res) = fs w
  /\ ((is_ok (fst res) = false /\ snd res = logged w creds_call)
      \/ exists basic, snd res = logged (logged w creds_call) (token_call basic bearer)
                       /\ (forall header, fst res = Ok header ->
                             exists token, header = "authorization: bearer " ++ token)).
Proof.
  cbv zeta. unfold getBearerAuthHeader, bind.
  destruct (getBasicAuthHeader_cases w) as (Hw & _).
  destruct (getBasicAuthHeader L c w) as [[basic|e] w1]; cbn [snd] in Hw; subst w1.
  - unfold record_call, throw, ret.
    destruct (negb (isOk L _));
      [split; [reflexivity|]; right; exists basic; split; [reflexivity | discriminate]|].
    destruct (String.eqb _ EmptyString);
      [split; [reflexivity|]; right; exists basic; split; [reflexivity | discriminate]|].
    split; [reflexivity|]. right. exists basic. split; [reflexivity|].
    intros header [= <-]. eauto.
  - split; [reflexivity|]. left. split; reflexivity.
Qed.

(** X6.  The token is asked for only with credentials: when the credentials
    endpoint fails (or answers an empty user or secret),
    [getBearerAuthHeader] fails with that error after the one request to it;
    otherwise the token request follows it and carries one header, the basic
    authorization header made of a non-empty user and secret.  A header is
    handed out only with a non-empty token, and no file is touched. *)
Theorem getBearerAuthHeader_requests (bearer : BearerAuth) (w : World) :
  let res := getBearerAuthHeader L c bearer w in
  fs (snd res) = fs w
  /\ match getBasicAuthHeader L c w with
     | (Err e, w1) => res = (Err e, w1) /\ w1 = logged w creds_call
     | (Ok basic, w1) =>
         w1 = logged w creds_call
         /\ snd res = logged w1 (token_call basic bearer)
         /\ (exists user secret,
               user <> EmptyString /\ secret <> EmptyString
               /\ basic = "authorization: basic " ++ toBase64 L (user ++ ":" ++ secret))
         /\ (forall header, fst res = Ok header ->
               exists token, token <> EmptyString /\ header = "authorization: bearer " ++ token)
     end.
Proof.
  intros res. unfold res, getBearerAuthHeader, bind.
  destruct (getBasicAuthHeader_cases w) as (Hw & Hb).
  destruct (getBasicAuthHeader L c w) as [[basic|e] w1] eqn:E; cbn [fst snd] in *; subst w1.
  - unfold record_call, throw, ret.
    destruct (negb (isOk L _)); cbn [fst snd];
      [repeat split; auto; discriminate|].
    destruct (String.eqb_spec (json_member L (body (get (http_client_factory_ c [basic])
                 (logged w creds_call) (BearerAuth_uri bearer) (AuthMaterialMaxSize L))) "token")
                EmptyString) as [E1|N1]; cbn [fst snd];
      [repeat split; auto; discriminate|].
    repeat split; auto. intros header [= <-]. eauto.
  - auto.
Qed.

Lemma manifest_tail uri manifest_size (manifest_resp : HttpResponse) (w : World) :
  (if negb (isOk L manifest_resp)
   then throw (runtime_error "Failed to download App manifest")
   else
     let body_size := Z.of_nat (String.length (body manifest_resp)) in
     if match manifest_size with
        | Some size => negb (body_size =? size_t_of size)%Z
        | None => (size_t_of (default (DefManifestMaxSize L) manifest_size) <? body_size)%Z
        end
     then throw (runtime_error
                   match manifest_size with
                   | Some _ => "Size of received App manifest doesn't match the expected one"
                   | None => "Size of received App manifest exceeds the maximum allowed"
                   end)
     else
       let received_manifest_hash := Str.to_lower (hex (sha256digest L (body manifest_resp))) in
       if negb (String.eqb received_manifest_hash (hash_ (digest uri)))
       then throw (runtime_error
                     ("Hash of received App manifest and the hash specified in Target do not match: "
                        ++ received_manifest_hash ++ " != " ++ hash_ (digest uri)))
       else ret (body manifest_resp)) w
  = (manifest_check L uri manifest_size manifest_resp, w).
Proof.
  unfold manifest_check, throw, ret.
  destruct (negb (isOk L manifest_resp)); [reflexivity|].
  destruct manifest_size as [size|]; cbn [default];
    match goal with |- context [if ?b then _ else _] => destruct b end; try reflexivity;
    match goal with |- context [if ?b then _ else _] => destruct b end; reflexivity.
Qed.

Lemma getAppManifest_unfold uri format manifest_size w :
  let url := composeManifestUrl uri in
  let max := default (DefManifestMaxSize L) manifest_size in
  let accept := ["accept:" ++ format] in
  let first_resp := get (http_client_factory_ c accept) w url max in
  let w1 := logged w (FactoryGet accept url max) in
  getAppManifest L c uri format manifest_size w =
    let (r, w') :=
      (if (http_status_code first_resp =? 401)%Z
       then
         match headers first_resp !! BearerAuth_Header with
         | None => (Err (runtime_error ("No " ++ backquoted BearerAuth_Header
                                          ++ " header found in the 401 response")), w1)
         | Some auth_header_value =>
             match BearerAuth_of auth_header_value with
             | Err e => (Err e, w1)
             | Ok bearer =>
                 match getBearerAuthHeader L c bearer w1 with
                 | (Err e, w2) => (Err e, w2)
                 | (Ok auth_header, w2) =>
                     (Ok (get (http_client_factory_ c (List.app accept [auth_header])) w2 url max),
                      logged w2 (FactoryGet (List.app accept [auth_header]) url max))
                 end
             end
         end
       else (Ok first_resp, w1)) in
    match r with
    | Ok manifest_resp => (manifest_check L uri manifest_size manifest_resp, w')
    | Err e => (Err e, w')
    end.
Proof.
  intros url max accept first_resp w1.
  unfold getAppManifest. fold url. fold max. fold accept.
  unfold bind at 1. unfold record_call at 1. unfold bind at 1. unfold ret at 1.
  fold first_resp. fold w1.
  unfold bind at 1.
  destruct (http_status_code first_resp =? 401)%Z.
  - destruct (headers first_resp !! BearerAuth_Header) as [v|]; [|reflexivity].
    unfold bind at 1. unfold lift.
    destruct (BearerAuth_of v) as [bearer|e]; [|reflexivity].
    unfold bind at 1.
    destruct (getBearerAuthHeader L c bearer w1) as [[h|e] w2]; [|reflexivity].
    unfold bind at 1. unfold record_call, bind, ret at 1. rewrite manifest_tail. reflexivity.
  - unfold ret at 1. rewrite manifest_tail. reflexivity.
Qed.

(** X7.  [getAppManifest] asks for the manifest once, and a second time only
    after a 401 that carried a bearer challenge and after a token was
    obtained; the outcome is then decided by the second response alone, so a
    second 401 is not followed by a third request.  Between the two manifest
    requests it makes the credentials request and the token request, in this
    order, and no file is touched. *)
Theorem getAppManifest_requests (uri : Uri) (format : string) (manifest_size : option Z) (w : World) :
  let url := composeManifestUrl uri in
  let max := default (DefManifestMaxSize L) manifest_size in
  let accept := ["accept:" ++ format] in
  let first_resp := get (http_client_factory_ c accept) w url max in
  let w1 := logged w (FactoryGet accept url max) in
  let res := getAppManifest L c uri format manifest_size w in
  fs (snd res) = fs w
  /\ ((http_status_code first_resp =? 401)%Z = false ->
      res = (manifest_check L uri manifest_size first_resp, w1))
  /\ ((http_status_code first_resp =? 401)%Z = true ->
      (is_ok (fst res) = false
       /\ (snd res = w1 \/ snd res = logged w1 creds_call
           \/ exists basic bearer, snd res = logged (logged w1 creds_call) (token_call basic bearer)))
      \/ exists challenge basic bearer token,
           let w3 := logged (logged w1 creds_call) (token_call basic bearer) in
           let retry := List.app accept ["authorization: bearer " ++ token] in
           headers first_resp !! BearerAuth_Header = Some challenge
           /\ BearerAuth_of challenge = Ok bearer
           /\ res = (manifest_check L uri manifest_size (get (http_client_factory_ c retry) w3 url max),
                     logged w3 (FactoryGet retry url max))).
Proof.
  intros url max accept first_resp w1 res.
  unfold res. rewrite getAppManifest_unfold. cbv zeta.
  fold url. fold max. fold accept. fold first_resp. fold w1.
  destruct (http_status_code first_resp =? 401)%Z eqn:E401.
  - destruct (headers first_resp !! BearerAuth_Header) as [v|] eqn:Ehdr.
    + destruct (BearerAuth_of v) as [bearer|e] eqn:Eb.
      * destruct (getBearerAuthHeader_world bearer w1) as (_ & [(Hf & Hw) | (basic & Hw & Hh)]).
        -- destruct (getBearerAuthHeader L c bearer w1) as [[h|e] w2]; [discriminate|].
           cbn [fst snd] in *. subst w2.
           split; [reflexivity|]. split; [discriminate|]. intros _. left. auto.
        -- destruct (getBearerAuthHeader L c bearer w1) as [[h|e] w2]; cbn [fst snd] in *; subst w2.
           ++ destruct (Hh h eq_refl) as (token & ->).
              split; [reflexivity|]. split; [discriminate|]. intros _. right.
              exists v, basic, bearer, token. cbn zeta. split; [reflexivity|]. split; [exact Eb|].
              reflexivity.
           ++ split; [reflexivity|]. split; [discriminate|]. intros _. left.
              split; [reflexivity|]. right. right. eauto.
      * split; [reflexivity|]. split; [discriminate|]. intros _. left. auto.
    + split; [reflexivity|]. split; [discriminate|]. intros _. left. auto.
  - split; [reflexivity|]. split; [reflexivity|]. discriminate.
Qed.

End Requests.

End RequestFacts.

(** ** The download context *)

Module SinkFacts.
Import Str StrFacts Docker offline Doubles RegistryFacts DownloadFacts.

Local Open Scope Z_scope.

(** A chunk that fits is appended to the sink and to the hasher. *)
Lemma DownloadCtx_write_taken (ctx : DownloadCtx) (data : string) :
  in_step ctx ->
  expected_size ctx + Z.of_nat (String.length data) < 2 ^ 64 ->
  written_size ctx + Z.of_nat (String.length data) <= expected_size ctx ->
  let after := DownloadCtx_write ctx data in
  fst after = Z.of_nat (String.length data)
  /\ hasher (snd after) = (hasher ctx ++ data)%string
  /\ os_data (out_stream (snd after)) = (os_data (out_stream ctx) ++ data)%string
  /\ written_size (snd after) = written_size ctx + Z.of_nat (String.length data).
Proof.
  intros (Hg & Hd & Hp & Hw & Hle & Hroom) Hsmall Hfit after. unfold after.
  assert (Hrec : size_t_of (written_size ctx + Z.of_nat (String.length data))
                 = written_size ctx + Z.of_nat (String.length data))
    by (apply size_t_of_small; lia).
  assert (Hlen : (String.length data <= os_room (out_stream ctx))%nat) by lia.
  rewrite DownloadCtx_write_through by (rewrite ?Hrec; assumption). cbv zeta.
  destruct (tellp_os_write_taken _ data Hg Hlen) as [He Hg'].
  rewrite He, Hrec. cbn [fst snd hasher out_stream written_size].
  split; [apply size_t_of_small; lia|]. split; [reflexivity|]. split; [|reflexivity].
  unfold os_write. unfold good in Hg. destruct (os_failed (out_stream ctx)); [discriminate|].
  destruct (Nat.leb_spec (String.length data) (os_room (out_stream ctx))); [|lia].
  cbn [os_data]. rewrite Hp, <- Hd. apply overwrite_at_end.
Qed.

(** X8.  The answer of the write callback tells whether the chunk was taken.
    On a context whose sink holds the bytes hashed so far (and whose device
    has room for what is still expected), a chunk that fits in what is still
    expected is appended to the sink and to the hasher and the callback
    answers the chunk's size; a chunk that does not fit changes neither the
    sink nor the hasher nor [written_size], and the answer differs from the
    chunk's size. *)
Theorem DownloadCtx_write_answers_size_iff_taken (ctx : DownloadCtx) (data : string) :
  in_step ctx ->
  expected_size ctx + Z.of_nat (String.length data) < 2 ^ 64 ->
  let n := Z.of_nat (String.length data) in
  let after := DownloadCtx_write ctx data in
  if written_size ctx + n <=? expected_size ctx
  then fst after = n
       /\ hasher (snd after) = (hasher ctx ++ data)%string
       /\ os_data (out_stream (snd after)) = (os_data (out_stream ctx) ++ data)%string
       /\ written_size (snd after) = written_size ctx + n
  else fst after <> n
       /\ hasher (snd after) = hasher ctx
       /\ out_stream (snd after) = out_stream ctx
       /\ written_size (snd after) = written_size ctx.
Proof.
  intros Hin Hsmall n after. unfold after, n.
  destruct (Z.leb_spec (written_size ctx + Z.of_nat (String.length data)) (expected_size ctx))
    as [Hfit|Hover]; [exact (DownloadCtx_write_taken ctx data Hin Hsmall Hfit)|].
  destruct Hin as (_ & _ & _ & Hw & Hle & _).
  assert (Hrec : size_t_of (written_size ctx + Z.of_nat (String.length data))
                 = written_size ctx + Z.of_nat (String.length data))
    by (apply size_t_of_small; lia).
  rewrite DownloadCtx_write_over by (rewrite Hrec; exact Hover).
  cbn [fst snd hasher out_stream written_size]. split; [|auto].
  unfold size_t_of. intros E.
  destruct (Z.eq_dec (Z.of_nat (String.length data) + 1) (2 ^ 64)) as [E'|N'].
  - rewrite E', Z.mod_same in E by lia. lia.
  - rewrite Z.mod_small in E by lia. lia.
Qed.

Lemma DownloadCtx_write_answers_size_iff_taken_witness :
  let ctx2 := mkDownloadCtx (mkOstream "ab" 2 false 8) "ab" 5 2 2 in
  fst (DownloadCtx_write ctx2 "cde") = 3
  /\ hasher (snd (DownloadCtx_write ctx2 "cde")) = "abcde"%string
  /\ os_data (out_stream (snd (DownloadCtx_write ctx2 "cde"))) = "abcde"%string
  /\ written_size (snd (DownloadCtx_write ctx2 "cde")) = 5.
Proof.
  cbv zeta.
  refine (DownloadCtx_write_answers_size_iff_taken
            (mkDownloadCtx (mkOstream "ab" 2 false 8) "ab" 5 2 2) "cde" _ _).
  - unfold in_step. cbn. repeat split; lia.
  - cbn. lia.
Defined.

(** X9.  From a fresh context on a device with room for the expected bytes,
    whatever chunks arrive and whatever the transport makes of the answers:
    the sink stays good, it holds exactly the bytes that were hashed,
    [written_size] is their number, and it never exceeds [expected_size]. *)
Theorem feed_chunks_keeps_sink_in_step (room : nat) (expected : Z) (chunks : list string) :
  0 <= expected <= Z.of_nat room ->
  Forall (fun data => expected + Z.of_nat (String.length data) < 2 ^ 64) chunks ->
  let ctx := feed_chunks (DownloadCtx_of (mkOstream EmptyString 0 false room) expected) chunks in
  good (out_stream ctx) = true
  /\ os_data (out_stream ctx) = hasher ctx
  /\ written_size ctx = Z.of_nat (String.length (os_data (out_stream ctx)))
  /\ written_size ctx <= expected
  /\ expected_size ctx = expected.
Proof.
  intros Hroom Hsmall ctx.
  assert (H0 : in_step (DownloadCtx_of (mkOstream EmptyString 0 false room) expected))
    by (unfold in_step; simpl; repeat split; lia).
  destruct (in_step_feed_chunks chunks _ H0 Hsmall) as ((Hg & Hd & _ & Hw & Hle & _) & He).
  fold ctx in Hg, Hd, Hw, Hle, He. cbn [DownloadCtx_of expected_size] in He.
  rewrite Hd. repeat split; try assumption. now rewrite <- He.
Qed.

Lemma feed_chunks_keeps_sink_in_step_witness :
  let ctx := feed_chunks (DownloadCtx_of (mkOstream EmptyString 0 false 100) 5)
                         ["abc"; "defg"; "de"]%string in
  good (out_stream ctx) = true
  /\ os_data (out_stream ctx) = hasher ctx
  /\ written_size ctx = Z.of_nat (String.length (os_data (out_stream ctx)))
  /\ written_size ctx <= 5
  /\ expected_size ctx = 5.
Proof.
  refine (feed_chunks_keeps_sink_in_step 100 5 ["abc"; "defg"; "de"]%string _ _).
  - cbn. lia.
  - repeat constructor; cbn; lia.
Defined.

(** X10.  [reset] rewinds and does not truncate: after a reset, the next
    chunk overwrites the beginning of what the sink holds and the rest of the
    old bytes stays behind it, while the hasher and the counters start again
    from the new chunk.  After a retry that delivers fewer bytes than the
    attempt before it, the sink is longer than [written_size]. *)
Theorem DownloadCtx_reset_rewinds_without_truncating (ctx : DownloadCtx) (data : string) :
  good (out_stream ctx) = true ->
  Z.of_nat (String.length data) <= expected_size ctx ->
  expected_size ctx < 2 ^ 64 ->
  (String.length data <= os_room (out_stream ctx))%nat ->
  let ctx' := snd (DownloadCtx_write (DownloadCtx_reset ctx) data) in
  os_data (out_stream ctx')
  = (data ++ drop (String.length data) (os_data (out_stream ctx)))%string
  /\ hasher ctx' = data
  /\ written_size ctx' = Z.of_nat (String.length data)
  /\ good (out_stream ctx') = true.
Proof.
  intros Hg Hfit Hmax Hroom ctx'. unfold ctx', DownloadCtx_reset.
  unfold good in Hg. apply negb_true_iff in Hg.
  assert (Hrec : size_t_of (0 + Z.of_nat (String.length data)) = Z.of_nat (String.length data))
    by (apply size_t_of_small; lia).
  rewrite DownloadCtx_write_through; cbn [written_size expected_size out_stream hasher];
    [| rewrite Hrec; exact Hfit | unfold good, seekp_beg; now rewrite Hg ].
  cbv zeta. cbn [snd out_stream hasher written_size].
  unfold seekp_beg, os_write, tellp. rewrite Hg. cbn [os_failed os_room os_pos os_data].
  destruct (Nat.leb_spec (String.length data) (os_room (out_stream ctx))); [|lia].
  cbn [os_failed os_pos os_data]. unfold overwrite. cbn [take String.append Nat.add].
  repeat split.
  rewrite size_t_of_small by lia. lia.
Qed.

Lemma DownloadCtx_reset_rewinds_without_truncating_witness :
  let ctx := feed_chunks (DownloadCtx_of (mkOstream EmptyString 0 false 100) 9) ["unauthorized"; "denied"]%string in
  let ctx' := snd (DownloadCtx_write (DownloadCtx_reset ctx) "blob") in
  os_data (out_stream ctx) = "denied"%string
  /\ os_data (out_stream ctx') = "blobed"%string
  /\ hasher ctx' = "blob"%string
  /\ written_size ctx' = 4
  /\ good (out_stream ctx') = true.
Proof.
  cbv zeta. split; [reflexivity|].
  refine (DownloadCtx_reset_rewinds_without_truncating
            (feed_chunks (DownloadCtx_of (mkOstream EmptyString 0 false 100) 9)
                         ["unauthorized"; "denied"]%string) "blob" _ _ _ _).
  - reflexivity.
  - vm_compute. discriminate.
  - vm_compute. reflexivity.
  - vm_compute. lia.
Defined.

Lemma DownloadCtx_write_failed_sink ctx data :
  good (out_stream ctx) = false ->
  DownloadCtx_write ctx data
  = (size_t_of (Z.of_nat (String.length data) + 1),
     mkDownloadCtx (out_stream ctx) (hasher ctx) (expected_size ctx) (written_size ctx)
                   (size_t_of (written_size ctx + Z.of_nat (String.length data)))).
Proof.
  intros Hbad. unfold DownloadCtx_write. rewrite Hbad. cbn [negb].
  now destruct (expected_size ctx <? _).
Qed.

(** X27.  A sink that has failed freezes the context: from then on the
    callback turns every chunk down, answering the chunk's size plus one, and
    over any sequence of chunks the sink, the hasher and [written_size] stay
    as they were. *)
Theorem failed_sink_freezes_context (ctx : DownloadCtx) (chunks : list string) :
  good (out_stream ctx) = false ->
  (forall data, fst (DownloadCtx_write ctx data)
                = size_t_of (Z.of_nat (String.length data) + 1))
  /\ out_stream (feed_chunks ctx chunks) = out_stream ctx
  /\ hasher (feed_chunks ctx chunks) = hasher ctx
  /\ written_size (feed_chunks ctx chunks) = written_size ctx
  /\ expected_size (feed_chunks ctx chunks) = expected_size ctx.
Proof.
  intros Hbad. split; [intros data; now rewrite DownloadCtx_write_failed_sink|].
  revert ctx Hbad. induction chunks as [|data chunks IH]; intros ctx Hbad; [now repeat split|].
  change (feed_chunks ctx (data :: chunks))
    with (feed_chunks (snd (DownloadCtx_write ctx data)) chunks).
  rewrite (DownloadCtx_write_failed_sink ctx data Hbad). cbn [snd].
  destruct (IH (mkDownloadCtx (out_stream ctx) (hasher ctx) (expected_size ctx) (written_size ctx)
                              (size_t_of (written_size ctx + Z.of_nat (String.length data))))
               Hbad) as (H1 & H2 & H3 & H4).
  repeat split; assumption.
Qed.

Lemma failed_sink_freezes_context_witness :
  let failed := snd (DownloadCtx_write (DownloadCtx_of (mkOstream EmptyString 0 false 3) 10)
                                       "hello") in
  fst (DownloadCtx_write failed "x") = 2
  /\ out_stream (feed_chunks failed ["ab"; "c"]%string) = out_stream failed
  /\ hasher (feed_chunks failed ["ab"; "c"]%string) = "hello"%string
  /\ os_data (out_stream failed) = "hel"%string.
Proof.
  intros failed.
  destruct (failed_sink_freezes_context failed ["ab"; "c"]%string eq_refl) as (H1 & H2 & H3 & _).
  split; [exact (H1 "x"%string)|]. split; [exact H2|]. split; [exact H3 | reflexivity].
Defined.

End SinkFacts.

(** ** What [downloadBlob] leaves on the disk *)

Module BlobFacts.
Import Str StrFacts Docker offline Doubles RegistryFacts DownloadFacts RequestFacts Notions.

Section BlobFate.
Variable L : Libs.
Variable c : RegistryClient.

(** What [downloadBlob] does once it has the last response. *)
Lemma blob_tail uri filepath expected (last : HttpResponse * DownloadCtx) (w : World) :
  (let get_blob_resp := fst last in
   let ctx := snd last in
   if negb (isOk L get_blob_resp)
   then throw (runtime_error "Failed to download App blob")
   else
     let recv_blob_file_size := written_size ctx in
     if negb (recv_blob_file_size =? expected)%Z
     then do remove_file filepath then
          throw (runtime_error "Size of downloaded App blob does not equal to the expected one")
     else
       let recv_blob_hash := Str.to_lower (getHexDigest L (hasher ctx)) in
       if negb (String.eqb recv_blob_hash (hash_ (digest uri)))
       then do remove_file filepath then
            throw (runtime_error
                     ("Hash of downloaded App blob does not equal to the expected one: "
                        ++ recv_blob_hash ++ " != " ++ hash_ (digest uri)))
       else ret tt) w
  = let removed := mkWorld (log w) (mkFileSystem (delete filepath (files (fs w)))
                                                 (writable (fs w)) (free_space (fs w))) in
    if negb (isOk L (fst last))
    then (Err (runtime_error "Failed to download App blob"), w)
    else if negb (written_size (snd last) =? expected)%Z
         then (Err (runtime_error "Size of downloaded App blob does not equal to the expected one"),
               removed)
         else if negb (String.eqb (Str.to_lower (getHexDigest L (hasher (snd last))))
                                  (hash_ (digest uri)))
              then (Err (runtime_error
                           ("Hash of downloaded App blob does not equal to the expected one: "
                              ++ Str.to_lower (getHexDigest L (hasher (snd last))) ++ " != "
                              ++ hash_ (digest uri))), removed)
              else (Ok tt, w).
Proof.
  cbv zeta. unfold bind, throw, ret, remove_file.
  destruct (negb (isOk L (fst last))); [reflexivity|].
  destruct (negb (written_size (snd last) =? expected)%Z); [reflexivity|].
  destruct (negb (String.eqb _ _)); reflexivity.
Qed.

Lemma downloadBlob_unfold uri filepath expected w0 :
  downloadBlob L c uri filepath expected w0 =
  if negb (writable (fs w0) filepath)
  then (Err (runtime_error ("Failed to open a file: " ++ filepath)), w0)
  else
    let url := composeBlobUrl uri in
    let opened := mkWorld (log w0) (with_file (fs w0) filepath EmptyString) in
    let ctx0 := DownloadCtx_of (mkOstream EmptyString 0 false (free_space (fs w0))) expected in
    let first := download (http_client_factory_ c []) DownloadCtx opened url DownloadHandler ctx0 in
    let w1 := mkWorld (log opened ++ [FactoryDownload [] url])%list
                      (with_file (fs opened) filepath (os_data (out_stream (snd first)))) in
    let (r, w') :=
      (if (http_status_code (fst first) =? 401)%Z
       then
         match headers (fst first) !! BearerAuth_Header with
         | None => (Err (runtime_error ("No " ++ backquoted BearerAuth_Header
                                          ++ " header found in the 401 response")), w1)
         | Some auth_header_value =>
             match BearerAuth_of auth_header_value with
             | Err e => (Err e, w1)
             | Ok bearer =>
                 match getBearerAuthHeader L c bearer w1 with
                 | (Err e, w2) => (Err e, w2)
                 | (Ok auth_header, w2) =>
                     let second := download (http_client_factory_ c [auth_header]) DownloadCtx w2 url
                                            DownloadHandler (DownloadCtx_reset (snd first)) in
                     (Ok second,
                      mkWorld (log w2 ++ [FactoryDownload [auth_header] url])%list
                              (with_file (fs w2) filepath (os_data (out_stream (snd second)))))
                 end
             end
         end
       else (Ok first, w1)) in
    match r with
    | Err e => (Err e, w')
    | Ok last =>
        let removed := mkWorld (log w') (mkFileSystem (delete filepath (files (fs w')))
                                                      (writable (fs w')) (free_space (fs w'))) in
        if negb (isOk L (fst last))
        then (Err (runtime_error "Failed to download App blob"), w')
        else if negb (written_size (snd last) =? expected)%Z
             then (Err (runtime_error "Size of downloaded App blob does not equal to the expected one"),
                   removed)
             else if negb (String.eqb (Str.to_lower (getHexDigest L (hasher (snd last))))
                                      (hash_ (digest uri)))
                  then (Err (runtime_error
                               ("Hash of downloaded App blob does not equal to the expected one: "
                                  ++ Str.to_lower (getHexDigest L (hasher (snd last))) ++ " != "
                                  ++ hash_ (digest uri))), removed)
                  else (Ok tt, w')
    end.
Proof.
  unfold downloadBlob.
  destruct (negb (writable (fs w0) filepath)); [reflexivity|].
  cbv zeta. unfold bind at 1. cbn [fst snd].
  unfold bind at 1.
  destruct (http_status_code _ =? 401)%Z.
  - destruct (headers _ !! BearerAuth_Header) as [v|]; [|reflexivity].
    unfold bind at 1. unfold lift.
    destruct (BearerAuth_of v) as [bearer|e]; [|reflexivity].
    unfold bind at 1.
    destruct (getBearerAuthHeader L c bearer _) as [[h|e] w2]; [|reflexivity].
    apply (blob_tail uri filepath expected).
  - unfold ret at 1. apply (blob_tail uri filepath expected).
Qed.

Lemma starts_with_app p x : starts_with (p ++ x) p = true.
Proof.
  induction p as [|a p IH]; [now destruct x|].
  cbn. now rewrite Ascii.eqb_refl.
Qed.

Lemma getBearerAuthHeader_error bearer w e w2 :
  getBearerAuthHeader L c bearer w = (Err e, w2) -> is_mismatch e = false.
Proof.
  unfold getBearerAuthHeader, getBasicAuthHeader, bind, record_call, throw, ret.
  repeat match goal with
         | |- context [if ?b then _ else _] => destruct b
         end; intros [= <- _]; reflexivity.
Qed.

Lemma BearerAuth_of_error v e : BearerAuth_of v = Err e -> is_mismatch e = false.
Proof.
  intros H. pose proof (BearerAuth_of_ends v) as E. rewrite H in E.
  destruct E as (what & ->). reflexivity.
Qed.

(** X11.  What [downloadBlob] leaves on the disk.  It writes to no path but
    the one it is given.  When that path cannot be opened it fails before any
    request and changes nothing.  Otherwise the file is there when the call
    ends, after a success and after a failure alike, except after the two
    failures found once the transport has answered ok, the size mismatch and
    the digest mismatch, which remove it. *)
Theorem downloadBlob_file_fate (uri : Uri) (filepath : string) (expected : Z) (w : World) :
  let res := downloadBlob L c uri filepath expected w in
  (forall p, p <> filepath -> files (fs (snd res)) !! p = files (fs w) !! p)
  /\ (writable (fs w) filepath = false ->
      res = (Err (runtime_error ("Failed to open a file: " ++ filepath)), w))
  /\ (writable (fs w) filepath = true ->
      (files (fs (snd res)) !! filepath = None
       <-> exists e, fst res = Err e /\ is_mismatch e = true)).
Proof.
  intros res. unfold res. rewrite downloadBlob_unfold.
  destruct (writable (fs w) filepath) eqn:Ew; cbn [negb].
  2:{ split; [reflexivity|]. split; [reflexivity|discriminate]. }
  cbv zeta.
  set (opened := mkWorld (log w) (with_file (fs w) filepath EmptyString)).
  set (first := download (http_client_factory_ c []) DownloadCtx opened (composeBlobUrl uri)
                         DownloadHandler _).
  set (w1 := mkWorld _ (with_file (fs opened) filepath (os_data (out_stream (snd first))))).
  set (Post := fun res : result unit * World =>
                 (forall p, p <> filepath -> files (fs (snd res)) !! p = files (fs w) !! p)
                 /\ (files (fs (snd res)) !! filepath = None
                     <-> exists e, fst res = Err e /\ is_mismatch e = true)).
  set (Kept := fun w' : World =>
                 (forall p, p <> filepath -> files (fs w') !! p = files (fs w) !! p)
                 /\ is_Some (files (fs w') !! filepath)).
  assert (Fail : forall e w', is_mismatch e = false -> Kept w' -> Post (Err e, w')).
  { intros e w' He (Hp & Hc). split; [exact Hp|]. cbn [fst snd]. split.
    - intros Hn. rewrite Hn in Hc. now destruct Hc.
    - intros (e' & [= <-] & He'). congruence. }
  assert (Last : forall last w', Kept w' ->
    Post (let removed := mkWorld (log w') (mkFileSystem (delete filepath (files (fs w')))
                                                       (writable (fs w')) (free_space (fs w'))) in
          if negb (isOk L (fst last))
          then (Err (runtime_error "Failed to download App blob"), w')
          else if negb (written_size (snd last) =? expected)%Z
               then (Err (runtime_error "Size of downloaded App blob does not equal to the expected one"),
                     removed)
               else if negb (String.eqb (Str.to_lower (getHexDigest L (hasher (snd last))))
                                        (hash_ (digest uri)))
                    then (Err (runtime_error
                                 ("Hash of downloaded App blob does not equal to the expected one: "
                                    ++ Str.to_lower (getHexDigest L (hasher (snd last))) ++ " != "
                                    ++ hash_ (digest uri))), removed)
                    else (Ok tt, w'))).
  { intros last w' HK. cbv zeta.
    destruct (negb (isOk L (fst last))); [apply Fail; [reflexivity|exact HK]|].
    destruct HK as (Hp & Hc).
    destruct (negb (written_size (snd last) =? expected)%Z);
      [|destruct (negb (String.eqb _ _))].
    - split; cbn [fst snd fs files].
      + intros p Hne. rewrite lookup_delete_ne by congruence. now apply Hp.
      + rewrite lookup_delete_eq. split; [intros _; eexists; split; reflexivity | reflexivity].
    - split; cbn [fst snd fs files].
      + intros p Hne. rewrite lookup_delete_ne by congruence. now apply Hp.
      + rewrite lookup_delete_eq. split; [intros _ | reflexivity].
        eexists. split; [reflexivity|]. cbn [is_mismatch]. apply orb_true_iff. right.
        apply starts_with_app.
    - split; [exact Hp|]. cbn [fst snd]. split.
      + intros Hn. rewrite Hn in Hc. now destruct Hc.
      + intros (e & [=] & _). }
  assert (K1 : Kept w1).
  { split; cbn [w1 opened fs files with_file].
    - intros p Hne. now rewrite !lookup_insert_ne by congruence.
    - rewrite lookup_insert_eq. eauto. }
  enough (HP : Post (let (r, w') :=
      (if (http_status_code (fst first) =? 401)%Z
       then
         match headers (fst first) !! BearerAuth_Header with
         | None => (Err (runtime_error ("No " ++ backquoted BearerAuth_Header
                                          ++ " header found in the 401 response")), w1)
         | Some auth_header_value =>
             match BearerAuth_of auth_header_value with
             | Err e => (Err e, w1)
             | Ok bearer =>
                 match getBearerAuthHeader L c bearer w1 with
                 | (Err e, w2) => (Err e, w2)
                 | (Ok auth_header, w2) =>
                     let second := download (http_client_factory_ c [auth_header]) DownloadCtx w2
                                            (composeBlobUrl uri)
                                            DownloadHandler (DownloadCtx_reset (snd first)) in
                     (Ok second,
                      mkWorld (log w2 ++ [FactoryDownload [auth_header] (composeBlobUrl uri)])%list
                              (with_file (fs w2) filepath (os_data (out_stream (snd second)))))
                 end
             end
         end
       else (Ok first, w1)) in
    match r with
    | Err e => (Err e, w')
    | Ok last =>
        let removed := mkWorld (log w') (mkFileSystem (delete filepath (files (fs w')))
                                                      (writable (fs w')) (free_space (fs w'))) in
        if negb (isOk L (fst last))
        then (Err (runtime_error "Failed to download App blob"), w')
        else if negb (written_size (snd last) =? expected)%Z
             then (Err (runtime_error "Size of downloaded App blob does not equal to the expected one"),
                   removed)
             else if negb (String.eqb (Str.to_lower (getHexDigest L (hasher (snd last))))
                                      (hash_ (digest uri)))
                  then (Err (runtime_error
                               ("Hash of downloaded App blob does not equal to the expected one: "
                                  ++ Str.to_lower (getHexDigest L (hasher (snd last))) ++ " != "
                                  ++ hash_ (digest uri))), removed)
                  else (Ok tt, w')
    end)).
  { destruct HP as (H1 & H2). split; [exact H1|]. split; [discriminate|]. intros _. exact H2. }
  destruct (http_status_code (fst first) =? 401)%Z.
  - destruct (headers (fst first) !! BearerAuth_Header) as [v|].
    + destruct (BearerAuth_of v) as [bearer|e] eqn:Eb.
      * pose proof (getBearerAuthHeader_world L c bearer w1) as (Hfs & _). cbv zeta in Hfs.
        destruct (getBearerAuthHeader L c bearer w1) as [[h|e] w2] eqn:Eg; cbn [snd] in Hfs.
        -- apply Last. destruct K1 as (Hp & Hc). split; cbn [fs files with_file]; rewrite Hfs.
           ++ intros p Hne. rewrite lookup_insert_ne by congruence. now apply Hp.
           ++ rewrite lookup_insert_eq. eauto.
        -- apply Fail; [exact (getBearerAuthHeader_error _ _ _ _ Eg)|].
           destruct K1 as (Hp & Hc). split; rewrite Hfs; assumption.
      * apply Fail; [exact (BearerAuth_of_error _ _ Eb) | exact K1].
    + apply Fail; [reflexivity | exact K1].
  - apply Last. exact K1.
Qed.

End BlobFate.

End BlobFacts.

(** ** The offline registry *)

Module OfflineFacts.
Import Str StrFacts Docker offline Doubles DigestFacts UriFacts RegistryFacts DownloadFacts.
Import PinnedFacts RequestFacts SinkFacts BlobFacts.

Lemma mem_drop c s n : mem c s = false -> mem c (drop n s) = false.
Proof.
  revert s; induction n as [|n IH]; intros [|a r]; simpl; auto.
  intros H. apply orb_false_iff in H as [_ H]. now apply IH.
Qed.

Lemma mem_drop_le c s n k : mem c (drop n s) = false -> n <= k -> mem c (drop k s) = false.
Proof.
  intros H Hle. replace k with (n + (k - n)) by lia. rewrite <- drop_drop. now apply mem_drop.
Qed.

Lemma starts_with_elim s p : starts_with s p = true -> s = p ++ drop (String.length p) s.
Proof.
  revert p; induction s as [|b s IH]; intros [|a p]; cbn; try reflexivity; try discriminate.
  intros H. apply andb_true_iff in H as [Hab H]. apply Ascii.eqb_eq in Hab as ->.
  now rewrite <- (IH p H).
Qed.

Lemma rfind_str_none s : mem ":" (drop 6 s) = false -> rfind_str hash_prefix s = None.
Proof.
  induction s as [|a r IH]; intros H; [reflexivity|].
  cbn [rfind_str]. rewrite IH by (apply (mem_drop_le ":" (String a r) 6 7 H); lia).
  destruct (starts_with (String a r) hash_prefix) eqn:E; [|reflexivity].
  apply starts_with_elim in E. rewrite E in H. discriminate H.
Qed.

(** The last ["sha256:"] of a URL that ends in a digest whose hash has no
    [':']. *)
Lemma rfind_str_last pre h :
  mem ":" h = false -> rfind_str hash_prefix (pre ++ hash_prefix ++ h) = Some (String.length pre).
Proof.
  intros H. induction pre as [|a pre IH].
  - change (EmptyString ++ hash_prefix ++ h) with (String "s" ("ha256:" ++ h)).
    cbn [rfind_str]. rewrite (rfind_str_none ("ha256:" ++ h)) by exact H.
    change (String "s" ("ha256:" ++ h)) with (hash_prefix ++ h).
    now rewrite starts_with_app.
  - cbn [String.append rfind_str]. now rewrite IH.
Qed.

Lemma starts_with_segment h x q y :
  mem "/" h = false -> mem "/" q = false ->
  starts_with (h ++ String "/" x) (q ++ String "/" y) = true -> starts_with x y = true.
Proof.
  revert q; induction h as [|a h IH]; intros [|b q]; cbn [starts_with String.append mem];
    intros Hh Hq.
  - intros H. now apply andb_true_iff in H as [_ H].
  - apply orb_false_iff in Hq as [Hb _]. rewrite Hb. discriminate.
  - apply orb_false_iff in Hh as [Ha _]. rewrite Ascii.eqb_sym, Ha. discriminate.
  - apply orb_false_iff in Hh as [_ Hh]. apply orb_false_iff in Hq as [_ Hq].
    intros H. apply andb_true_iff in H as [_ H]. exact (IH q Hh Hq H).
Qed.

Lemma digest_of_parsed s fm uri :
  parseUri s fm = Ok uri -> digest_ (digest uri) = hash_prefix ++ hash_ (digest uri).
Proof.
  intros H. destruct (parseUri_fields s fm uri H) as (dig & _ & _ & _ & _ & _ & Hd & _).
  destruct (HashedDigest_of_elim dig _ Hd) as (_ & _ & ->). reflexivity.
Qed.


Lemma feed_chunks_of_fits rounds s ctx :
  String.length s <= rounds ->
  in_step ctx ->
  (written_size ctx + Z.of_nat (String.length s) <= expected_size ctx)%Z ->
  (expected_size ctx + 4096 < 2 ^ 64)%Z ->
  in_step (feed_chunks ctx (chunks_of rounds (1024 * 4) s))
  /\ hasher (feed_chunks ctx (chunks_of rounds (1024 * 4) s)) = hasher ctx ++ s
  /\ expected_size (feed_chunks ctx (chunks_of rounds (1024 * 4) s)) = expected_size ctx.
Proof.
  revert s ctx; induction rounds as [|rounds IH]; intros [|a r] ctx Hlen Hin Hfit Hmax;
    cbn [chunks_of]; try (unfold feed_chunks; cbn [fold_left]; now rewrite app_nil_r);
    [cbn in Hlen; lia|].
  set (s := String a r) in *. set (data := take (1024 * 4) s).
  assert (Hd : String.length data + String.length (drop (1024 * 4) s) = String.length s).
  { unfold data. rewrite length_take, length_drop. lia. }
  assert (Hsmall : (expected_size ctx + Z.of_nat (String.length data) < 2 ^ 64)%Z).
  { unfold data. rewrite length_take. lia. }
  destruct (DownloadCtx_write_taken ctx data Hin Hsmall) as (_ & Hh & _ & Hw); [lia|].
  destruct (in_step_write ctx data Hin Hsmall) as (Hin' & He').
  change (feed_chunks ctx (data :: chunks_of rounds (1024 * 4) (drop (1024 * 4) s)))
    with (feed_chunks (snd (DownloadCtx_write ctx data))
                      (chunks_of rounds (1024 * 4) (drop (1024 * 4) s))).
  destruct (IH (drop (1024 * 4) s) (snd (DownloadCtx_write ctx data))) as (H1 & H2 & H3).
  - rewrite length_drop. unfold s in *. cbn [String.length] in *. lia.
  - exact Hin'.
  - rewrite Hw, He'. lia.
  - rewrite He'. exact Hmax.
  - split; [exact H1|]. split; [|now rewrite H3].
    rewrite H2, Hh, app_assoc. unfold data. now rewrite take_drop.
Qed.

Section Medium.
Variable L : Libs.
Variable apps_dir : string.

Local Abbreviation registry := (mkOfflineRegistry apps_dir "hub.foundries.io").

Lemma offline_get_of_parsed s fm uri w middle max :
  parseUri s fm = Ok uri -> mem ":" (hash_ (digest uri)) = false ->
  mem "/" middle = false ->
  OfflineRegistry_get registry w
    ("https://" ++ registryHostname uri ++ SupportedRegistryVersion ++ repo uri
       ++ String "/" (middle ++ String "/" (digest_ (digest uri)))) max
  = HttpResponse_of (readFile (fs w) (apps_dir // "blobs" // "sha256" // hash_ (digest uri)))
                    200 CURLE_OK EmptyString.
Proof.
  intros Hparse Hhash Hmid.
  destruct (parseUri_fields s fm uri Hparse) as (_ & _ & Hhost & _).
  rewrite (digest_of_parsed s fm uri Hparse).
  unfold OfflineRegistry_get.
  destruct (starts_with _ (auth_endpoint_ registry)) eqn:E.
  - exfalso. unfold auth_endpoint_, SupportedRegistryVersion in E. cbn in E.
    apply (starts_with_segment (registryHostname uri) _ "hub.foundries.io" "token-auth" Hhost eq_refl)
      in E. discriminate E.
  - unfold getAppItem.
    set (pre := "https://" ++ registryHostname uri ++ SupportedRegistryVersion ++ repo uri
                  ++ String "/" (middle ++ String "/" EmptyString)).
    replace ("https://" ++ registryHostname uri ++ SupportedRegistryVersion ++ repo uri
               ++ String "/" (middle ++ String "/" (hash_prefix ++ hash_ (digest uri))))
      with (pre ++ hash_prefix ++ hash_ (digest uri))
      by (unfold pre; rewrite !app_assoc; cbn [String.append]; rewrite !app_assoc; reflexivity).
    rewrite (rfind_str_last pre _ Hhash). unfold substr_from.
    replace (String.length pre + String.length hash_prefix)
      with (String.length (pre ++ hash_prefix)) by (rewrite length_app; reflexivity).
    rewrite <- app_assoc, drop_app_length. reflexivity.
Qed.

(** X12.  Through the offline client, a manifest is served from the medium
    without authentication: [getAppManifest] makes one request, and what it
    checks for size and digest is the content of
    [<apps dir>/blobs/sha256/<hash>], the hash being the one of the pinned
    digest (nothing, when there is no such file). *)
Theorem offline_getAppManifest_reads_pinned_blob (s : string) (fm : bool) (uri : Uri)
    (format : string) (manifest_size : option Z) (w : World) :
  parseUri s fm = Ok uri ->
  mem ":" (hash_ (digest uri)) = false ->
  getAppManifest L (offline_registry_client apps_dir) uri format manifest_size w
  = (manifest_check L uri manifest_size
       (HttpResponse_of (readFile (fs w) (apps_dir // "blobs" // "sha256" // hash_ (digest uri)))
                        200 CURLE_OK EmptyString),
     logged w (FactoryGet ["accept:" ++ format] (composeManifestUrl uri)
                          (default (DefManifestMaxSize L) manifest_size))).
Proof.
  intros Hparse Hhash.
  assert (G : forall max,
             OfflineRegistry_get registry w (composeManifestUrl uri) max
             = HttpResponse_of (readFile (fs w) (apps_dir // "blobs" // "sha256"
                                                          // hash_ (digest uri)))
                               200 CURLE_OK EmptyString)
    by (intros max; exact (offline_get_of_parsed s fm uri w "manifests" max Hparse Hhash eq_refl)).
  rewrite getAppManifest_unfold. cbv zeta.
  cbn [http_client_factory_ offline_registry_client OfflineRegistry_http get].
  rewrite !G. reflexivity.
Qed.


(** X14.  The offline client copies a blob of the medium intact: when the
    file [<apps dir>/blobs/sha256/<hash>] has the pinned digest,
    [downloadBlob] asked for its size ends normally after one request and the
    file at the path holds the same bytes.  The path must not be the blob
    file itself (it is emptied when it is opened), and the device must have
    room for the blob. *)
Theorem downloadBlob_offline_copies_blob (s : string) (fm : bool) (uri : Uri)
    (filepath blob : string) (w : World) :
  parseUri s fm = Ok uri ->
  mem ":" (hash_ (digest uri)) = false ->
  files (fs w) !! (apps_dir // "blobs" // "sha256" // hash_ (digest uri)) = Some blob ->
  filepath <> apps_dir // "blobs" // "sha256" // hash_ (digest uri) ->
  writable (fs w) filepath = true ->
  String.length blob <= free_space (fs w) ->
  (Z.of_nat (String.length blob) + 4096 < 2 ^ 64)%Z ->
  isOk L (HttpResponse_of EmptyString 200 CURLE_OK EmptyString) = true ->
  to_lower (hex (sha256digest L blob)) = hash_ (digest uri) ->
  exists w',
    downloadBlob L (offline_registry_client apps_dir) uri filepath
                 (Z.of_nat (String.length blob)) w = (Ok tt, w')
    /\ files (fs w') = <[filepath := blob]> (files (fs w))
    /\ log w' = (log w ++ [FactoryDownload [] (composeBlobUrl uri)])%list.
Proof.
  intros Hparse Hhash Hblob Hne Hw Hroom Hmax Hok Hdigest.
  rewrite downloadBlob_unfold, Hw. cbn [negb]. cbv zeta.
  set (opened := mkWorld (log w) (with_file (fs w) filepath EmptyString)).
  set (ctx0 := DownloadCtx_of (mkOstream EmptyString 0 false (free_space (fs w)))
                              (Z.of_nat (String.length blob))).
  assert (H0 : in_step ctx0) by (unfold in_step, ctx0; simpl; repeat split; lia).
  assert (Hfirst : download (http_client_factory_ (offline_registry_client apps_dir) [])
                            DownloadCtx opened (composeBlobUrl uri) DownloadHandler ctx0
                   = (HttpResponse_of EmptyString 200 CURLE_OK EmptyString,
                      feed_chunks ctx0 (chunks_of (String.length blob) (1024 * 4) blob))).
  { cbn [download http_client_factory_ offline_registry_client OfflineRegistry_http].
    unfold OfflineRegistry_download.
    set (pre := "https://" ++ registryHostname uri ++ SupportedRegistryVersion ++ repo uri
                  ++ BlobEndpoint).
    replace (composeBlobUrl uri) with (pre ++ hash_prefix ++ hash_ (digest uri))
      by (unfold composeBlobUrl, pre; rewrite (digest_of_parsed s fm uri Hparse);
          now rewrite !app_assoc).
    rewrite (rfind_str_last pre _ Hhash). unfold substr_from.
    replace (String.length pre + String.length hash_prefix)
      with (String.length (pre ++ hash_prefix)) by (rewrite length_app; reflexivity).
    rewrite <- app_assoc, drop_app_length.
    unfold readFile, opened. cbn [fs files with_file].
    change (blobs_dir_ registry) with (apps_dir // "blobs" // "sha256").
    rewrite lookup_insert_ne by exact Hne. rewrite Hblob. reflexivity. }
  rewrite Hfirst. cbn [fst snd].
  change (http_status_code (HttpResponse_of EmptyString 200 CURLE_OK EmptyString) =? 401)%Z
    with false. cbv iota.
  destruct (feed_chunks_of_fits (String.length blob) blob ctx0 (le_n _) H0) as (Hin & Hh & He).
  { cbn [ctx0 DownloadCtx_of written_size expected_size]. lia. }
  { cbn [ctx0 DownloadCtx_of expected_size]. exact Hmax. }
  cbn [ctx0 DownloadCtx_of hasher String.append] in Hh.
  destruct Hin as (_ & Hd & _ & Hlen & _).
  cbn [fst snd]. rewrite Hok, Hlen, Hh, Z.eqb_refl. cbn [negb]. unfold getHexDigest.
  rewrite Hdigest, String.eqb_refl. cbn [negb].
  eexists. split; [reflexivity|]. cbn [fs files log with_file opened]. split; [|reflexivity].
  rewrite Hd, Hh. apply insert_insert_eq.
Qed.

(** X15.  What the offline client leaves at the path when [downloadBlob]
    ends normally, on a device with room for the expected bytes: a file of
    exactly the expected size whose SHA-256 is the pinned digest. *)
Theorem downloadBlob_offline_result_is_pinned (uri : Uri) (filepath : string)
    (expected : Z) (w w' : World) :
  (0 <= expected)%Z -> (expected + 4096 < 2 ^ 64)%Z ->
  (expected <= Z.of_nat (free_space (fs w)))%Z ->
  downloadBlob L (offline_registry_client apps_dir) uri filepath expected w = (Ok tt, w') ->
  exists content,
    files (fs w') !! filepath = Some content
    /\ Z.of_nat (String.length content) = expected
    /\ to_lower (hex (sha256digest L content)) = hash_ (digest uri).
Proof. exact (downloadBlob_offline_success L apps_dir uri filepath expected w w'). Qed.

End Medium.

Lemma offline_getAppManifest_reads_pinned_blob_witness :
  getAppManifest libs (offline_registry_client "/src") manifest_uri "application/json"
                 (Some 10%Z) medium
  = (Ok manifest_blob,
     logged medium (FactoryGet ["accept:application/json"] (composeManifestUrl manifest_uri) 10)).
Proof.
  exact (offline_getAppManifest_reads_pinned_blob libs "/src"
           ("hub.foundries.io/factory/app@" ++ pinned manifest_blob) true manifest_uri
           "application/json" (Some 10%Z) medium eq_refl eq_refl).
Defined.


Lemma downloadBlob_offline_copies_blob_witness :
  exists w',
    downloadBlob libs (offline_registry_client "/src") manifest_uri "/data/blob" 10 medium
    = (Ok tt, w')
    /\ files (fs w') = <[ "/data/blob" := manifest_blob ]> (files (fs medium))
    /\ log w' = [FactoryDownload [] (composeBlobUrl manifest_uri)].
Proof.
  refine (downloadBlob_offline_copies_blob libs "/src"
            ("hub.foundries.io/factory/app@" ++ pinned manifest_blob) true manifest_uri
            "/data/blob" manifest_blob medium eq_refl eq_refl eq_refl _ eq_refl _ _ eq_refl eq_refl).
  - vm_compute. discriminate.
  - vm_compute. lia.
  - vm_compute. reflexivity.
Defined.

Lemma downloadBlob_offline_result_is_pinned_witness :
  exists content,
    files (fs (snd (downloadBlob libs (offline_registry_client "/src") manifest_uri "/data/blob" 10
                                 medium))) !! "/data/blob" = Some content
    /\ Z.of_nat (String.length content) = 10%Z
    /\ to_lower (hex (sha256digest libs content)) = hash_ (digest manifest_uri).
Proof.
  refine (downloadBlob_offline_result_is_pinned libs "/src" manifest_uri "/data/blob" 10 medium _
            _ _ _ _).
  - vm_compute. discriminate.
  - vm_compute. reflexivity.
  - vm_compute. discriminate.
  - vm_compute. reflexivity.
Defined.

End OfflineFacts.

(** ** The selection *)

Module SelectionFacts.
Import Docker offline Doubles SetFacts SelectorFacts.

Lemma In_insert_all {A : Type} (comp : A -> A -> bool) (keep : A -> bool) (l : list A) (z : A) :
  In z (insert_all comp keep l) -> In z l /\ keep z = true.
Proof.
  induction l as [|x l IH] using rev_ind; [intros []|].
  rewrite insert_all_snoc. rewrite in_app_iff. destruct (keep x) eqn:K.
  - intros H. apply In_set_insert in H as [->|H]; [split; [right; now left | exact K]|].
    destruct (IH H). auto.
  - intros H. destruct (IH H). auto.
Qed.

Lemma find_first {A : Type} (f : A -> bool) (l : list A) (x : A) :
  List.find f l = Some x ->
  exists before after, l = (before ++ x :: after)%list /\ f x = true
                       /\ forall y, In y before -> f y = false.
Proof.
  induction l as [|y l IH]; [discriminate|]. cbn [List.find].
  destruct (f y) eqn:F.
  - intros [= ->]. exists [], l. split; [reflexivity|]. split; [exact F|]. intros ? [].
  - intros H. destruct (IH H) as (before & after & -> & Hx & Hb).
    exists (y :: before), after. split; [reflexivity|]. split; [exact Hx|].
    intros z [<-|Hz]; auto.
Qed.

(** X16.  A target asked for by name is taken from the signed list as it is:
    the first target of that file name, whatever the hardware id of the
    device, the versions and the content of the medium, or [Unknown] when no
    target has that name. *)
Theorem getTarget_by_name_bypasses_selection (strverscmp : string -> string -> Z)
    (hw_id : string) (allTargets : list Target) (src : UpdateSrc) :
  TargetName src <> EmptyString ->
  let t := getTarget strverscmp hw_id allTargets src in
  (forall strverscmp' hw_id' src',
      TargetName src' = TargetName src -> getTarget strverscmp' hw_id' allTargets src' = t)
  /\ ((t = Unknown /\ forall u, In u allTargets -> filename u <> TargetName src)
      \/ (exists before after,
            allTargets = (before ++ t :: after)%list
            /\ filename t = TargetName src
            /\ forall u, In u before -> filename u <> TargetName src)).
Proof.
  intros Hname t. apply String.eqb_neq in Hname.
  assert (E : t = getSpecificTarget allTargets (TargetName src))
    by (unfold t, getTarget; now rewrite Hname).
  split.
  - intros cmp' hw' src' Hsame. unfold getTarget. rewrite Hsame, Hname. cbn [negb]. now rewrite E.
  - rewrite E. unfold getSpecificTarget.
    destruct (List.find _ allTargets) as [first|] eqn:F.
    + right. destruct (find_first _ _ _ F) as (before & after & -> & Hx & Hb).
      exists before, after. split; [reflexivity|]. apply String.eqb_eq in Hx.
      split; [now symmetry|]. intros u Hu E'. specialize (Hb u Hu).
      apply String.eqb_neq in Hb. congruence.
    + left. split; [reflexivity|]. intros u Hu E'.
      pose proof (find_none _ _ F u Hu) as N. cbn beta in N.
      apply String.eqb_neq in N. congruence.
Qed.

Lemma getTarget_by_name_bypasses_selection_witness :
  let named := mkUpdateSrc "T1" [] [] in
  getTarget Glibc.strverscmp "other-hw" [T1; T2] named = T1
  /\ (forall strverscmp' hw_id' src',
        TargetName src' = "T1" -> getTarget strverscmp' hw_id' [T1; T2] src' = T1).
Proof.
  cbv zeta. split; [reflexivity|].
  pose proof (getTarget_by_name_bypasses_selection Glibc.strverscmp "other-hw" [T1; T2]
                (mkUpdateSrc "T1" [] []) ltac:(discriminate)) as H.
  exact (proj1 H).
Defined.

Section Selection.
Variable strverscmp : string -> string -> Z.
Variable hw_id : string.
Variable allTargets : list Target.
Variable src : UpdateSrc.

Local Abbreviation commits := (fst (parseUpdateContent src)).
Local Abbreviation found := (snd (parseUpdateContent src)).
Local Abbreviation candidates := (available_targets strverscmp hw_id allTargets).

Lemma getTarget_cases :
  TargetName src = EmptyString ->
  match List.find (satisfies commits found) candidates with
  | Some u =>
      exists shortlisted,
        getTarget strverscmp hw_id allTargets src = with_apps u shortlisted
        /\ In u allTargets /\ eligible hw_id u = true
        /\ satisfies commits found u = true
        /\ (forall a, In a shortlisted -> In a (apps u))
        /\ (forall a, In a (apps u) ->
                      (forall b, In b (apps u) -> app_name b = app_name a ->
                                 contains found (app_uri b) = true) ->
                      In a shortlisted)
  | None => getTarget strverscmp hw_id allTargets src = Unknown
  end.
Proof.
  intros Hname. unfold getTarget. rewrite Hname. cbn [String.eqb negb].
  pose proof (find_target_first_satisfied commits found candidates) as H.
  destruct (List.find (satisfies commits found) candidates) as [u|] eqn:F; [|exact H].
  destruct H as (shortlisted & E & Hsub & Hkeep).
  destruct (find_some _ _ F) as (Hin & Hsat).
  destruct (In_insert_all _ _ _ _ Hin) as (Hall & Hel).
  exists shortlisted. auto 10.
Qed.

(** X17.  Without a target name, the selection either answers [Unknown],
    and then the medium satisfies none of the candidates, or the target it
    returns is a signed target for the device's hardware whose commit is
    among the refs of the medium, with its file name, commit and version
    unchanged and its apps cut down to a part of them that still covers the
    medium: every app uri found on the medium is the uri of one of the
    returned apps.  App names are unique in a target, as the members of a
    JSON object are. *)
Theorem getTarget_selects_covering_target :
  TargetName src = EmptyString ->
  (forall t, In t allTargets -> List.NoDup (map app_name (apps t))) ->
  let t := getTarget strverscmp hw_id allTargets src in
  (t = Unknown /\ forall u, In u candidates -> satisfies commits found u = false)
  \/ (exists u, In u allTargets /\ eligible hw_id u = true
                /\ In (sha256Hash u) commits
                /\ filename t = filename u /\ sha256Hash t = sha256Hash u
                /\ custom_version t = custom_version u /\ IsValid t = IsValid u
                /\ (forall a, In a (apps t) -> In a (apps u))
                /\ (forall x, In x found -> In x (map app_uri (apps t)))).
Proof.
  intros Hname Hnodup t. unfold t. pose proof (getTarget_cases Hname) as H.
  destruct (List.find (satisfies commits found) candidates) as [u|] eqn:F.
  - right. destruct H as (shortlisted & -> & Hin & Hel & Hsat & Hsub & Hkeep).
    exists u. cbn [with_apps filename sha256Hash custom_version IsValid apps].
    apply satisfies_spec in Hsat as [Hc Hcover].
    repeat split; try assumption; try reflexivity.
    intros x Hx. specialize (Hcover x Hx). apply in_map_iff in Hcover as (a & <- & Ha).
    apply in_map. apply Hkeep; [exact Ha|]. intros b Hb Hn.
    assert (b = a) as ->; [|apply contains_In; exact Hx].
    specialize (Hnodup u Hin). clear - Hnodup Ha Hb Hn.
    induction (apps u) as [|c l IH]; [destruct Ha|].
    cbn [map] in Hnodup. apply List.NoDup_cons_iff in Hnodup as [Hc Hl].
    destruct Ha as [->|Ha], Hb as [->|Hb]; auto.
    + exfalso. apply Hc. rewrite <- Hn. now apply in_map.
    + exfalso. apply Hc. rewrite Hn. now apply in_map.
  - left. split; [exact H|]. intros u Hu. exact (find_none _ _ F u Hu).
Qed.

(** X18.  The newest satisfied candidate wins: when the comparison orders
    the versions of the device's targets (a strict weak ordering, as
    [std::set] needs), every candidate the medium satisfies is either the
    target the selection returns, before its apps were cut down, or has a
    version that [strverscmp] puts below the one returned. *)
Theorem getTarget_returns_newest_satisfied (v : Target) :
  strict_weak_on (target_sort strverscmp) (List.filter (eligible hw_id) allTargets) = true ->
  TargetName src = EmptyString ->
  In v candidates -> satisfies commits found v = true ->
  let t := getTarget strverscmp hw_id allTargets src in
  (exists shortlisted, t = with_apps v shortlisted)
  \/ (0 < strverscmp (custom_version t) (custom_version v))%Z.
Proof.
  intros Hswo Hname Hv Hsat t. unfold t. pose proof (getTarget_cases Hname) as H.
  destruct (List.find (satisfies commits found) candidates) as [u|] eqn:F.
  2:{ rewrite (find_none _ _ F v Hv) in Hsat. discriminate. }
  destruct H as (shortlisted & -> & _).
  destruct (find_first _ _ _ F) as (before & after & Hsplit & _ & Hbefore).
  destruct (strict_weak_on_spec _ _ Hswo) as (Hirr & Htr & Heq).
  set (P := fun z => In z (List.filter (eligible hw_id) allTargets)).
  assert (Pin : forall z, In z allTargets -> eligible hw_id z = true -> P z)
    by (intros z Hz Kz; apply filter_In; now split).
  destruct (insert_all_inv (target_sort strverscmp) P Hirr Htr Heq (eligible hw_id) allTargets Pin)
    as (_ & Hsorted & _).
  fold candidates in Hsorted. rewrite Hsplit in Hsorted, Hv.
  apply in_app_iff in Hv as [Hv|[<-|Hv]].
  - rewrite (Hbefore v Hv) in Hsat. discriminate.
  - left. eauto.
  - right. clear - Hsorted Hv.
    induction before as [|b before IH]; cbn [List.app] in Hsorted.
    + apply StronglySorted_inv in Hsorted as [_ Hall].
      rewrite List.Forall_forall in Hall. specialize (Hall v Hv).
      unfold target_sort in Hall. now apply Z.ltb_lt in Hall.
    + apply StronglySorted_inv in Hsorted as [Hs _]. exact (IH Hs).
Qed.

(** X28.  Nothing to select from: without a target name, a medium with no
    ostree ref, or a list of signed targets none of which is for the device's
    hardware (exactly one hardware id, the device's), gives [Unknown]. *)
Theorem getTarget_unknown_without_commit_or_hardware :
  TargetName src = EmptyString ->
  ostree_refs src = [] \/ (forall t, In t allTargets -> eligible hw_id t = false) ->
  getTarget strverscmp hw_id allTargets src = Unknown.
Proof.
  intros Hname Hnone. pose proof (getTarget_cases Hname) as H.
  destruct (List.find (satisfies commits found) candidates) as [u|]; [|exact H].
  exfalso. destruct H as (_ & _ & Hin & Hel & Hsat & _).
  destruct Hnone as [Hrefs|Hhw].
  - apply satisfies_spec in Hsat as [Hc _]. unfold parseUpdateContent in Hc.
    rewrite Hrefs in Hc. destruct Hc.
  - rewrite (Hhw u Hin) in Hel. discriminate.
Qed.

End Selection.

Lemma getTarget_selects_covering_target_witness :
  let t := getTarget Glibc.strverscmp "hw" [T1; T2] bundle in
  exists u, In u [T1; T2] /\ eligible "hw" u = true
            /\ In (sha256Hash u) (fst (parseUpdateContent bundle))
            /\ filename t = filename u /\ sha256Hash t = sha256Hash u
            /\ custom_version t = custom_version u /\ IsValid t = IsValid u
            /\ (forall a, In a (apps t) -> In a (apps u))
            /\ (forall x, In x (snd (parseUpdateContent bundle)) -> In x (map app_uri (apps t))).
Proof.
  cbv zeta.
  destruct (getTarget_selects_covering_target Glibc.strverscmp "hw" [T1; T2] bundle eq_refl)
    as [(Hu & _)|H].
  - intros t [<-|[<-|[]]]; cbn;
      repeat (apply List.NoDup_cons; [cbn; intuition discriminate|]); apply List.NoDup_nil.
  - discriminate Hu.
  - exact H.
Defined.

Lemma getTarget_unknown_without_commit_or_hardware_witness :
  getTarget Glibc.strverscmp "hw" [T1; T2] (mkUpdateSrc EmptyString [] (apps_tree bundle)) = Unknown
  /\ getTarget Glibc.strverscmp "other-hw" [T1; T2] bundle = Unknown.
Proof.
  split.
  - exact (getTarget_unknown_without_commit_or_hardware Glibc.strverscmp "hw" [T1; T2]
             (mkUpdateSrc EmptyString [] (apps_tree bundle)) eq_refl (or_introl eq_refl)).
  - apply (getTarget_unknown_without_commit_or_hardware Glibc.strverscmp "other-hw" [T1; T2]
             bundle eq_refl).
    right. intros t [<-|[<-|[]]]; reflexivity.
Defined.

Lemma getTarget_returns_newest_satisfied_witness :
  (exists shortlisted,
      getTarget Glibc.strverscmp "hw" [T1; T2] bundle = with_apps T2 shortlisted)
  \/ (0 < Glibc.strverscmp (custom_version (getTarget Glibc.strverscmp "hw" [T1; T2] bundle))
                           (custom_version T2))%Z.
Proof.
  refine (getTarget_returns_newest_satisfied Glibc.strverscmp "hw" [T1; T2] bundle T2 _ eq_refl _ _).
  - vm_compute. reflexivity.
  - left. reflexivity.
  - vm_compute. reflexivity.
Defined.

Lemma match_apps_done found_apps target_apps shortlisted :
  match_apps found_apps target_apps [] shortlisted = ([], shortlisted).
Proof. now destruct target_apps. Qed.

Lemma match_apps_stops found_apps reached rest pending shortlisted :
  fst (match_apps found_apps reached pending shortlisted) = [] ->
  match_apps found_apps (reached ++ rest) pending shortlisted
  = match_apps found_apps reached pending shortlisted.
Proof.
  revert pending shortlisted; induction reached as [|a reached IH]; intros pending shortlisted.
  - cbn [match_apps fst List.app]. intros ->. apply match_apps_done.
  - cbn [match_apps List.app]. destruct pending as [|p ps]; [reflexivity|].
    destruct (negb (contains found_apps (app_uri a))); apply IH.
Qed.

(** X19.  The loop over the apps of a candidate stops as soon as every app
    uri of the medium has been met: the apps it has not reached stay among
    the apps of the target returned, whether they are on the medium or not
    (an app is dropped only if it, or an app of the same name, was reached
    and is missing from the medium).  With no app on the medium every app of
    the target is kept. *)
Theorem match_apps_keeps_apps_not_reached (found_apps : list string)
    (reached rest : list (string * string)) (b : string * string) :
  (forall x, In x found_apps -> In x (map app_uri reached)) ->
  In b rest ->
  (forall a, In a reached -> app_name a <> app_name b) ->
  match_apps found_apps (reached ++ rest) found_apps (reached ++ rest)
  = ([], snd (match_apps found_apps reached found_apps (reached ++ rest)))
  /\ In b (snd (match_apps found_apps (reached ++ rest) found_apps (reached ++ rest))).
Proof.
  intros Hcover Hb Hnames.
  assert (Hdone : fst (match_apps found_apps reached found_apps (reached ++ rest)) = [])
    by (apply match_apps_accepts; auto).
  rewrite (match_apps_stops _ _ _ _ _ Hdone). split.
  - rewrite <- Hdone at 1. now destruct (match_apps found_apps reached found_apps (reached ++ rest)).
  - apply (match_apps_shortlist found_apps reached found_apps (reached ++ rest) b).
    + apply in_app_iff. now right.
    + intros a Ha E. destruct (Hnames a Ha E).
Qed.

Lemma match_apps_keeps_apps_not_reached_witness :
  match_apps [uri_A] [("A", uri_A); ("B", uri_B)] [uri_A] [("A", uri_A); ("B", uri_B)]
  = ([], [("A", uri_A); ("B", uri_B)])
  /\ In ("B", uri_B) (snd (match_apps [uri_A] [("A", uri_A); ("B", uri_B)] [uri_A]
                                      [("A", uri_A); ("B", uri_B)]))
  /\ contains [uri_A] uri_B = false.
Proof.
  destruct (match_apps_keeps_apps_not_reached [uri_A] [("A", uri_A)] [("B", uri_B)] ("B", uri_B))
    as (H1 & H2).
  - intros x [<-|[]]. now left.
  - now left.
  - intros a [<-|[]]. discriminate.
  - split; [exact H1|]. split; [exact H2 | reflexivity].
Defined.

End SelectionFacts.

(** ** The repositories index *)

Module IndexFacts.
Import Docker offline Doubles Notions RegistrarFacts.

Lemma reference_register_image_eq r k d (m : Index) :
  reference (register_image r k d m) r k = Some d.
Proof. unfold reference, register_image. now rewrite !lookup_insert_eq. Qed.

Lemma reference_register_image_ne r k d r' k' (m : Index) :
  (r, k) <> (r', k') -> reference (register_image r k d m) r' k' = reference m r' k'.
Proof.
  intros Hne. unfold reference, register_image.
  destruct (decide (r = r')) as [<-|Hr].
  - rewrite lookup_insert_eq. rewrite lookup_insert_ne by congruence.
    now destruct (m !! r).
  - now rewrite lookup_insert_ne.
Qed.

Lemma write_entries_snoc entries e (m : Index) :
  write_entries (entries ++ [e]) m
  = register_image (fst (fst e)) (snd (fst e)) (snd e) (write_entries entries m).
Proof. unfold write_entries. now rewrite fold_left_app. Qed.

Lemma write_entries_app e1 e2 (m : Index) :
  write_entries (e1 ++ e2) m = write_entries e2 (write_entries e1 m).
Proof. unfold write_entries. now rewrite fold_left_app. Qed.

Lemma reference_write_entries entries (m : Index) r k :
  (forall d, In (r, k, d) entries ->
             exists d', reference (write_entries entries m) r k = Some d' /\ In (r, k, d') entries)
  /\ ((forall d, ~ In (r, k, d) entries) ->
      reference (write_entries entries m) r k = reference m r k)
  /\ (is_Some (reference m r k) -> is_Some (reference (write_entries entries m) r k)).
Proof.
  induction entries as [|[[r0 k0] d0] entries IH] using rev_ind.
  - split; [intros d []|]. split; auto.
  - rewrite write_entries_snoc. cbn [fst snd].
    destruct IH as (IH1 & IH2 & IH3).
    destruct (decide ((r0, k0) = (r, k))) as [[= -> ->]|Hne].
    + rewrite reference_register_image_eq. split; [|split].
      * intros d _. exists d0. split; [reflexivity|]. apply in_app_iff. right. now left.
      * intros Hno. exfalso. apply (Hno d0). apply in_app_iff. right. now left.
      * eauto.
    + rewrite reference_register_image_ne by exact Hne. split; [|split].
      * intros d Hin. apply in_app_iff in Hin as [Hin|[[= -> -> _]|[]]]; [|congruence].
        destruct (IH1 d Hin) as (d' & E & Hin'). exists d'. split; [exact E|].
        apply in_app_iff. now left.
      * intros Hno. apply IH2. intros d Hin. apply (Hno d). apply in_app_iff. now left.
      * exact IH3.
Qed.

Section Store.
Variable store : AppStore.
Variable factory_app_default : bool.
Variable apps_store_root : string.

Lemma register_services_service_entries app_dir images (m : Index) :
  register_services store apps_store_root app_dir images m
  = match service_entries store apps_store_root app_dir images with
    | Ok entries => Ok (write_entries entries m)
    | Err e => Err e
    end.
Proof.
  revert m; induction images as [|image images IH]; intros m; [reflexivity|].
  cbn [register_services service_entries].
  destruct (parseUri image false) as [image_uri|]; [|reflexivity].
  destruct (HashedDigest_of _) as [manifest_digest|]; [|reflexivity].
  destruct (HashedDigest_of _) as [config_digest|]; [|reflexivity].
  rewrite IH. now destruct (service_entries store apps_store_root app_dir images).
Qed.

Lemma register_apps_app_entries target_apps (m : Index) :
  register_apps store factory_app_default apps_store_root target_apps m
  = match app_entries store factory_app_default apps_store_root target_apps with
    | Ok entries => Ok (write_entries entries m)
    | Err e => Err e
    end.
Proof.
  revert m; induction target_apps as [|a target_apps IH]; intros m; [reflexivity|].
  cbn [register_apps app_entries].
  destruct (parseUri (app_uri a) factory_app_default) as [uri|]; [|reflexivity].
  destruct (negb (exists_ store _)); [apply IH|].
  destruct (compose_images store _) as [images|]; [|reflexivity].
  rewrite register_services_service_entries.
  destruct (service_entries store apps_store_root _ images) as [entries|]; [|reflexivity].
  rewrite IH. destruct (app_entries store factory_app_default apps_store_root target_apps);
    [|reflexivity].
  now rewrite write_entries_app.
Qed.

Lemma service_entries_digests app_dir images entries :
  service_entries store apps_store_root app_dir images = Ok entries ->
  (forall r k d, In (r, k, d) entries ->
                 exists x dg, HashedDigest_of x = Ok dg /\ d = digest_ dg)
  /\ (forall image image_uri,
        In image images -> parseUri image false = Ok image_uri ->
        exists d, In (registryHostname image_uri ++ "/" ++ repo image_uri, image, d) entries).
Proof.
  revert entries; induction images as [|image images IH]; intros entries.
  - intros [= <-]. split; [intros ? ? ? []|intros ? ? []].
  - cbn [service_entries].
    destruct (parseUri image false) as [image_uri|] eqn:Ep; [|discriminate].
    destruct (HashedDigest_of _) as [manifest_digest|]; [|discriminate].
    destruct (HashedDigest_of _) as [config_digest|] eqn:Ec; [|discriminate].
    destruct (service_entries store apps_store_root app_dir images) as [rest|]; [|discriminate].
    intros [= <-]. destruct (IH rest eq_refl) as (IH1 & IH2). split.
    + intros r k d [[= <- <- <-]|Hin]; [eauto | exact (IH1 r k d Hin)].
    + intros image' image_uri' [->|Hin] Hp.
      * rewrite Ep in Hp. injection Hp as <-. eexists. now left.
      * destruct (IH2 image' image_uri' Hin Hp) as (d & Hd). exists d. now right.
Qed.

Lemma app_entries_digests target_apps entries :
  app_entries store factory_app_default apps_store_root target_apps = Ok entries ->
  (forall r k d, In (r, k, d) entries ->
                 exists x dg, HashedDigest_of x = Ok dg /\ d = digest_ dg)
  /\ (forall a uri images image image_uri,
        In a target_apps ->
        parseUri (app_uri a) factory_app_default = Ok uri ->
        let app_dir := apps_store_root // "apps" // Docker.app uri // hash_ (digest uri) in
        exists_ store app_dir = true ->
        compose_images store (app_dir // ComposeFile) = Ok images ->
        In image images -> parseUri image false = Ok image_uri ->
        exists d, In (registryHostname image_uri ++ "/" ++ repo image_uri, image, d) entries).
Proof.
  revert entries; induction target_apps as [|a target_apps IH]; intros entries.
  - intros [= <-]. split; [intros ? ? ? []|intros ? ? ? ? ? []].
  - cbn [app_entries].
    destruct (parseUri (app_uri a) factory_app_default) as [uri|] eqn:Ep; [|discriminate].
    destruct (exists_ store _) eqn:Ex; cbn [negb].
    + destruct (compose_images store _) as [images|] eqn:Ei; [|discriminate].
      destruct (service_entries store apps_store_root _ images) as [mine|] eqn:Es; [|discriminate].
      destruct (app_entries store factory_app_default apps_store_root target_apps) as [more|];
        [|discriminate].
      intros [= <-]. destruct (IH more eq_refl) as (IH1 & IH2).
      destruct (service_entries_digests _ _ _ Es) as (S1 & S2). split.
      * intros r k d Hin. apply in_app_iff in Hin as [Hin|Hin]; eauto.
      * intros a' uri' images' image image_uri Hin Hp. cbv zeta. intros Hex Hci Him Hpi.
        destruct Hin as [->|Hin].
        -- rewrite Ep in Hp. injection Hp as <-. rewrite Ei in Hci.
           injection Hci as <-. destruct (S2 image image_uri Him Hpi) as (d & Hd).
           exists d. apply in_app_iff. now left.
        -- destruct (IH2 a' uri' images' image image_uri Hin Hp Hex Hci Him Hpi) as (d & Hd).
           exists d. apply in_app_iff. now right.
    + intros H. destruct (IH entries H) as (IH1 & IH2). split; [exact IH1|].
      intros a' uri' images' image image_uri Hin Hp. cbv zeta. intros Hex Hci Him Hpi.
      destruct Hin as [->|Hin].
      * rewrite Ep in Hp. injection Hp as <-. congruence.
      * exact (IH2 a' uri' images' image image_uri Hin Hp Hex Hci Him Hpi).
Qed.

Variable J : JsonLib.

Lemma registerApps_cases target docker_root files :
  registerApps J store factory_app_default apps_store_root target docker_root files
  = match app_entries store factory_app_default apps_store_root (apps target) with
    | Ok entries =>
        Ok (<[docker_root ++ "/image/overlay2/repositories.json" :=
               writeJSON J (write_entries entries (index_of J docker_root files))]> files)
    | Err e => Err e
    end.
Proof.
  unfold registerApps, index_of. rewrite register_apps_app_entries.
  now destruct (app_entries store factory_app_default apps_store_root (apps target)).
Qed.

(** X20.  [registerApps] adds to the index and takes nothing away.  It
    writes one file, the repositories file under the docker root, and every
    reference of every repository that the index held before is still in the
    index it writes (with the digest of this run, if the run registers the
    same reference). *)
Theorem registerApps_keeps_references (target : Target) (docker_root : string)
    (files files' : gmap string string) :
  registerApps J store factory_app_default apps_store_root target docker_root files = Ok files' ->
  exists repositories,
    files' = <[docker_root ++ "/image/overlay2/repositories.json" := writeJSON J repositories]> files
    /\ forall image_repo image_uri_str,
         is_Some (reference (index_of J docker_root files) image_repo image_uri_str) ->
         is_Some (reference repositories image_repo image_uri_str).
Proof.
  rewrite registerApps_cases.
  destruct (app_entries store factory_app_default apps_store_root (apps target)) as [entries|];
    [|discriminate].
  intros [= <-]. eexists. split; [reflexivity|]. intros r k.
  apply (reference_write_entries entries (index_of J docker_root files) r k).
Qed.

(** X21.  What a successful [registerApps] has registered: for every app of
    the target whose directory is in the store, every image of its compose
    file is a reference of the index written, under the repository
    [<host>/<repo>] of the image and the image uri as the key, and what it
    points at is a well-formed digest, in lower case. *)
Theorem registerApps_registers_every_service (target : Target) (docker_root : string)
    (files files' : gmap string string) (a : string * string) (uri : Uri)
    (images : list string) (image : string) (image_uri : Uri) :
  registerApps J store factory_app_default apps_store_root target docker_root files = Ok files' ->
  In a (apps target) ->
  parseUri (app_uri a) factory_app_default = Ok uri ->
  let app_dir := apps_store_root // "apps" // Docker.app uri // hash_ (digest uri) in
  exists_ store app_dir = true ->
  compose_images store (app_dir // ComposeFile) = Ok images ->
  In image images ->
  parseUri image false = Ok image_uri ->
  exists repositories x config_digest,
    files' !! (docker_root ++ "/image/overlay2/repositories.json") = Some (writeJSON J repositories)
    /\ reference repositories (registryHostname image_uri ++ "/" ++ repo image_uri) image
       = Some (digest_ config_digest)
    /\ HashedDigest_of x = Ok config_digest.
Proof.
  rewrite registerApps_cases.
  destruct (app_entries store factory_app_default apps_store_root (apps target)) as [entries|] eqn:E;
    [|discriminate].
  intros [= <-] Ha Hp. cbv zeta. intros Hex Hci Him Hpi.
  destruct (app_entries_digests _ _ E) as (H1 & H2).
  destruct (H2 a uri images image image_uri Ha Hp Hex Hci Him Hpi) as (d & Hd).
  destruct (reference_write_entries entries (index_of J docker_root files)
              (registryHostname image_uri ++ "/" ++ repo image_uri) image) as (R1 & _).
  destruct (R1 d Hd) as (d' & Hr & Hin').
  destruct (H1 _ _ _ Hin') as (x & dg & Hx & ->).
  exists (write_entries entries (index_of J docker_root files)), x, dg.
  split; [apply lookup_insert_eq|]. split; assumption.
Qed.

(** X22.  Apps that are not in the store are passed over: when every app
    uri of the target parses and none of the app directories exists,
    [registerApps] succeeds and writes the index back as it read it (the
    empty index, when there was no repositories file). *)
Theorem registerApps_skips_absent_apps (target : Target) (docker_root : string)
    (files : gmap string string) :
  (forall a, In a (apps target) ->
     exists uri, parseUri (app_uri a) factory_app_default = Ok uri
                 /\ exists_ store (apps_store_root // "apps" // Docker.app uri // hash_ (digest uri))
                    = false) ->
  registerApps J store factory_app_default apps_store_root target docker_root files
  = Ok (<[docker_root ++ "/image/overlay2/repositories.json" :=
           writeJSON J (index_of J docker_root files)]> files).
Proof.
  intros Habsent. rewrite registerApps_cases.
  assert (E : app_entries store factory_app_default apps_store_root (apps target) = Ok []).
  { induction (apps target) as [|a l IH]; [reflexivity|]. cbn [app_entries].
    destruct (Habsent a (or_introl eq_refl)) as (uri & -> & ->). cbn [negb].
    apply IH. intros b Hb. apply Habsent. now right. }
  rewrite E. reflexivity.
Qed.

End Store.

Lemma registerApps_keeps_references_witness :
  let repositories_file := "/var/lib/docker" ++ "/image/overlay2/repositories.json" in
  let files : gmap string string :=
    {[ repositories_file := writeJSON json_lib {[ "old/repo" := {[ "old-ref" := "sha256:0" ]} ]} ]} in
  exists repositories,
    registerApps json_lib app_store true "/store" T2 "/var/lib/docker" files
    = Ok (<[repositories_file := writeJSON json_lib repositories]> files)
    /\ is_Some (reference repositories "old/repo" "old-ref").
Proof.
  intros repositories_file files.
  pose proof (registerApps_cases app_store true "/store" json_lib T2 "/var/lib/docker" files) as C.
  change (app_entries app_store true "/store" (apps T2))
    with (Ok [("h/r", image_uri, "sha256:" ++ Str.repeat "c" 64)] : result _) in C.
  destruct (registerApps_keeps_references app_store true "/store" json_lib T2 "/var/lib/docker"
              files _ C) as (repositories & E & K).
  exists repositories. split; [rewrite C; f_equal; exact E|].
  apply K. unfold index_of. fold repositories_file. unfold files.
  rewrite lookup_singleton_eq, json_lib_round_trip. vm_compute. eauto.
Defined.

Lemma registerApps_registers_every_service_witness :
  exists files' repositories x config_digest,
    registerApps json_lib app_store true "/store" T2 "/var/lib/docker" ∅ = Ok files'
    /\ files' !! ("/var/lib/docker" ++ "/image/overlay2/repositories.json")
       = Some (writeJSON json_lib repositories)
    /\ reference repositories "h/r" image_uri = Some (digest_ config_digest)
    /\ HashedDigest_of x = Ok config_digest.
Proof.
  eexists.
  destruct (registerApps_registers_every_service app_store true "/store" json_lib T2
              "/var/lib/docker" ∅ _ ("A", uri_A)
              (mkUri (digest_for (Str.repeat "1" 64)) "A" "factory" "factory/A" "hub.foundries.io")
              [image_uri] image_uri
              (mkUri (digest_for (Str.repeat "a" 64)) "r" EmptyString "r" "h")
              eq_refl (or_introl eq_refl) eq_refl eq_refl eq_refl (or_introl eq_refl) eq_refl)
    as (repositories & x & config_digest & H1 & H2 & H3).
  exists repositories, x, config_digest. split; [reflexivity|]. auto.
Defined.

Lemma registerApps_skips_absent_apps_witness :
  registerApps json_lib app_store true "/store" (with_apps T2 [("B", uri_B)]) "/var/lib/docker" ∅
  = Ok (<["/var/lib/docker" ++ "/image/overlay2/repositories.json" :=
           writeJSON json_lib (index_of json_lib "/var/lib/docker" ∅)]> ∅).
Proof.
  apply (registerApps_skips_absent_apps app_store true "/store" json_lib
           (with_apps T2 [("B", uri_B)]) "/var/lib/docker" ∅).
  intros a [<-|[]]. eexists. split; reflexivity.
Defined.

End IndexFacts.

(** ** [install] *)

Module InstallFacts.
Import Docker offline Doubles OfflineInstall MoreDoubles.
Import Notions IndexFacts.

Section InstallOutcome.
Variable strverscmp : string -> string -> Z.
Variable J : JsonLib.
Variable factory_app_default : bool.
Variable reset_apps_root : string.
Variable images_data_root : string.
Context {C : Type} {ops : LiteClient.Ops C}.
Variable updateImageMeta : C -> (bool * string) * C.
Variable app_store_of : C -> AppStore.

Local Abbreviation install :=
  (install strverscmp J factory_app_default reset_apps_root images_data_root updateImageMeta
           app_store_of).

(** X23.  When [install] answers an action, the metadata was pulled, a valid
    target was selected, the client downloaded it and its apps were
    registered: the files are the ones [registerApps] wrote.  The answer is
    [NeedDockerRestart] exactly when the booted commit is the target's, and
    then the OSTree install is not run; it is [NeedReboot] only after the
    OSTree install has answered [kNeedCompletion]. *)
Theorem install_answers_after_registration (client0 : C) (files : gmap string string)
    (src : UpdateSrc) (action : PostInstallAction) (client' : C) (files' : gmap string string) :
  install client0 files src = (Ok action, (client', files')) ->
  let rc := updateImageMeta client0 in
  let target := getTarget strverscmp (LiteClient.primary_ecu_second (snd rc))
                          (LiteClient.allTargets (snd rc)) src in
  let dl := LiteClient.download (snd rc) target ("offline update to " ++ filename target) in
  fst (fst rc) = true /\ IsValid target = true /\ fst (fst dl) = true
  /\ registerApps J (app_store_of (snd dl)) factory_app_default reset_apps_root target
                  images_data_root files = Ok files'
  /\ match action with
     | NeedDockerRestart =>
         sha256Hash (LiteClient.getCurrent (snd dl)) = sha256Hash target /\ client' = snd dl
     | NeedReboot =>
         sha256Hash (LiteClient.getCurrent (snd dl)) <> sha256Hash target
         /\ LiteClient.install (snd dl) target = (kNeedCompletion, client')
     end.
Proof.
  unfold OfflineInstall.install. cbv zeta.
  destruct (fst (fst (updateImageMeta client0))); [|discriminate]. cbn [negb].
  destruct (IsValid _); [|discriminate]. cbn [negb].
  destruct (fst (fst (LiteClient.download _ _ _))); [|discriminate]. cbn [negb].
  destruct (registerApps _ _ _ _ _ _ _) as [registered|]; [|discriminate].
  destruct (String.eqb_spec (sha256Hash (LiteClient.getCurrent
             (snd (LiteClient.download (snd (updateImageMeta client0))
                (getTarget strverscmp (LiteClient.primary_ecu_second (snd (updateImageMeta client0)))
                   (LiteClient.allTargets (snd (updateImageMeta client0))) src)
                ("offline update to " ++ filename
                   (getTarget strverscmp (LiteClient.primary_ecu_second (snd (updateImageMeta client0)))
                      (LiteClient.allTargets (snd (updateImageMeta client0))) src))))))
            (sha256Hash (getTarget strverscmp (LiteClient.primary_ecu_second (snd (updateImageMeta client0)))
                   (LiteClient.allTargets (snd (updateImageMeta client0))) src))) as [E|N].
  - intros [= <- <- <-]. repeat split; try reflexivity; assumption.
  - destruct (LiteClient.install _ _) as [code after] eqn:Ei. cbn [fst snd].
    destruct code; try discriminate. intros [= <- <- <-].
    repeat split; try reflexivity; assumption.
Qed.

(** X24.  A failed [install] leaves the files as they were, with one
    exception: when it is the OSTree install that fails (it answers anything
    but [kNeedCompletion]), the apps of the target are registered already
    and stay registered. *)
Theorem install_failure_keeps_or_registers (client0 : C) (files : gmap string string)
    (src : UpdateSrc) (e : exn) (client' : C) (files' : gmap string string) :
  install client0 files src = (Err e, (client', files')) ->
  let rc := updateImageMeta client0 in
  let target := getTarget strverscmp (LiteClient.primary_ecu_second (snd rc))
                          (LiteClient.allTargets (snd rc)) src in
  let dl := LiteClient.download (snd rc) target ("offline update to " ++ filename target) in
  files' = files
  \/ (e = runtime_error "Failed to install Target"
      /\ registerApps J (app_store_of (snd dl)) factory_app_default reset_apps_root target
                      images_data_root files = Ok files'
      /\ fst (LiteClient.install (snd dl) target) <> kNeedCompletion
      /\ client' = snd (LiteClient.install (snd dl) target)).
Proof.
  unfold OfflineInstall.install. cbv zeta.
  destruct (fst (fst (updateImageMeta client0))); cbn [negb]; [|intros [= _ _ <-]; now left].
  destruct (IsValid _); cbn [negb]; [|intros [= _ _ <-]; now left].
  destruct (fst (fst (LiteClient.download _ _ _))); cbn [negb]; [|intros [= _ _ <-]; now left].
  destruct (registerApps _ _ _ _ _ _ _) as [registered|]; [|intros [= _ _ <-]; now left].
  destruct (String.eqb _ _); [discriminate|].
  destruct (LiteClient.install _ _) as [code after] eqn:Ei. cbn [fst snd].
  destruct code; try discriminate; intros [= <- <- <-]; right;
    (split; [reflexivity|]; split; [reflexivity|]; split; [discriminate | reflexivity]).
Qed.

(** X25.  What [install] has put in the repositories index by the time it
    answers: for every app of the selected target whose directory is in the
    app store after the download, every image of its compose file is a
    reference of the index, under the repository [<host>/<repo>] of the image
    and the image uri as the key, and points at a well-formed digest. *)
Theorem install_registers_services (client0 : C) (files : gmap string string)
    (src : UpdateSrc) (action : PostInstallAction) (client' : C) (files' : gmap string string)
    (a : string * string) (uri : Uri) (images : list string) (image : string) (image_uri : Uri) :
  install client0 files src = (Ok action, (client', files')) ->
  let rc := updateImageMeta client0 in
  let target := getTarget strverscmp (LiteClient.primary_ecu_second (snd rc))
                          (LiteClient.allTargets (snd rc)) src in
  let dl := LiteClient.download (snd rc) target ("offline update to " ++ filename target) in
  let store := app_store_of (snd dl) in
  let app_dir := reset_apps_root // "apps" // Docker.app uri // hash_ (digest uri) in
  In a (apps target) ->
  parseUri (app_uri a) factory_app_default = Ok uri ->
  exists_ store app_dir = true ->
  compose_images store (app_dir // ComposeFile) = Ok images ->
  In image images ->
  parseUri image false = Ok image_uri ->
  exists repositories x config_digest,
    files' !! (images_data_root ++ "/image/overlay2/repositories.json")
    = Some (writeJSON J repositories)
    /\ reference repositories (registryHostname image_uri ++ "/" ++ repo image_uri) image
       = Some (digest_ config_digest)
    /\ HashedDigest_of x = Ok config_digest.
Proof.
  intros Hinstall. cbv zeta. intros Ha Hp Hex Hci Him Hpi.
  unfold OfflineInstall.install in Hinstall. cbv zeta in Hinstall.
  destruct (fst (fst (updateImageMeta client0))); [|discriminate]. cbn [negb] in Hinstall.
  destruct (IsValid _); [|discriminate]. cbn [negb] in Hinstall.
  destruct (fst (fst (LiteClient.download _ _ _))); [|discriminate]. cbn [negb] in Hinstall.
  rewrite registerApps_cases in Hinstall.
  destruct (app_entries _ _ _ _) as [entries|] eqn:E; [|discriminate].
  assert (Hfiles : files' = <[images_data_root ++ "/image/overlay2/repositories.json" :=
                              writeJSON J (write_entries entries (index_of J images_data_root files))]>
                            files).
  { destruct (String.eqb _ _); [now injection Hinstall as _ _ <-|].
    destruct (fst (LiteClient.install _ _)); try discriminate. now injection Hinstall as _ _ <-. }
  destruct (app_entries_digests _ _ _ _ _ E) as (H1 & H2).
  destruct (H2 a uri images image image_uri Ha Hp Hex Hci Him Hpi) as (d & Hd).
  destruct (reference_write_entries entries (index_of J images_data_root files)
              (registryHostname image_uri ++ "/" ++ repo image_uri) image) as (R1 & _).
  destruct (R1 d Hd) as (d' & Hr & Hin').
  destruct (H1 _ _ _ Hin') as (x & dg & Hx & ->).
  exists (write_entries entries (index_of J images_data_root files)), x, dg.
  split; [rewrite Hfiles; apply lookup_insert_eq|]. split; assumption.
Qed.

End InstallOutcome.

Lemma install_answers_after_registration_witness :
  let device := mkDevice [T1; T2] T1 true 0 in
  exists files',
    install (ops := rebooting_install) Glibc.strverscmp json_lib true "/store" "/var/lib/docker"
            meta_pulled (fun _ => app_store) device ∅ bundle
    = (Ok NeedReboot, (mkDevice [T1; T2] T1 true 1, files'))
    /\ registerApps json_lib app_store true "/store"
                    (getTarget Glibc.strverscmp "hw" [T1; T2] bundle) "/var/lib/docker" ∅
       = Ok files'.
Proof.
  intros device. eexists. split; [reflexivity|].
  exact (proj1 (proj2 (proj2 (proj2
    (install_answers_after_registration (ops := rebooting_install) Glibc.strverscmp json_lib true
       "/store" "/var/lib/docker" meta_pulled (fun _ => app_store) device ∅ bundle NeedReboot
       (mkDevice [T1; T2] T1 true 1) _ eq_refl))))).
Defined.

Lemma install_failure_keeps_or_registers_witness :
  let device := mkDevice [T1; T2] T1 true 0 in
  exists files',
    install (ops := failing_install) Glibc.strverscmp json_lib true "/store" "/var/lib/docker"
            meta_pulled (fun _ => app_store) device ∅ bundle
    = (Err (runtime_error "Failed to install Target"), (mkDevice [T1; T2] T1 true 1, files'))
    /\ (files' = ∅
        \/ registerApps json_lib app_store true "/store"
                        (getTarget Glibc.strverscmp "hw" [T1; T2] bundle) "/var/lib/docker" ∅
           = Ok files').
Proof.
  intros device. eexists. split; [reflexivity|].
  destruct (install_failure_keeps_or_registers (ops := failing_install) Glibc.strverscmp json_lib
              true "/store" "/var/lib/docker" meta_pulled (fun _ => app_store) device ∅ bundle
              _ _ _ eq_refl) as [H|(_ & H & _)]; [now left | now right].
Defined.

Lemma install_registers_services_witness :
  let device := mkDevice [T1; T2] T1 true 0 in
  exists files' repositories x config_digest,
    install (ops := rebooting_install) Glibc.strverscmp json_lib true "/store" "/var/lib/docker"
            meta_pulled (fun _ => app_store) device ∅ bundle
    = (Ok NeedReboot, (mkDevice [T1; T2] T1 true 1, files'))
    /\ files' !! ("/var/lib/docker" ++ "/image/overlay2/repositories.json")
       = Some (writeJSON json_lib repositories)
    /\ reference repositories "h/r" image_uri = Some (digest_ config_digest)
    /\ HashedDigest_of x = Ok config_digest.
Proof.
  intros device. eexists.
  destruct (install_registers_services (ops := rebooting_install) Glibc.strverscmp json_lib true
              "/store" "/var/lib/docker" meta_pulled (fun _ => app_store) device ∅ bundle
              NeedReboot (mkDevice [T1; T2] T1 true 1) _ ("A", uri_A)
              (mkUri (digest_for (Str.repeat "1" 64)) "A" "factory" "factory/A" "hub.foundries.io")
              [image_uri] image_uri
              (mkUri (digest_for (Str.repeat "a" 64)) "r" EmptyString "r" "h")
              eq_refl (or_introl eq_refl) eq_refl eq_refl eq_refl (or_introl eq_refl) eq_refl)
    as (repositories & x & config_digest & H1 & H2 & H3).
  exists repositories, x, config_digest. split; [reflexivity|]. auto.
Defined.

End InstallFacts.

(** ** [run] *)

Module RunFacts.
Import Docker offline Doubles.

(** X26.  [run] ends normally only with a verified metadata, a valid target
    and the target active in the state it leaves; if the booted commit was
    not the target's, that state is the one [finalizeInstall] left after it
    succeeded, and otherwise it is the one [install] left after a successful
    download. *)
Theorem run_success_means_active {C : Type} (ops : LiteClient.Ops C)
    (strverscmp : string -> string -> Z) (client0 : C) (src : UpdateSrc) (client' : C) :
  run strverscmp client0 src = (Ok tt, client') ->
  let chk := LiteClient.checkImageMetaOffline client0 in
  let client := snd chk in
  let target := getTarget strverscmp (LiteClient.primary_ecu_second client)
                          (LiteClient.allTargets client) src in
  let dl := LiteClient.download client target ("offline update of " ++ filename target) in
  fst chk = true /\ IsValid target = true
  /\ LiteClient.isTargetActive client' target = true
  /\ (if String.eqb (sha256Hash (LiteClient.getCurrent client)) (sha256Hash target)
      then fst (fst dl) = true /\ client' = snd (LiteClient.install (snd dl) target)
      else LiteClient.finalizeInstall client = (true, client')).
Proof.
  unfold run, run_apply. cbv zeta.
  destruct (fst (LiteClient.checkImageMetaOffline client0)); [|discriminate]. cbn [negb].
  destruct (IsValid _); [|discriminate]. cbn [negb].
  destruct (String.eqb _ _); cbn [negb].
  - destruct (fst (fst (LiteClient.download _ _ _))); cbn [negb]; [|discriminate].
    destruct (LiteClient.isTargetActive _ _) eqn:A; cbn [negb]; [|discriminate].
    intros [= <-]. repeat split; try reflexivity; assumption.
  - destruct (LiteClient.finalizeInstall _) as [ok after] eqn:F. cbn [fst snd].
    destruct ok; cbn [negb]; [|discriminate].
    destruct (LiteClient.isTargetActive _ _) eqn:A; cbn [negb]; [|discriminate].
    intros [= <-]. repeat split; try reflexivity; assumption.
Qed.

Lemma run_success_means_active_witness :
  let device := mkDevice [T1; T2] T1 true 0 in
  run (ops := failing_install) Glibc.strverscmp device bundle = (Ok tt, device)
  /\ LiteClient.isTargetActive (Ops := failing_install) device
       (getTarget Glibc.strverscmp "hw" [T1; T2] bundle) = true
  /\ LiteClient.finalizeInstall (Ops := failing_install) device = (true, device).
Proof.
  intros device. split; [reflexivity|].
  destruct (run_success_means_active failing_install Glibc.strverscmp device bundle device eq_refl)
    as (_ & _ & H1 & H2).
  split; [exact H1 | exact H2].
Defined.

End RunFacts.
